(** * Ros2RangeFinder: the range-finder plugin of webots_ros2_driver

    A shallow embedding of
    [webots_ros2_driver/src/plugins/static/Ros2RangeFinder.cpp]:
    [init], [step], [publishImage] and [publishPointCloud], together with
    the machine arithmetic they rely on.

    - C++ [int] is a 32-bit two's complement integer.  Signed overflow is
      undefined behaviour, so a checked operation returns [None] there;
      conversions to and from [uint32_t] wrap and are written out.
    - [double] and [float] are IEEE-754 binary64 and binary32 with
      round-to-nearest-even, taken from the Standard Library's [SpecFloat].
      Expressions on [float] operands are evaluated in single precision.
      [SpecFloat] has one NaN: a result that is a NaN is stored as the quiet
      NaN [0x7FC00000], while a value that is only copied keeps its bits.
    - Memory is a list of bytes; a [float] in memory is its 32-bit pattern,
      least significant byte first (the byte order of the hosts the driver
      runs on).
    - The device, the clock and the publishers are external.  The commands
      and the messages handed to them are recorded, in order, in a trace. *)

From Stdlib Require Import ZArith NArith List Lia Bool.
From Stdlib Require Strings.String.
From Stdlib Require Import Floats.SpecFloat.
From coqutil Require Import Byte Word.LittleEndianList.
Import ListNotations String.StringSyntax.
Local Open Scope Z_scope.
Delimit Scope string_scope with string.

Definition string : Set := String.string.

(** ** Fallible computations *)

Definition bind {A B : Type} (c : option A) (k : A -> option B) : option B :=
  match c with
  | Some a => k a
  | None => None
  end.

Notation "x <- c ;; k" := (bind c (fun x => k))
  (at level 61, c at next level, right associativity).
Notation "' pat <- c ;; k" := (bind c (fun x => match x with pat => k end))
  (at level 61, pat pattern, c at next level, right associativity).

(** ** C++ [int] *)

Module Int.
Definition INT_MAX : Z := 2147483647.
Definition INT_MIN : Z := -2147483648.

Definition in_range (z : Z) : bool := (INT_MIN <=? z) && (z <=? INT_MAX).

(** The result of a signed operation, undefined when it does not fit. *)
Definition checked (z : Z) : option Z := if in_range z then Some z else None.

Definition add (a b : Z) : option Z := checked (a + b).
Definition mul (a b : Z) : option Z := checked (a * b).

(** [int] to [uint32_t], and back. *)
Definition to_uint32 (z : Z) : Z := z mod 2 ^ 32.
Definition of_uint32 (u : Z) : Z := if u <? 2 ^ 31 then u else u - 2 ^ 32.

(** [int] to [size_t], and the product of two [size_t]. *)
Definition to_size_t (z : Z) : Z := z mod 2 ^ 64.
Definition size_mul (a b : Z) : Z := (a * b) mod 2 ^ 64.
End Int.

(** ** IEEE-754 arithmetic *)

Module F64.
Definition prec : Z := 53.
Definition emax : Z := 1024.
Definition t : Type := spec_float.

Definition of_int (z : Z) : t := binary_normalize prec emax z 0 false.
Definition mul : t -> t -> t := SFmul prec emax.
Definition div : t -> t -> t := SFdiv prec emax.

Definition zero : t := S754_zero false.
Definition one : t := of_int 1.
Definition two : t := of_int 2.
(** The literal [0.5]. *)
Definition half : t := binary_normalize prec emax 1 (-1) false.
End F64.

Module F32.
Definition prec : Z := 24.
Definition emax : Z := 128.
Definition t : Type := spec_float.

Definition of_int (z : Z) : t := binary_normalize prec emax z 0 false.
Definition neg : t -> t := SFopp.
Definition sub : t -> t -> t := SFsub prec emax.
Definition mul : t -> t -> t := SFmul prec emax.
Definition div : t -> t -> t := SFdiv prec emax.

(** The conversion [(float) d] of a [double]. *)
Definition of_f64 (d : F64.t) : t :=
  match d with
  | S754_finite s m e => binary_round prec emax s m e
  | _ => d
  end.

Definition sign_bit (s : bool) : Z := if s then 2 ^ 31 else 0.

(** The 32-bit pattern of a value (quiet NaN [0x7FC00000] for NaN). *)
Definition to_bits (x : t) : Z :=
  match x with
  | S754_zero s => sign_bit s
  | S754_infinity s => sign_bit s + 255 * 2 ^ 23
  | S754_nan => 255 * 2 ^ 23 + 2 ^ 22
  | S754_finite s m e =>
      if Zpos m <? 2 ^ 23
      then sign_bit s + Zpos m
      else (sign_bit s + (e + 150) * 2 ^ 23 + (Zpos m - 2 ^ 23)) mod 2 ^ 32
  end.

(** The value of a 32-bit pattern. *)
Definition of_bits (w : Z) : t :=
  let s := Z.testbit w 31 in
  let e := (w / 2 ^ 23) mod 2 ^ 8 in
  let m := w mod 2 ^ 23 in
  if e =? 255 then
    if m =? 0 then S754_infinity s else S754_nan
  else if e =? 0 then
    match m with
    | Zpos p => S754_finite s p (-149)
    | _ => S754_zero s
    end
  else
    match m + 2 ^ 23 with
    | Zpos p => S754_finite s p (e - 150)
    | _ => S754_nan
    end.
End F32.

(** ** Byte buffers *)

Definition len (mem : list byte) : Z := Z.of_nat (length mem).

(** [std::vector<uint8_t>::resize(n)] on an empty vector, [n] an [int]:
    a negative [n] converts to a [size_t] beyond [max_size()] and throws. *)
Definition resize (n : Z) : option (list byte) :=
  if n <? 0 then None else Some (repeat Byte.x00 (Z.to_nat n)).

(** [p[k]] for [const float *p]: four bytes at byte offset [4 * k]. *)
Definition load_f32 (mem : list byte) (k : Z) : option Z :=
  if (0 <=? k) && (4 * k + 4 <=? len mem)
  then Some (le_combine (firstn 4 (skipn (Z.to_nat (4 * k)) mem)))
  else None.

(** [m] with the cells from offset [a] on overwritten by [s]. *)
Definition splice {A : Type} (m s : list A) (a : nat) : list A :=
  firstn a m ++ s ++ skipn (a + length s) m.

(** [memcpy(p + k, &v, sizeof(float))] for [float *p]. *)
Definition store_f32 (mem : list byte) (k : Z) (bits : Z) : option (list byte) :=
  if (0 <=? k) && (4 * k + 4 <=? len mem)
  then Some (splice mem (le_split 4 bits) (Z.to_nat (4 * k)))
  else None.

(** [memcpy(dst, src, n)] with [n] the size of [dst]. *)
Definition memcpy_all (dst src : list byte) : option (list byte) :=
  if len dst <=? len src then Some (firstn (length dst) src) else None.

(** The [float] view of a buffer: its consecutive 32-bit patterns. *)
Fixpoint decode_f32 (mem : list byte) : list Z :=
  match mem with
  | b0 :: b1 :: b2 :: b3 :: rest => le_combine [b0; b1; b2; b3] :: decode_f32 rest
  | _ => []
  end.

Definition encode_f32 (fs : list Z) : list byte := flat_map (le_split 4) fs.

(** [for (int i = start; ...; i++)] running [n] times. *)
Fixpoint for_loop {St : Type} (n : nat) (i : Z) (body : Z -> St -> option St) (s : St)
  : option St :=
  match n with
  | O => Some s
  | S n' => s' <- body i s ;; for_loop n' (i + 1) body s'
  end.

(** ** Messages *)

Record Image := {
  img_stamp : Z;
  img_frame_id : string;
  img_height : Z;
  img_width : Z;
  img_encoding : string;
  img_is_bigendian : bool;
  img_step : Z;
  img_data : list byte
}.

Record CameraInfo := {
  ci_stamp : Z;
  ci_frame_id : string;
  ci_height : Z;
  ci_width : Z;
  ci_distortion_model : string;
  ci_d : list F64.t;
  ci_k : list F64.t;
  ci_r : list F64.t;
  ci_p : list F64.t
}.

Record PointField := {
  pf_name : string;
  pf_offset : Z;
  pf_datatype : Z;
  pf_count : Z
}.

Record PointCloud2 := {
  pc_stamp : Z;
  pc_frame_id : string;
  pc_height : Z;
  pc_width : Z;
  pc_fields : list PointField;
  pc_is_bigendian : bool;
  pc_point_step : Z;
  pc_row_step : Z;
  pc_data : list byte
}.

(** [sensor_msgs::image_encodings::TYPE_32FC1] and
    [sensor_msgs::msg::PointField::FLOAT32]. *)
Definition TYPE_32FC1 : string := "32FC1"%string.
Definition FLOAT32 : Z := 7.

(** ** The plugin object and its surroundings *)

Record Ros2RangeFinder := {
  mIsEnabled : bool;
  mAlwaysOn : bool;
  mPublishTimestepSyncedMs : Z;
  mImageMessage : Image;
  mCameraInfoMessage : CameraInfo;
  mPointCloudMessage : PointCloud2
}.

(** What the plugin does to its collaborators: commands to the device and
    messages handed to the three publishers. *)
Inductive event :=
| Enable (samplingPeriod : Z)
| Disable
| PublishImage (m : Image)
| PublishCameraInfo (m : CameraInfo)
| PublishPointCloud (m : PointCloud2).

(** The device's sampling state and everything done so far, oldest first. *)
Record World := {
  sensorEnabled : bool;
  trace : list event
}.

Definition emit (e : event) (w : World) : World :=
  {| sensorEnabled := sensorEnabled w; trace := trace w ++ [e] |}.

(** [mRangeFinder->enable(period)] and [mRangeFinder->disable()]. *)
Definition enable (period : Z) (w : World) : World :=
  {| sensorEnabled := true; trace := trace w ++ [Enable period] |}.
Definition disable (w : World) : World :=
  {| sensorEnabled := false; trace := trace w ++ [Disable] |}.

(** What [init] reads from the node, the parameters and the device. *)
Record Config := {
  cfg_frameName : string;
  cfg_alwaysOn : bool;
  cfg_publishTimestepSyncedMs : Z;
  cfg_width : Z;
  cfg_height : Z;
  cfg_fov : F64.t;
  cfg_now : Z
}.

(** What one call of [step] reads from its surroundings: the verdict of
    [Ros2SensorPlugin::preStep], the buffer [getRangeImage] returns during
    this call ([None] for a null pointer), the clock at the two
    publications, and the subscription count of the image publisher. *)
Record Tick := {
  preStep : bool;
  rangeImage : option (list byte);
  now_image : Z;
  now_cloud : Z;
  subscription_count : N
}.

Definition with_IsEnabled (st : Ros2RangeFinder) (b : bool) : Ros2RangeFinder :=
  {| mIsEnabled := b;
     mAlwaysOn := mAlwaysOn st;
     mPublishTimestepSyncedMs := mPublishTimestepSyncedMs st;
     mImageMessage := mImageMessage st;
     mCameraInfoMessage := mCameraInfoMessage st;
     mPointCloudMessage := mPointCloudMessage st |}.

Definition with_ImageMessage (st : Ros2RangeFinder) (m : Image) : Ros2RangeFinder :=
  {| mIsEnabled := mIsEnabled st;
     mAlwaysOn := mAlwaysOn st;
     mPublishTimestepSyncedMs := mPublishTimestepSyncedMs st;
     mImageMessage := m;
     mCameraInfoMessage := mCameraInfoMessage st;
     mPointCloudMessage := mPointCloudMessage st |}.

Definition with_PointCloudMessage (st : Ros2RangeFinder) (m : PointCloud2)
  : Ros2RangeFinder :=
  {| mIsEnabled := mIsEnabled st;
     mAlwaysOn := mAlwaysOn st;
     mPublishTimestepSyncedMs := mPublishTimestepSyncedMs st;
     mImageMessage := mImageMessage st;
     mCameraInfoMessage := mCameraInfoMessage st;
     mPointCloudMessage := m |}.

Definition image_with (m : Image) (stamp : Z) (data : list byte) : Image :=
  {| img_stamp := stamp;
     img_frame_id := img_frame_id m;
     img_height := img_height m;
     img_width := img_width m;
     img_encoding := img_encoding m;
     img_is_bigendian := img_is_bigendian m;
     img_step := img_step m;
     img_data := data |}.

Definition cloud_with (m : PointCloud2) (stamp : Z) (data : list byte) : PointCloud2 :=
  {| pc_stamp := stamp;
     pc_frame_id := pc_frame_id m;
     pc_height := pc_height m;
     pc_width := pc_width m;
     pc_fields := pc_fields m;
     pc_is_bigendian := pc_is_bigendian m;
     pc_point_step := pc_point_step m;
     pc_row_step := pc_row_step m;
     pc_data := data |}.

(** [a[k]] for the 9-element [std::array<double, 9>] of the camera info. *)
Definition at_k (a : list F64.t) (k : nat) : F64.t := nth k a F64.zero.

(** ** The plugin *)

Section Plugin.

(** [tan] of the C library on finite non-zero arguments.  The library is
    not part of the repository: its values are left open. *)
Variable tan_finite : F64.t -> F64.t.

(** [tan] of [<math.h>]: a zero is returned unchanged and an infinity or
    a NaN gives a NaN (ISO C, Annex F.10.1.7). *)
Definition tan (x : F64.t) : F64.t :=
  match x with
  | S754_zero s => S754_zero s
  | S754_finite _ _ _ => tan_finite x
  | _ => S754_nan
  end.

(** [0.5 * dim * (1 / tan(0.5 * fov))], lines 54 and 55. *)
Definition focalLength (dim : Z) (fov : F64.t) : F64.t :=
  F64.mul (F64.mul F64.half (F64.of_int dim))
          (F64.div F64.one (tan (F64.mul F64.half fov))).

(** [(double)dim / 2], lines 59 to 64. *)
Definition principalPoint (dim : Z) : F64.t :=
  F64.div (F64.of_int dim) F64.two.

(** Lines 49 to 65 of [init]: the camera info message. *)
Definition init_cameraInfo (cfg : Config) : CameraInfo :=
  let width := cfg_width cfg in
  let height := cfg_height cfg in
  let focalLengthX := focalLength width (cfg_fov cfg) in
  let focalLengthY := focalLength height (cfg_fov cfg) in
  {| ci_stamp := cfg_now cfg;
     ci_frame_id := cfg_frameName cfg;
     ci_height := Int.to_uint32 height;
     ci_width := Int.to_uint32 width;
     ci_distortion_model := "plumb_bob"%string;
     ci_d := [F64.zero; F64.zero; F64.zero; F64.zero; F64.zero];
     ci_k := [focalLengthX; F64.zero; principalPoint width;
              F64.zero; focalLengthY; principalPoint height;
              F64.zero; F64.zero; F64.one];
     ci_r := [F64.one; F64.zero; F64.zero;
              F64.zero; F64.one; F64.zero;
              F64.zero; F64.zero; F64.one];
     ci_p := [focalLengthX; F64.zero; principalPoint width; F64.zero;
              F64.zero; focalLengthY; principalPoint height; F64.zero;
              F64.zero; F64.zero; F64.one; F64.zero] |}.

Definition point_field (name : string) (offset : Z) : PointField :=
  {| pf_name := name; pf_offset := offset; pf_datatype := FLOAT32; pf_count := 1 |}.

(** Lines 35 to 41 of [init]: the image message around its buffer. *)
Definition init_image (cfg : Config) (data : list byte) : Image :=
  {| img_stamp := 0;
     img_frame_id := cfg_frameName cfg;
     img_height := Int.to_uint32 (cfg_height cfg);
     img_width := Int.to_uint32 (cfg_width cfg);
     img_encoding := TYPE_32FC1;
     img_is_bigendian := false;
     img_step :=
       Int.to_uint32 (Int.size_mul (Int.size_mul 1 4) (Int.to_size_t (cfg_width cfg)));
     img_data := data |}.

(** Lines 70 to 88 of [init]: the point cloud message around its buffer. *)
Definition init_cloud (cfg : Config) (rowStep : Z) (data : list byte) : PointCloud2 :=
  {| pc_stamp := 0;
     pc_frame_id := cfg_frameName cfg;
     pc_height := Int.to_uint32 (cfg_height cfg);
     pc_width := Int.to_uint32 (cfg_width cfg);
     pc_fields := [point_field "x"%string 0; point_field "y"%string 4;
                   point_field "z"%string 8];
     pc_is_bigendian := false;
     pc_point_step := 12;
     pc_row_step := Int.to_uint32 rowStep;
     pc_data := data |}.

(** [Ros2RangeFinder::init].  [getWidth()] and [getHeight()] return
    [int]s. *)
Definition init (cfg : Config) (w : World) : option (Ros2RangeFinder * World) :=
  width <- Int.checked (cfg_width cfg) ;;
  height <- Int.checked (cfg_height cfg) ;;
  (* Image publisher *)
  w4 <- Int.mul 4 width ;;
  imageSize <- Int.mul w4 height ;;
  imageData <- resize imageSize ;;
  let image := init_image cfg imageData in
  (* CameraInfo publisher *)
  let cameraInfo := init_cameraInfo cfg in
  let w := emit (PublishCameraInfo cameraInfo) w in
  (* Point cloud publisher *)
  rowStep <- Int.mul width 12 ;;
  cloudSize <- Int.mul rowStep height ;;
  cloudData <- resize cloudSize ;;
  let cloud := init_cloud cfg rowStep cloudData in
  let st :=
    {| mIsEnabled := false;
       mAlwaysOn := cfg_alwaysOn cfg;
       mPublishTimestepSyncedMs := cfg_publishTimestepSyncedMs cfg;
       mImageMessage := image;
       mCameraInfoMessage := cameraInfo;
       mPointCloudMessage := cloud |} in
  if mAlwaysOn st
  then Some (with_IsEnabled st true, enable (mPublishTimestepSyncedMs st) w)
  else Some (st, w).

(** [Ros2RangeFinder::publishImage]. *)
Definition publishImage (st : Ros2RangeFinder) (image : option (list byte))
  (now : Z) (w : World) : option (Ros2RangeFinder * World) :=
  match image with
  | Some image =>
      data <- memcpy_all (img_data (mImageMessage st)) image ;;
      let m := image_with (mImageMessage st) now data in
      Some (with_ImageMessage st m, emit (PublishImage m) w)
  | None => Some (st, w)
  end.

(** The body of the inner loop of [publishPointCloud], lines 156 to 162. *)
Definition project_pixel (image : list byte) (width : Z) (cx cy fx fy : F32.t)
  (j i : Z) (data : list byte) : option (list byte) :=
  jw <- Int.mul j width ;;
  idx <- Int.add i jw ;;
  x <- load_f32 image idx ;;
  let y := F32.div (F32.mul (F32.neg (F32.sub (F32.of_int i) cx)) (F32.of_bits x)) fx in
  let z := F32.div (F32.mul (F32.neg (F32.sub (F32.of_int j) cy)) (F32.of_bits x)) fy in
  idx3 <- Int.mul idx 3 ;;
  data <- store_f32 data idx3 x ;;
  data <- store_f32 data (idx3 + 1) (F32.to_bits y) ;;
  store_f32 data (idx3 + 2) (F32.to_bits z).

(** The two nested loops of [publishPointCloud], lines 152 to 164. *)
Definition project (image : list byte) (width height : Z) (cx cy fx fy : F32.t)
  (data : list byte) : option (list byte) :=
  for_loop (Z.to_nat height) 0
    (fun j data =>
       for_loop (Z.to_nat width) 0 (project_pixel image width cx cy fx fy j) data)
    data.

(** [Ros2RangeFinder::publishPointCloud]. *)
Definition publishPointCloud (st : Ros2RangeFinder) (image : option (list byte))
  (now : Z) (w : World) : option (Ros2RangeFinder * World) :=
  match image with
  | Some image =>
      let width := Int.of_uint32 (ci_width (mCameraInfoMessage st)) in
      let height := Int.of_uint32 (ci_height (mCameraInfoMessage st)) in
      let cx := F32.of_f64 (at_k (ci_k (mCameraInfoMessage st)) 2) in
      let cy := F32.of_f64 (at_k (ci_k (mCameraInfoMessage st)) 5) in
      let fx := F32.of_f64 (at_k (ci_k (mCameraInfoMessage st)) 0) in
      let fy := F32.of_f64 (at_k (ci_k (mCameraInfoMessage st)) 4) in
      data <- project image width height cx cy fx fy
                (pc_data (mPointCloudMessage st)) ;;
      let m := cloud_with (mPointCloudMessage st) now data in
      Some (with_PointCloudMessage st m, emit (PublishPointCloud m) w)
  | None => Some (st, w)
  end.

(** Lines 110 to 119 of [step]: enable or disable the sensor. *)
Definition toggle (st : Ros2RangeFinder) (count : N) (w : World)
  : Ros2RangeFinder * World :=
  let shouldBeEnabled := (0 <? count)%N in
  if negb (Bool.eqb shouldBeEnabled (mIsEnabled st))
  then
    (with_IsEnabled st shouldBeEnabled,
     if shouldBeEnabled then enable (mPublishTimestepSyncedMs st) w else disable w)
  else (st, w).

(** Lines 102 to 105 of [step]: publish when the sensor is enabled. *)
Definition publish_if_enabled (st : Ros2RangeFinder) (tk : Tick) (w : World)
  : option (Ros2RangeFinder * World) :=
  if mIsEnabled st
  then '(st, w) <- publishImage st (rangeImage tk) (now_image tk) w ;;
       publishPointCloud st (rangeImage tk) (now_cloud tk) w
  else Some (st, w).

(** [Ros2RangeFinder::step]. *)
Definition step (st : Ros2RangeFinder) (tk : Tick) (w : World)
  : option (Ros2RangeFinder * World) :=
  if negb (preStep tk) then Some (st, w)
  else
    '(st, w) <- publish_if_enabled st tk w ;;
    if mAlwaysOn st then Some (st, w)
    else Some (toggle st (subscription_count tk) w).

(** [step] called once per tick of the host, in order. *)
Fixpoint run (st : Ros2RangeFinder) (tks : list Tick) (w : World)
  : option (Ros2RangeFinder * World) :=
  match tks with
  | [] => Some (st, w)
  | tk :: tks => '(st, w) <- step st tk w ;; run st tks w
  end.

(** What [init] fixes for the life of the plugin: the geometry is that of
    the device and fits [int] arithmetic, the calibration is the derived
    one, both buffers have their sizes, and the messages keep every field
    but stamp and data. *)
Definition consistent (cfg : Config) (st : Ros2RangeFinder) : Prop :=
  let width := cfg_width cfg in
  let height := cfg_height cfg in
  Int.INT_MIN <= width <= Int.INT_MAX /\
  Int.INT_MIN <= height <= Int.INT_MAX /\
  Int.INT_MIN <= 12 * width <= Int.INT_MAX /\
  0 <= 12 * width * height <= Int.INT_MAX /\
  mAlwaysOn st = cfg_alwaysOn cfg /\
  mPublishTimestepSyncedMs st = cfg_publishTimestepSyncedMs cfg /\
  mCameraInfoMessage st = init_cameraInfo cfg /\
  image_with (mImageMessage st) 0 [] = init_image cfg [] /\
  cloud_with (mPointCloudMessage st) 0 [] = init_cloud cfg (width * 12) [] /\
  len (img_data (mImageMessage st)) = 4 * width * height /\
  len (pc_data (mPointCloudMessage st)) = 12 * width * height.

(** A tick whose range image, when there is one, has the device's size. *)
Definition tick_ok (cfg : Config) (tk : Tick) : Prop :=
  match rangeImage tk with
  | Some image => len image = 4 * cfg_width cfg * cfg_height cfg
  | None => True
  end.

(** The device before the plugin is created: not sampling, nothing done. *)
Definition power_on : World := {| sensorEnabled := false; trace := [] |}.

(** The states the plugin goes through: [init] on a fresh device, then
    any number of calls of [step]. *)
Inductive reachable (cfg : Config) : Ros2RangeFinder -> World -> Prop :=
| reach_init st w :
    init cfg power_on = Some (st, w) -> reachable cfg st w
| reach_step st w tk st' w' :
    reachable cfg st w -> step st tk w = Some (st', w') -> reachable cfg st' w'.

End Plugin.

(** ** Reading a trace *)

Inductive kind := KEnable | KDisable | KImage | KCameraInfo | KPointCloud.

Definition kind_of (e : event) : kind :=
  match e with
  | Enable _ => KEnable
  | Disable => KDisable
  | PublishImage _ => KImage
  | PublishCameraInfo _ => KCameraInfo
  | PublishPointCloud _ => KPointCloud
  end.

Definition is_command (e : event) : bool :=
  match e with
  | Enable _ | Disable => true
  | _ => false
  end.

(** The commands sent to the device, and the frames (depth images and point
    clouds) handed to the publishers. *)
Definition commands (evs : list event) : list event := filter is_command evs.

Definition is_frame (e : event) : bool :=
  match e with
  | PublishImage _ | PublishPointCloud _ => true
  | _ => false
  end.

Definition frames (evs : list event) : list event := filter is_frame evs.

(** The command a change of the enabled flag comes with. *)
Definition edge (period : Z) (before after : bool) : list event :=
  match before, after with
  | false, true => [Enable period]
  | true, false => [Disable]
  | _, _ => []
  end.

(** The commands a sequence of subscription counts brings about, from a
    given enabled flag, when every tick passes [preStep]. *)
Fixpoint edges (period : Z) (enabled : bool) (counts : list N) : list event :=
  match counts with
  | [] => []
  | c :: counts => edge period enabled (0 <? c)%N ++ edges period (0 <? c)%N counts
  end.

(** [getRangeImage] returned a buffer during this tick. *)
Definition available (tk : Tick) : bool :=
  match rangeImage tk with
  | Some _ => true
  | None => false
  end.

(** The point of pixel [(i, j)] stands in [data] at point index
    [i + j * width]: the range read from [image], then the two lateral
    offsets computed from it in single precision. *)
Definition pixel_done (image : list byte) (width : Z) (cx cy fx fy : F32.t)
  (data : list byte) (i j : Z) : Prop :=
  exists x,
    load_f32 image (i + j * width) = Some x /\
    load_f32 data (3 * (i + j * width)) = Some x /\
    load_f32 data (3 * (i + j * width) + 1) =
      Some (F32.to_bits
              (F32.div (F32.mul (F32.neg (F32.sub (F32.of_int i) cx)) (F32.of_bits x)) fx)) /\
    load_f32 data (3 * (i + j * width) + 2) =
      Some (F32.to_bits
              (F32.div (F32.mul (F32.neg (F32.sub (F32.of_int j) cy)) (F32.of_bits x)) fy)).

(** The finite value [x] is the rational [num / den], with no rounding. *)
Definition exactly (x : spec_float) (num den : Z) : Prop :=
  match x with
  | S754_zero _ => num = 0
  | S754_finite s m e =>
      if 0 <=? e
      then cond_Zopp s (Z.pos m) * 2 ^ e * den = num
      else cond_Zopp s (Z.pos m) * den = num * 2 ^ (- e)
  | _ => False
  end.

(** A normal [double] of magnitude between [2^-948] and [2^953]: scaling it
    by a number below [2^31] neither overflows nor underflows. *)
Definition moderate (x : F64.t) : Prop :=
  match x with
  | S754_finite _ m e => Z.pos (digits2_pos m) = 53 /\ -1000 <= e <= 900
  | _ => False
  end.

(** ** A small device, for examples *)

(** The [double] nearest to pi / 2, [0x3FF921FB54442D18]. *)
Definition fov_half_pi : F64.t := S754_finite false 7074237752028440 (-52).

(** The smallest positive [double], [2^-1074]. *)
Definition fov_tiny : F64.t := S754_finite false 1 (-1074).

(** The [double] nearest to pi, [0x400921FB54442D18]. *)
Definition F64_pi : F64.t := S754_finite false 7074237752028440 (-51).

(** A stand-in for the C library where the tangent of the half angle is 1,
    as it is for a field of view of pi / 2. *)
Definition tan_one : F64.t -> F64.t := fun _ => F64.one.

(** The largest [double] below 1, [1 - 2^-53] ([0x3FEFFFFFFFFFFFFF]); the
    smallest above 1, [1 + 2^-52]; and half of the latter, [0.5 + 2^-53]. *)
Definition F64_below_one : F64.t := S754_finite false 9007199254740991 (-53).
Definition F64_above_one : F64.t := S754_finite false 4503599627370497 (-52).
Definition F64_above_half : F64.t := S754_finite false 4503599627370497 (-53).

(** A stand-in for the C library at the double nearest to pi / 4, half of
    [fov_half_pi].  That double is below pi / 4 and its tangent lies between
    [1 - 2^-53] and 1, nearer to the former, which is what a correctly
    rounding [tan] returns there. *)
Definition tan_quarter_pi : F64.t -> F64.t := fun _ => F64_below_one.

(** Two pixels wide, one pixel high. *)
Definition sample_cfg (alwaysOn : bool) (fov : F64.t) : Config :=
  {| cfg_frameName := "range_finder"%string;
     cfg_alwaysOn := alwaysOn;
     cfg_publishTimestepSyncedMs := 32;
     cfg_width := 2;
     cfg_height := 1;
     cfg_fov := fov;
     cfg_now := 0 |}.

(** [2.0f] is [0x40000000]; the raw buffer [[2.0, 2.0]]. *)
Definition sample_raw : list byte := encode_f32 [1073741824; 1073741824].

Definition sample_tick (image : option (list byte)) (count : N) : Tick :=
  {| preStep := true;
     rangeImage := image;
     now_image := 1;
     now_cloud := 2;
     subscription_count := count |}.

(** ** Further readings of a trace and of a buffer *)

Definition is_camera_info (e : event) : bool :=
  match e with
  | PublishCameraInfo _ => true
  | _ => false
  end.

(** [n] commands that alternate, starting with the one that leaves the
    state [enabled]. *)
Fixpoint alternating (period : Z) (enabled : bool) (n : nat) : list event :=
  match n with
  | O => []
  | S n => (if enabled then Disable else Enable period)
           :: alternating period (negb enabled) n
  end.

(** The frames of a trace come in pairs, a depth image then a point cloud,
    each pair related by [P]. *)
Fixpoint paired (P : Image -> PointCloud2 -> Prop) (evs : list event) : Prop :=
  match evs with
  | [] => True
  | PublishImage m :: PublishPointCloud c :: evs => P m c /\ paired P evs
  | _ => False
  end.

(** A depth image and a point cloud of one frame: both carry what [init]
    set, both buffers are full, and every point of the cloud is the
    projection of the pixel of the image. *)
Definition same_frame (tan_finite : F64.t -> F64.t) (cfg : Config)
  (m : Image) (c : PointCloud2) : Prop :=
  let width := cfg_width cfg in
  let height := cfg_height cfg in
  image_with m 0 [] = init_image cfg [] /\
  cloud_with c 0 [] = init_cloud cfg (width * 12) [] /\
  len (img_data m) = 4 * width * height /\
  len (pc_data c) = 12 * width * height /\
  forall i j, 0 <= i < width -> 0 <= j < height ->
    pixel_done (img_data m) width
      (F32.of_f64 (principalPoint width)) (F32.of_f64 (principalPoint height))
      (F32.of_f64 (focalLength tan_finite width (cfg_fov cfg)))
      (F32.of_f64 (focalLength tan_finite height (cfg_fov cfg)))
      (pc_data c) i j.

(** Float cell [k] of the cloud as a function of the raw image: component
    [k mod 3] of the point of the pixel of index [k / 3]. *)
Definition cloud_cell (image : list byte) (width : Z) (cx cy fx fy : F32.t) (k : Z) : Z :=
  let idx := k / 3 in
  let i := idx mod width in
  let j := idx / width in
  match load_f32 image idx with
  | Some x =>
      if k mod 3 =? 0 then x
      else if k mod 3 =? 1 then
        F32.to_bits (F32.div (F32.mul (F32.neg (F32.sub (F32.of_int i) cx)) (F32.of_bits x)) fx)
      else
        F32.to_bits (F32.div (F32.mul (F32.neg (F32.sub (F32.of_int j) cy)) (F32.of_bits x)) fy)
  | None => 0
  end.

(** The whole cloud buffer, cell by cell. *)
Definition cloud_of (image : list byte) (width height : Z) (cx cy fx fy : F32.t)
  : list byte :=
  encode_f32 (map (fun k => cloud_cell image width cx cy fx fy (Z.of_nat k))
                  (seq 0 (Z.to_nat (3 * width * height)))).

(** ** Classes of floating-point values *)

(** Classes of floating-point values: [isnan], [isinf], and [isfinite]
    split into zeros and the other numbers. *)
Definition is_nan (x : spec_float) : bool :=
  match x with
  | S754_nan => true
  | _ => false
  end.

Definition is_infinity (x : spec_float) : bool :=
  match x with
  | S754_infinity _ => true
  | _ => false
  end.

Definition is_zero (x : spec_float) : bool :=
  match x with
  | S754_zero _ => true
  | _ => false
  end.

Definition is_finite (x : spec_float) : bool :=
  match x with
  | S754_zero _ | S754_finite _ _ _ => true
  | _ => false
  end.

(** [signbit] of [<math.h>] (false for the one NaN of the model). *)
Definition signbit (x : spec_float) : bool :=
  match x with
  | S754_zero s | S754_infinity s | S754_finite s _ _ => s
  | S754_nan => false
  end.

(** A normal [double] of magnitude between [2^-124] and [2^96]: scaled by
    half a dimension below [2^31] it is a normal [float]. *)
Definition single_range (x : F64.t) : Prop :=
  match x with
  | S754_finite _ m e => Z.pos (digits2_pos m) = 53 /\ -176 <= e <= 43
  | _ => False
  end.

(** [+infinity] is [0x7F800000]; a quiet NaN with a payload is
    [0x7FC00001]. *)
Definition raw_infinite : list byte := encode_f32 [2139095040; 2139095040].
Definition raw_nan : list byte := encode_f32 [2143289345; 1073741824].

(** * Proofs *)

(** ** Byte buffers *)

Section Splice.
Context {A : Type}.

Lemma nth_error_window (l : list A) (a n i : nat) :
  nth_error (firstn n (skipn a l)) i =
  if (i <? n)%nat then nth_error l (a + i) else None.
Proof.
  destruct (Nat.ltb_spec i n) as [Hlt | Hge].
  - rewrite nth_error_firstn.
    destruct (Nat.ltb_spec i n); [| lia].
    now rewrite nth_error_skipn.
  - apply nth_error_None. rewrite length_firstn. lia.
Qed.

Lemma nth_error_splice_outside (m s : list A) (a p : nat) :
  (a + length s <= length m)%nat ->
  (p < a \/ a + length s <= p)%nat ->
  nth_error (splice m s a) p = nth_error m p.
Proof.
  intros Hin Hp. unfold splice.
  assert (Hl : length (firstn a m) = a) by (rewrite length_firstn; lia).
  destruct Hp as [Hp | Hp].
  - rewrite nth_error_app1 by lia.
    rewrite nth_error_firstn.
    destruct (Nat.ltb_spec p a); [reflexivity | lia].
  - rewrite nth_error_app2 by lia.
    rewrite nth_error_app2 by lia.
    rewrite nth_error_skipn. f_equal. lia.
Qed.

Lemma nth_error_splice_inside (m s : list A) (a i : nat) :
  (a + length s <= length m)%nat ->
  (i < length s)%nat ->
  nth_error (splice m s a) (a + i) = nth_error s i.
Proof.
  intros Hin Hi. unfold splice.
  assert (Hl : length (firstn a m) = a) by (rewrite length_firstn; lia).
  rewrite nth_error_app2 by lia.
  rewrite nth_error_app1 by lia.
  f_equal. lia.
Qed.

Lemma length_splice (m s : list A) (a : nat) :
  (a + length s <= length m)%nat -> length (splice m s a) = length m.
Proof.
  intros Hin. unfold splice.
  rewrite !length_app, length_firstn, length_skipn. lia.
Qed.

Lemma window_splice_same (m s : list A) (a : nat) :
  (a + length s <= length m)%nat ->
  firstn (length s) (skipn a (splice m s a)) = s.
Proof.
  intros Hin. apply nth_error_ext. intros i.
  rewrite nth_error_window.
  destruct (Nat.ltb_spec i (length s)) as [Hlt | Hge].
  - now apply nth_error_splice_inside.
  - symmetry. now apply nth_error_None.
Qed.

Lemma window_splice_other (m s : list A) (a a' n : nat) :
  (a + length s <= length m)%nat ->
  (a' + n <= a \/ a + length s <= a')%nat ->
  firstn n (skipn a' (splice m s a)) = firstn n (skipn a' m).
Proof.
  intros Hin Hd. apply nth_error_ext. intros i.
  rewrite !nth_error_window.
  destruct (Nat.ltb_spec i n) as [Hlt | Hge]; [| reflexivity].
  apply nth_error_splice_outside; lia.
Qed.
End Splice.

Lemma store_f32_splice (m : list byte) (k bits : Z) (m' : list byte) :
  store_f32 m k bits = Some m' ->
  0 <= k /\ 4 * k + 4 <= len m /\ m' = splice m (le_split 4 bits) (Z.to_nat (4 * k)).
Proof.
  unfold store_f32.
  destruct (Z.leb_spec 0 k); destruct (Z.leb_spec (4 * k + 4) (len m));
    cbn [andb]; try discriminate.
  intros [= <-]. repeat split; assumption.
Qed.

Lemma store_f32_defined (m : list byte) (k bits : Z) :
  0 <= k -> 4 * k + 4 <= len m -> exists m', store_f32 m k bits = Some m'.
Proof.
  intros H0 H1. unfold store_f32.
  destruct (Z.leb_spec 0 k); [| lia].
  destruct (Z.leb_spec (4 * k + 4) (len m)); [| lia].
  cbn [andb]. eauto.
Qed.

Lemma load_f32_defined (m : list byte) (k : Z) :
  0 <= k -> 4 * k + 4 <= len m -> exists x, load_f32 m k = Some x.
Proof.
  intros H0 H1. unfold load_f32.
  destruct (Z.leb_spec 0 k); [| lia].
  destruct (Z.leb_spec (4 * k + 4) (len m)); [| lia].
  cbn [andb]. eauto.
Qed.

Lemma load_f32_range (m : list byte) (k x : Z) :
  load_f32 m k = Some x -> 0 <= x < 2 ^ 32.
Proof.
  unfold load_f32.
  destruct (Z.leb_spec 0 k); destruct (Z.leb_spec (4 * k + 4) (len m));
    cbn [andb]; try discriminate.
  intros [= <-].
  pose proof (le_combine_bound (firstn 4 (skipn (Z.to_nat (4 * k)) m))) as Hb.
  rewrite length_firstn, length_skipn in Hb.
  unfold len in *.
  replace (Init.Nat.min 4 (length m - Z.to_nat (4 * k)))%nat with 4%nat in Hb by lia.
  exact Hb.
Qed.

Lemma store_f32_len (m : list byte) (k bits : Z) (m' : list byte) :
  store_f32 m k bits = Some m' -> len m' = len m.
Proof.
  intros H. apply store_f32_splice in H as (H0 & H1 & ->).
  unfold len in *. rewrite length_splice; [reflexivity |].
  rewrite length_le_split. lia.
Qed.

Lemma load_store_same (m : list byte) (k bits : Z) (m' : list byte) :
  store_f32 m k bits = Some m' -> load_f32 m' k = Some (bits mod 2 ^ 32).
Proof.
  intros H. pose proof (store_f32_len _ _ _ _ H) as Hl.
  apply store_f32_splice in H as (H0 & H1 & ->).
  unfold load_f32. rewrite Hl.
  destruct (Z.leb_spec 0 k); [| lia].
  destruct (Z.leb_spec (4 * k + 4) (len m)); [| lia].
  cbn [andb]. f_equal.
  change 4%nat with (length (le_split 4 bits)) at 1.
  rewrite window_splice_same.
  - now rewrite le_combine_split.
  - rewrite length_le_split. unfold len in *. lia.
Qed.

Lemma load_store_other (m : list byte) (k k' bits : Z) (m' : list byte) :
  store_f32 m k bits = Some m' -> k' <> k -> load_f32 m' k' = load_f32 m k'.
Proof.
  intros H Hne. pose proof (store_f32_len _ _ _ _ H) as Hl.
  apply store_f32_splice in H as (H0 & H1 & ->).
  unfold load_f32. rewrite Hl.
  destruct (Z.leb_spec 0 k'); destruct (Z.leb_spec (4 * k' + 4) (len m));
    cbn [andb]; try reflexivity.
  do 2 f_equal.
  apply window_splice_other; rewrite length_le_split; unfold len in *; lia.
Qed.

(** ** Checked arithmetic and [init] *)

Lemma bind_Some {A B} (c : option A) (k : A -> option B) (b : B) :
  bind c k = Some b -> exists a, c = Some a /\ k a = Some b.
Proof. destruct c as [a |]; cbn; [eauto | discriminate]. Qed.

Lemma checked_Some (z r : Z) :
  Int.checked z = Some r -> r = z /\ Int.INT_MIN <= z <= Int.INT_MAX.
Proof.
  unfold Int.checked, Int.in_range.
  destruct (Z.leb_spec Int.INT_MIN z); destruct (Z.leb_spec z Int.INT_MAX);
    cbn [andb]; try discriminate.
  intros [= <-]. lia.
Qed.

Lemma checked_in_range (z : Z) :
  Int.INT_MIN <= z <= Int.INT_MAX -> Int.checked z = Some z.
Proof.
  intros H. unfold Int.checked, Int.in_range.
  destruct (Z.leb_spec Int.INT_MIN z); [| lia].
  destruct (Z.leb_spec z Int.INT_MAX); [| lia].
  reflexivity.
Qed.

Lemma resize_Some (n : Z) (data : list byte) :
  resize n = Some data -> 0 <= n /\ len data = n /\ data = repeat Byte.x00 (Z.to_nat n).
Proof.
  unfold resize. destruct (Z.ltb_spec n 0); [discriminate |].
  intros [= <-]. unfold len. rewrite repeat_length. repeat split; lia.
Qed.

Lemma uint32_roundtrip (z : Z) :
  Int.INT_MIN <= z <= Int.INT_MAX -> Int.of_uint32 (Int.to_uint32 z) = z.
Proof.
  unfold Int.INT_MIN, Int.INT_MAX, Int.of_uint32, Int.to_uint32. intros H.
  destruct (Z.ltb_spec (z mod 2 ^ 32) (2 ^ 31)) as [Hlt | Hge].
  - destruct (Z.ltb_spec z 0).
    + rewrite <- (Z.mod_add z 1) in Hlt by lia. rewrite Z.mod_small in Hlt; lia.
    + rewrite Z.mod_small; lia.
  - destruct (Z.ltb_spec z 0).
    + rewrite <- (Z.mod_add z 1) by lia. rewrite Z.mod_small; lia.
    + rewrite Z.mod_small in Hge; lia.
Qed.

Section InitFacts.
Variable tan_finite : F64.t -> F64.t.

Lemma init_Some (cfg : Config) (w0 : World) (st : Ros2RangeFinder) (w : World) :
  init tan_finite cfg w0 = Some (st, w) ->
  consistent tan_finite cfg st /\
  mIsEnabled st = cfg_alwaysOn cfg /\
  sensorEnabled w = (cfg_alwaysOn cfg || sensorEnabled w0) /\
  trace w = trace w0 ++ PublishCameraInfo (init_cameraInfo tan_finite cfg)
              :: (if cfg_alwaysOn cfg
                  then [Enable (cfg_publishTimestepSyncedMs cfg)] else []).
Proof.
  unfold init. intros H.
  apply bind_Some in H as (width & Hw & H). apply checked_Some in Hw as [-> Hw].
  apply bind_Some in H as (height & Hh & H). apply checked_Some in Hh as [-> Hh].
  apply bind_Some in H as (w4 & H4 & H). apply checked_Some in H4 as [-> H4].
  apply bind_Some in H as (n & Hn & H). apply checked_Some in Hn as [-> Hn].
  apply bind_Some in H as (imageData & Hi & H). apply resize_Some in Hi as (Hi0 & Hil & _).
  apply bind_Some in H as (rowStep & Hr & H). apply checked_Some in Hr as [-> Hr].
  apply bind_Some in H as (m & Hm & H). apply checked_Some in Hm as [-> Hm].
  apply bind_Some in H as (cloudData & Hc & H). apply resize_Some in Hc as (Hc0 & Hcl & _).
  cbn [mAlwaysOn mPublishTimestepSyncedMs] in H.
  unfold consistent.
  destruct (cfg_alwaysOn cfg); injection H as <- <-; cbn -[Z.mul Z.add Z.pow];
    rewrite ?Hil, ?Hcl, <- ?app_assoc; cbn -[Z.mul Z.add Z.pow];
    repeat split; try lia; try reflexivity.
Qed.
End InitFacts.

(** ** The projection loops *)

Lemma for_loop_inv {St : Type} (P : Z -> St -> Prop) (body : Z -> St -> option St) :
  forall (n : nat) (i : Z) (s : St),
    P i s ->
    (forall k s, i <= k < i + Z.of_nat n -> P k s ->
                 exists s', body k s = Some s' /\ P (k + 1) s') ->
    exists s', for_loop n i body s = Some s' /\ P (i + Z.of_nat n) s'.
Proof.
  induction n as [| n IH]; intros i s Hs Hbody.
  - exists s. cbn. rewrite Z.add_0_r. auto.
  - cbn [for_loop].
    destruct (Hbody i s ltac:(lia) Hs) as (s1 & -> & H1). cbn [bind].
    destruct (IH (i + 1) s1 H1) as (s' & Hrun & Hs').
    + intros k s0 Hk. apply Hbody. lia.
    + exists s'. split; [exact Hrun |].
      replace (i + Z.of_nat (S n)) with (i + 1 + Z.of_nat n) by lia. exact Hs'.
Qed.

Lemma sign_bit_range (s : bool) : 0 <= F32.sign_bit s <= 2 ^ 31.
Proof. destruct s; cbn; lia. Qed.

Lemma to_bits_range (x : F32.t) : 0 <= F32.to_bits x < 2 ^ 32.
Proof.
  destruct x as [s | s | | s m e]; unfold F32.to_bits.
  - pose proof (sign_bit_range s). lia.
  - pose proof (sign_bit_range s). lia.
  - lia.
  - destruct (Z.ltb_spec (Z.pos m) (2 ^ 23)).
    + pose proof (sign_bit_range s). lia.
    + apply Z.mod_pos_bound. lia.
Qed.

Section Projection.
Variables (image : list byte) (width height : Z) (cx cy fx fy : F32.t).

Local Notation "'pixel_ok'" := (pixel_done image width cx cy fx fy).

Hypothesis Hsize : 0 <= 12 * width * height <= Int.INT_MAX.
Hypothesis Himage : len image = 4 * width * height.

Lemma project_pixel_spec (data : list byte) (i j : Z) :
  len data = 12 * width * height ->
  0 <= i < width -> 0 <= j < height ->
  exists data',
    project_pixel image width cx cy fx fy j i data = Some data' /\
    len data' = len data /\
    pixel_ok data' i j /\
    forall k, k < 3 * (i + j * width) \/ 3 * (i + j * width) + 3 <= k ->
              load_f32 data' k = load_f32 data k.
Proof.
  intros Hlen Hi Hj. unfold project_pixel, Int.mul, Int.add.
  unfold Int.INT_MAX in Hsize.
  assert (Hidx : 0 <= i + j * width < width * height) by nia.
  rewrite checked_in_range by (unfold Int.INT_MIN, Int.INT_MAX; nia). cbn [bind].
  rewrite checked_in_range by (unfold Int.INT_MIN, Int.INT_MAX; nia). cbn [bind].
  destruct (load_f32_defined image (i + j * width)) as (x & Hx); [lia | lia |].
  rewrite Hx. cbn [bind].
  rewrite checked_in_range by (unfold Int.INT_MIN, Int.INT_MAX; nia). cbn [bind].
  set (o := (i + j * width) * 3).
  destruct (store_f32_defined data o x) as (d1 & H1); [lia | lia |].
  rewrite H1. cbn [bind].
  pose proof (store_f32_len _ _ _ _ H1) as L1.
  match goal with
  | |- context [store_f32 d1 (o + 1) ?b] =>
      destruct (store_f32_defined d1 (o + 1) b) as (d2 & H2); [lia | lia |]
  end.
  rewrite H2. cbn [bind].
  pose proof (store_f32_len _ _ _ _ H2) as L2.
  match goal with
  | |- context [store_f32 d2 (o + 2) ?b] =>
      destruct (store_f32_defined d2 (o + 2) b) as (d3 & H3); [lia | lia |]
  end.
  exists d3. split; [exact H3 |].
  pose proof (store_f32_len _ _ _ _ H3) as L3.
  split; [lia |]. split.
  - exists x. split; [exact Hx |].
    replace (3 * (i + j * width)) with o by (unfold o; lia).
    split; [| split].
    + rewrite (load_store_other _ _ _ _ _ H3) by lia.
      rewrite (load_store_other _ _ _ _ _ H2) by lia.
      rewrite (load_store_same _ _ _ _ H1).
      rewrite Z.mod_small; [reflexivity |]. eapply load_f32_range; eassumption.
    + rewrite (load_store_other _ _ _ _ _ H3) by lia.
      rewrite (load_store_same _ _ _ _ H2).
      rewrite Z.mod_small; [reflexivity |]. apply to_bits_range.
    + rewrite (load_store_same _ _ _ _ H3).
      rewrite Z.mod_small; [reflexivity |]. apply to_bits_range.
  - intros k Hk.
    rewrite (load_store_other _ _ _ _ _ H3) by (unfold o; lia).
    rewrite (load_store_other _ _ _ _ _ H2) by (unfold o; lia).
    rewrite (load_store_other _ _ _ _ _ H1) by (unfold o; lia).
    reflexivity.
Qed.

Lemma pixel_done_frame (data data' : list byte) (i j k : Z) :
  (forall c, c < k \/ k + 3 <= c -> load_f32 data' c = load_f32 data c) ->
  3 * (i + j * width) + 3 <= k \/ k + 3 <= 3 * (i + j * width) ->
  pixel_ok data i j -> pixel_ok data' i j.
Proof.
  intros Hframe Hk (x & Hx & H0 & H1 & H2).
  exists x. rewrite !Hframe by lia. auto.
Qed.

Lemma project_row (data : list byte) (j : Z) :
  0 <= j < height ->
  len data = 12 * width * height ->
  (forall i0 j0, 0 <= i0 < width -> 0 <= j0 < j -> pixel_ok data i0 j0) ->
  exists data',
    for_loop (Z.to_nat width) 0 (project_pixel image width cx cy fx fy j) data
      = Some data' /\
    len data' = 12 * width * height /\
    (forall i0 j0, 0 <= i0 < width -> 0 <= j0 < j + 1 -> pixel_ok data' i0 j0).
Proof.
  intros Hj Hlen Hdone.
  destruct (for_loop_inv
              (fun i d => len d = 12 * width * height /\
                          forall i0 j0, 0 <= i0 < width -> 0 <= j0 < height ->
                                        j0 < j \/ (j0 = j /\ i0 < i) -> pixel_ok d i0 j0)
              (project_pixel image width cx cy fx fy j)
              (Z.to_nat width) 0 data) as (data' & Hrun & Hlen' & Hdone').
  - split; [exact Hlen |]. intros i0 j0 Hi0 Hj0 [Hlt | [_ Hlt]]; [| lia].
    apply Hdone; lia.
  - intros i d Hi [Hl Hd].
    destruct (project_pixel_spec d i j Hl ltac:(lia) Hj) as (d' & Hp & Hl' & Hnew & Hframe).
    exists d'. split; [exact Hp |]. split; [lia |].
    intros i0 j0 Hi0 Hj0 Hor.
    destruct (Z.eq_dec j0 j) as [-> | Hne].
    + destruct (Z.eq_dec i0 i) as [-> | Hne']; [exact Hnew |].
      apply (pixel_done_frame d d' i0 j (3 * (i + j * width))).
      * intros c Hc. apply Hframe. lia.
      * lia.
      * apply Hd; lia.
    + apply (pixel_done_frame d d' i0 j0 (3 * (i + j * width))).
      * intros c Hc. apply Hframe. lia.
      * nia.
      * apply Hd; lia.
  - exists data'. split; [exact Hrun |]. split; [exact Hlen' |].
    intros i0 j0 Hi0 Hj0. apply Hdone'; lia.
Qed.

Lemma project_spec (data : list byte) :
  len data = 12 * width * height ->
  exists data',
    project image width height cx cy fx fy data = Some data' /\
    len data' = 12 * width * height /\
    (forall i j, 0 <= i < width -> 0 <= j < height -> pixel_ok data' i j).
Proof.
  intros Hlen. unfold project.
  destruct (for_loop_inv
              (fun j d => len d = 12 * width * height /\
                          forall i0 j0, 0 <= i0 < width -> 0 <= j0 < j -> pixel_ok d i0 j0)
              (fun j d => for_loop (Z.to_nat width) 0
                            (project_pixel image width cx cy fx fy j) d)
              (Z.to_nat height) 0 data) as (data' & Hrun & Hlen' & Hdone').
  - split; [exact Hlen |]. intros; lia.
  - intros j d Hj [Hl Hd].
    destruct (project_row d j ltac:(lia) Hl Hd) as (d' & Hr & Hl' & Hd').
    exists d'. auto.
  - exists data'. split; [exact Hrun |]. split; [exact Hlen' |].
    intros i j Hi Hj. apply Hdone'; lia.
Qed.
End Projection.

(** ** Publishing *)

Lemma memcpy_all_same_size (dst src : list byte) :
  len dst = len src -> memcpy_all dst src = Some src.
Proof.
  intros H. unfold memcpy_all. rewrite H, Z.leb_refl. f_equal.
  apply firstn_all2. unfold len in H. lia.
Qed.

Lemma commands_app (l l' : list event) : commands (l ++ l') = commands l ++ commands l'.
Proof. apply filter_app. Qed.

Lemma frames_app (l l' : list event) : frames (l ++ l') = frames l ++ frames l'.
Proof. apply filter_app. Qed.

Section PublishFacts.
Variable tan_finite : F64.t -> F64.t.
Variable cfg : Config.

Let width := cfg_width cfg.
Let height := cfg_height cfg.
Let cx := F32.of_f64 (principalPoint width).
Let cy := F32.of_f64 (principalPoint height).
Let fx := F32.of_f64 (focalLength tan_finite width (cfg_fov cfg)).
Let fy := F32.of_f64 (focalLength tan_finite height (cfg_fov cfg)).

Lemma consistent_image (st : Ros2RangeFinder) (now : Z) (data : list byte) :
  consistent tan_finite cfg st ->
  len data = 4 * width * height ->
  consistent tan_finite cfg (with_ImageMessage st (image_with (mImageMessage st) now data)).
Proof.
  unfold consistent. intros (Hw & Hh & Hr & Hs & Ha & Hp & Hc & Hi & Hpc & Hil & Hcl) Hd.
  cbn -[Z.mul]. repeat split; try assumption; lia.
Qed.

Lemma consistent_cloud (st : Ros2RangeFinder) (now : Z) (data : list byte) :
  consistent tan_finite cfg st ->
  len data = 12 * width * height ->
  consistent tan_finite cfg
    (with_PointCloudMessage st (cloud_with (mPointCloudMessage st) now data)).
Proof.
  unfold consistent. intros (Hw & Hh & Hr & Hs & Ha & Hp & Hc & Hi & Hpc & Hil & Hcl) Hd.
  cbn -[Z.mul]. repeat split; try assumption; lia.
Qed.

Lemma consistent_flag (st : Ros2RangeFinder) (b : bool) :
  consistent tan_finite cfg st -> consistent tan_finite cfg (with_IsEnabled st b).
Proof. unfold consistent. cbn -[Z.mul]. tauto. Qed.

Lemma publishImage_available (st : Ros2RangeFinder) (raw : list byte) (now : Z) (w : World) :
  consistent tan_finite cfg st ->
  len raw = 4 * width * height ->
  publishImage st (Some raw) now w =
    Some (with_ImageMessage st (image_with (mImageMessage st) now raw),
          emit (PublishImage (image_with (mImageMessage st) now raw)) w).
Proof.
  intros Hc Hraw. unfold publishImage.
  rewrite memcpy_all_same_size; [reflexivity |].
  destruct Hc as (_ & _ & _ & _ & _ & _ & _ & _ & _ & Hil & _). fold width height in Hil. lia.
Qed.

Lemma publishPointCloud_available (st : Ros2RangeFinder) (raw : list byte) (now : Z)
  (w : World) :
  consistent tan_finite cfg st ->
  len raw = 4 * width * height ->
  exists data,
    project raw width height cx cy fx fy (pc_data (mPointCloudMessage st)) = Some data /\
    len data = 12 * width * height /\
    (forall i j, 0 <= i < width -> 0 <= j < height ->
                 pixel_done raw width cx cy fx fy data i j) /\
    publishPointCloud st (Some raw) now w =
      Some (with_PointCloudMessage st (cloud_with (mPointCloudMessage st) now data),
            emit (PublishPointCloud (cloud_with (mPointCloudMessage st) now data)) w).
Proof.
  intros Hc Hraw.
  destruct Hc as (Hw & Hh & _ & Hs & _ & _ & Hci & _ & _ & _ & Hcl).
  fold width height in Hw, Hh, Hs, Hcl.
  destruct (project_spec raw width height cx cy fx fy Hs Hraw _ Hcl)
    as (data & Hp & Hl & Hd).
  exists data. repeat split; try assumption.
  unfold publishPointCloud. rewrite Hci.
  cbn [init_cameraInfo ci_width ci_height ci_k at_k nth].
  rewrite !uint32_roundtrip by assumption.
  fold width height cx cy fx fy. rewrite Hp. reflexivity.
Qed.
End PublishFacts.

(** ** One call of [step] *)

Lemma toggle_spec (st : Ros2RangeFinder) (c : N) (w : World) :
  let st' := fst (toggle st c w) in
  let w' := snd (toggle st c w) in
  st' = with_IsEnabled st (0 <? c)%N /\
  trace w' = trace w ++ edge (mPublishTimestepSyncedMs st) (mIsEnabled st) (0 <? c)%N /\
  sensorEnabled w' =
    (if Bool.eqb (0 <? c)%N (mIsEnabled st) then sensorEnabled w else (0 <? c)%N).
Proof.
  unfold toggle. destruct st as [en ao p mi mc mp]. cbn [mIsEnabled mPublishTimestepSyncedMs].
  destruct (0 <? c)%N, en; cbn; rewrite ?app_nil_r; auto.
Qed.

Lemma publish_if_enabled_idle (st : Ros2RangeFinder) (tk : Tick) (w : World) :
  mIsEnabled st = false \/ rangeImage tk = None ->
  publish_if_enabled st tk w = Some (st, w).
Proof.
  unfold publish_if_enabled. intros [-> | ->]; [reflexivity |].
  destruct (mIsEnabled st); reflexivity.
Qed.

Lemma publish_if_enabled_inv (st : Ros2RangeFinder) (tk : Tick) (w : World)
  (st1 : Ros2RangeFinder) (w1 : World) :
  publish_if_enabled st tk w = Some (st1, w1) ->
  ((mIsEnabled st = false \/ rangeImage tk = None) /\ st1 = st /\ w1 = w) \/
  (exists raw idata cdata,
      mIsEnabled st = true /\ rangeImage tk = Some raw /\
      memcpy_all (img_data (mImageMessage st)) raw = Some idata /\
      publishPointCloud
        (with_ImageMessage st (image_with (mImageMessage st) (now_image tk) idata))
        (Some raw) (now_cloud tk)
        (emit (PublishImage (image_with (mImageMessage st) (now_image tk) idata)) w)
      = Some (st1, w1) /\
      st1 = with_PointCloudMessage
              (with_ImageMessage st (image_with (mImageMessage st) (now_image tk) idata))
              (cloud_with (mPointCloudMessage st) (now_cloud tk) cdata) /\
      w1 = emit (PublishPointCloud (cloud_with (mPointCloudMessage st) (now_cloud tk) cdata))
             (emit (PublishImage (image_with (mImageMessage st) (now_image tk) idata)) w)).
Proof.
  unfold publish_if_enabled.
  destruct (mIsEnabled st) eqn:He.
  2: { intros [= <- <-]. left. auto. }
  destruct (rangeImage tk) as [raw |] eqn:Hr.
  2: { cbn. intros [= <- <-]. left. auto. }
  intros H. right. exists raw.
  apply bind_Some in H as ([st0 w0] & Hi & Hc).
  unfold publishImage in Hi.
  apply bind_Some in Hi as (idata & Hm & [= <- <-]).
  exists idata.
  pose proof Hc as Hc'.
  unfold publishPointCloud in Hc.
  apply bind_Some in Hc as (cdata & Hp & [= <- <-]).
  exists cdata. repeat split; try assumption; reflexivity.
Qed.

Lemma step_skipped (st : Ros2RangeFinder) (tk : Tick) (w : World) :
  preStep tk = false -> step st tk w = Some (st, w).
Proof. unfold step. now intros ->. Qed.

Lemma step_inv (st : Ros2RangeFinder) (tk : Tick) (w : World)
  (st' : Ros2RangeFinder) (w' : World) :
  step st tk w = Some (st', w') ->
  preStep tk = true ->
  exists st1 w1,
    publish_if_enabled st tk w = Some (st1, w1) /\
    mIsEnabled st1 = mIsEnabled st /\
    mAlwaysOn st1 = mAlwaysOn st /\
    mPublishTimestepSyncedMs st1 = mPublishTimestepSyncedMs st /\
    sensorEnabled w1 = sensorEnabled w /\
    (st', w') = if mAlwaysOn st then (st1, w1) else toggle st1 (subscription_count tk) w1.
Proof.
  unfold step. intros H Hpre. rewrite Hpre in H. cbn [negb] in H.
  apply bind_Some in H as ([st1 w1] & Hp & H).
  exists st1, w1. split; [exact Hp |].
  assert (Hsame : mIsEnabled st1 = mIsEnabled st /\ mAlwaysOn st1 = mAlwaysOn st /\
                  mPublishTimestepSyncedMs st1 = mPublishTimestepSyncedMs st /\
                  sensorEnabled w1 = sensorEnabled w).
  { apply publish_if_enabled_inv in Hp
      as [(_ & -> & ->) | (raw & idata & cdata & _ & _ & _ & _ & -> & ->)];
      cbn; auto. }
  destruct Hsame as (H1 & H2 & H3 & H4). rewrite <- H2.
  repeat split; try assumption.
  destruct (mAlwaysOn st1); congruence.
Qed.

Lemma edge_same (p : Z) (b : bool) : edge p b b = [].
Proof. destruct b; reflexivity. Qed.

Lemma commands_edge (p : Z) (a b : bool) : commands (edge p a b) = edge p a b.
Proof. destruct a, b; reflexivity. Qed.

Lemma frames_edge (p : Z) (a b : bool) : frames (edge p a b) = [].
Proof. destruct a, b; reflexivity. Qed.

Lemma step_flag (st : Ros2RangeFinder) (tk : Tick) (w : World)
  (st' : Ros2RangeFinder) (w' : World) :
  step st tk w = Some (st', w') ->
  mIsEnabled st' =
    (if preStep tk && negb (mAlwaysOn st)
     then (0 <? subscription_count tk)%N else mIsEnabled st) /\
  mAlwaysOn st' = mAlwaysOn st /\
  mPublishTimestepSyncedMs st' = mPublishTimestepSyncedMs st /\
  mCameraInfoMessage st' = mCameraInfoMessage st.
Proof.
  intros H. destruct (preStep tk) eqn:Hpre.
  2: { rewrite step_skipped in H by assumption. injection H as <- <-. cbn. auto. }
  destruct (step_inv _ _ _ _ _ H Hpre) as (st1 & w1 & Hp & He & Ha & Hper & Hs & Hres).
  assert (Hci : mCameraInfoMessage st1 = mCameraInfoMessage st).
  { apply publish_if_enabled_inv in Hp
      as [(_ & -> & ->) | (raw & idata & cdata & _ & _ & _ & _ & -> & ->)]; reflexivity. }
  cbn [andb].
  destruct (mAlwaysOn st) eqn:Hao; cbn [negb].
  - injection Hres as -> ->. auto.
  - pose proof (toggle_spec st1 (subscription_count tk) w1) as (Hst & _ & _).
    rewrite <- Hres in Hst. cbn [fst] in Hst. subst st'. cbn. auto.
Qed.

Lemma step_trace (st : Ros2RangeFinder) (tk : Tick) (w : World)
  (st' : Ros2RangeFinder) (w' : World) :
  step st tk w = Some (st', w') ->
  trace w' =
    trace w
    ++ (if preStep tk && mIsEnabled st && available tk
        then [PublishImage (mImageMessage st'); PublishPointCloud (mPointCloudMessage st')]
        else [])
    ++ edge (mPublishTimestepSyncedMs st) (mIsEnabled st) (mIsEnabled st') /\
  sensorEnabled w' =
    (if Bool.eqb (mIsEnabled st') (mIsEnabled st) then sensorEnabled w else mIsEnabled st') /\
  (preStep tk && mIsEnabled st && available tk = false ->
   mImageMessage st' = mImageMessage st /\ mPointCloudMessage st' = mPointCloudMessage st).
Proof.
  intros H. destruct (preStep tk) eqn:Hpre.
  2: { rewrite step_skipped in H by assumption. injection H as <- <-. cbn.
       rewrite edge_same, app_nil_r, eqb_reflx. auto. }
  pose proof (step_flag _ _ _ _ _ H) as (Hflag & _ & _ & _). rewrite Hpre in Hflag.
  destruct (step_inv _ _ _ _ _ H Hpre) as (st1 & w1 & Hp & He & Ha & Hper & Hs & Hres).
  cbn [andb] in *.
  assert (Hpub : trace w1 = trace w ++
                   (if mIsEnabled st && available tk
                    then [PublishImage (mImageMessage st1);
                          PublishPointCloud (mPointCloudMessage st1)]
                    else []) /\
                 (mIsEnabled st && available tk = false ->
                  mImageMessage st1 = mImageMessage st /\
                  mPointCloudMessage st1 = mPointCloudMessage st)).
  { unfold available.
    apply publish_if_enabled_inv in Hp
      as [(Hor & -> & ->) | (raw & idata & cdata & Hen & Hav & _ & _ & -> & ->)].
    - destruct Hor as [-> | ->]; rewrite ?andb_false_r; cbn; rewrite app_nil_r; auto.
    - rewrite Hen, Hav. cbn. rewrite <- app_assoc. split; [reflexivity | discriminate]. }
  destruct Hpub as (Htr & Hkeep).
  destruct (mAlwaysOn st) eqn:Hao; cbn [negb] in Hflag.
  - injection Hres as -> ->. rewrite He, edge_same, app_nil_r, eqb_reflx. auto.
  - pose proof (toggle_spec st1 (subscription_count tk) w1) as (Hst & Htg & Hse).
    rewrite <- Hres in Hst, Htg, Hse. cbn [fst snd] in Hst, Htg, Hse.
    rewrite Htg, Htr, Hper, He, Hflag, Hse, Hs, <- app_assoc. subst st'. cbn.
    rewrite He. auto.
Qed.

Lemma step_commands (st : Ros2RangeFinder) (tk : Tick) (w : World)
  (st' : Ros2RangeFinder) (w' : World) :
  step st tk w = Some (st', w') ->
  commands (trace w') =
    commands (trace w) ++ edge (mPublishTimestepSyncedMs st) (mIsEnabled st) (mIsEnabled st').
Proof.
  intros H. apply step_trace in H as (-> & _ & _).
  rewrite !commands_app, commands_edge.
  destruct (preStep tk && mIsEnabled st && available tk); reflexivity.
Qed.

Lemma step_frames (st : Ros2RangeFinder) (tk : Tick) (w : World)
  (st' : Ros2RangeFinder) (w' : World) :
  step st tk w = Some (st', w') ->
  frames (trace w') =
    frames (trace w)
    ++ (if preStep tk && mIsEnabled st && available tk
        then [PublishImage (mImageMessage st'); PublishPointCloud (mPointCloudMessage st')]
        else []).
Proof.
  intros H. apply step_trace in H as (-> & _ & _).
  rewrite !frames_app, frames_edge, app_nil_r.
  destruct (preStep tk && mIsEnabled st && available tk); reflexivity.
Qed.

Lemma for_loop_preserves {St : Type} (I : St -> Prop) (body : Z -> St -> option St) :
  (forall k s s', body k s = Some s' -> I s -> I s') ->
  forall (n : nat) (i : Z) (s s' : St),
    for_loop n i body s = Some s' -> I s -> I s'.
Proof.
  intros Hbody. induction n as [| n IH]; intros i s s' H Hs; cbn in H.
  - now injection H as <-.
  - apply bind_Some in H as (s1 & H1 & H2). eauto.
Qed.

Lemma project_pixel_len (image : list byte) (width : Z) (cx cy fx fy : F32.t)
  (j i : Z) (data data' : list byte) :
  project_pixel image width cx cy fx fy j i data = Some data' -> len data' = len data.
Proof.
  unfold project_pixel. intros H.
  apply bind_Some in H as (jw & _ & H).
  apply bind_Some in H as (idx & _ & H).
  apply bind_Some in H as (x & _ & H).
  apply bind_Some in H as (idx3 & _ & H).
  apply bind_Some in H as (d1 & H1 & H).
  apply bind_Some in H as (d2 & H2 & H3).
  apply store_f32_len in H1, H2, H3. lia.
Qed.

Lemma project_len (image : list byte) (width height : Z) (cx cy fx fy : F32.t)
  (data data' : list byte) :
  project image width height cx cy fx fy data = Some data' -> len data' = len data.
Proof.
  unfold project. intros H.
  apply (for_loop_preserves (fun d => len d = len data)) in H; [exact H | | reflexivity].
  intros j d d' Hrow Hd.
  apply (for_loop_preserves (fun d => len d = len data)) in Hrow; [exact Hrow | | exact Hd].
  intros i e e' Hp He. apply project_pixel_len in Hp. lia.
Qed.

Section StepFacts.
Variable tan_finite : F64.t -> F64.t.
Variable cfg : Config.

Let width := cfg_width cfg.
Let height := cfg_height cfg.
Let cx := F32.of_f64 (principalPoint width).
Let cy := F32.of_f64 (principalPoint height).
Let fx := F32.of_f64 (focalLength tan_finite width (cfg_fov cfg)).
Let fy := F32.of_f64 (focalLength tan_finite height (cfg_fov cfg)).

Lemma publish_if_enabled_available (st : Ros2RangeFinder) (tk : Tick) (w : World)
  (raw : list byte) :
  consistent tan_finite cfg st ->
  mIsEnabled st = true ->
  rangeImage tk = Some raw ->
  len raw = 4 * width * height ->
  exists st1 w1,
    publish_if_enabled st tk w = Some (st1, w1) /\
    consistent tan_finite cfg st1 /\
    img_data (mImageMessage st1) = raw /\
    (forall i j, 0 <= i < width -> 0 <= j < height ->
                 pixel_done raw width cx cy fx fy (pc_data (mPointCloudMessage st1)) i j).
Proof.
  intros Hc He Hr Hl. unfold publish_if_enabled. rewrite He, Hr.
  rewrite (publishImage_available tan_finite cfg) by assumption. cbn [bind].
  pose proof (consistent_image tan_finite cfg st (now_image tk) raw Hc Hl) as Hc1.
  destruct (publishPointCloud_available tan_finite cfg _ raw (now_cloud tk)
              (emit (PublishImage (image_with (mImageMessage st) (now_image tk) raw)) w)
              Hc1 Hl) as (data & _ & Hdl & Hdone & ->).
  eexists _, _. split; [reflexivity |]. split.
  - apply (consistent_cloud tan_finite cfg _ _ _ Hc1 Hdl).
  - split; [reflexivity | exact Hdone].
Qed.

Lemma step_total (st : Ros2RangeFinder) (tk : Tick) (w : World) :
  consistent tan_finite cfg st ->
  tick_ok cfg tk ->
  exists st' w', step st tk w = Some (st', w') /\ consistent tan_finite cfg st'.
Proof.
  intros Hc Hok. unfold step.
  destruct (preStep tk); cbn [negb]; [| eauto].
  assert (Hp : exists st1 w1, publish_if_enabled st tk w = Some (st1, w1) /\
                              consistent tan_finite cfg st1).
  { destruct (mIsEnabled st) eqn:He.
    - unfold tick_ok in Hok. destruct (rangeImage tk) as [raw |] eqn:Hr.
      + destruct (publish_if_enabled_available st tk w raw Hc He Hr Hok)
          as (st1 & w1 & H1 & H2 & _). eauto.
      + rewrite publish_if_enabled_idle by auto. eauto.
    - rewrite publish_if_enabled_idle by auto. eauto. }
  destruct Hp as (st1 & w1 & -> & Hc1). cbn [bind].
  destruct (mAlwaysOn st1); [eauto |].
  pose proof (toggle_spec st1 (subscription_count tk) w1) as (Hst & _).
  destruct (toggle st1 (subscription_count tk) w1) as [st' w'] eqn:Ht.
  cbn [fst] in Hst. subst st'. eexists _, _. split; [reflexivity |].
  now apply consistent_flag.
Qed.

Lemma step_consistent (st : Ros2RangeFinder) (tk : Tick) (w : World)
  (st' : Ros2RangeFinder) (w' : World) :
  consistent tan_finite cfg st ->
  step st tk w = Some (st', w') ->
  consistent tan_finite cfg st'.
Proof.
  intros Hc H. destruct (preStep tk) eqn:Hpre.
  2: { rewrite step_skipped in H by assumption. now injection H as <- <-. }
  destruct (step_inv _ _ _ _ _ H Hpre) as (st1 & w1 & Hp & _ & Ha & _ & _ & Hres).
  assert (Hc1 : consistent tan_finite cfg st1).
  { apply publish_if_enabled_inv in Hp
      as [(_ & -> & ->) | (raw & idata & cdata & _ & _ & Hm & Hpc & _ & _)];
      [exact Hc |].
    assert (Hil : len idata = 4 * width * height).
    { destruct Hc as (_ & _ & _ & _ & _ & _ & _ & _ & _ & Hil & _).
      unfold memcpy_all in Hm.
      destruct (Z.leb_spec (len (img_data (mImageMessage st))) (len raw));
        [| discriminate].
      injection Hm as <-. unfold len in *. rewrite length_firstn.
      fold width height in Hil. lia. }
    pose proof (consistent_image tan_finite cfg st (now_image tk) idata Hc Hil) as Hc1.
    unfold publishPointCloud in Hpc.
    apply bind_Some in Hpc as (data & Hproj & [= <- _]).
    refine (consistent_cloud tan_finite cfg _ (now_cloud tk) data Hc1 _).
    apply project_len in Hproj. rewrite Hproj.
    destruct Hc as (_ & _ & _ & _ & _ & _ & _ & _ & _ & _ & Hcl). exact Hcl. }
  destruct (mAlwaysOn st).
  - now injection Hres as -> ->.
  - pose proof (toggle_spec st1 (subscription_count tk) w1) as (Hst & _).
    rewrite <- Hres in Hst. cbn [fst] in Hst. subst st'. now apply consistent_flag.
Qed.
End StepFacts.

(** ** Exact results in double precision *)

Lemma digits2_pos_size (p : positive) : digits2_pos p = Pos.size p.
Proof. induction p; cbn; congruence. Qed.

Lemma digits2_log2 (p : positive) : Z.pos (digits2_pos p) = Z.log2 (Z.pos p) + 1.
Proof.
  rewrite digits2_pos_size. destruct p; cbn [Z.log2 Pos.size]; lia.
Qed.

Lemma iter_xO (d m : positive) : Z.pos (Pos.iter xO m d) = Z.pos m * 2 ^ Z.pos d.
Proof.
  induction d as [| d IH] using Pos.peano_ind.
  - cbn. lia.
  - rewrite Pos.iter_succ, Pos2Z.inj_succ, Z.pow_succ_r by lia.
    rewrite Pos2Z.inj_xO, IH. lia.
Qed.

Lemma digits2_shift (m : positive) (k : Z) :
  0 <= k -> Z.log2 (Z.pos m * 2 ^ k) = Z.log2 (Z.pos m) + k.
Proof. intros Hk. rewrite Z.log2_mul_pow2; lia. Qed.

Section Exact.
Variables prec emax : Z.

Lemma binary_round_aux_exact (s : bool) (m : positive) (e : Z) :
  fexp prec emax (Z.pos (digits2_pos m) + e) = e ->
  e <= emax - prec ->
  binary_round_aux prec emax s (Z.pos m) e loc_Exact = S754_finite s m e.
Proof.
  intros Hf He. unfold binary_round_aux, shr_fexp.
  cbn [Zdigits2 shr_record_of_loc]. rewrite Hf, Z.sub_diag.
  cbn [shr shr_m loc_of_shr_record round_nearest_even Zdigits2 shr_record_of_loc].
  rewrite Hf, Z.sub_diag. cbn [shr shr_m].
  destruct (Z.leb_spec e (emax - prec)); [reflexivity | lia].
Qed.

Lemma binary_round_aux_exact_even (s : bool) (m : positive) (e : Z) :
  fexp prec emax (Z.pos (digits2_pos m) + 1 + e) = e + 1 ->
  fexp prec emax (Z.pos (digits2_pos m) + (e + 1)) = e + 1 ->
  e + 1 <= emax - prec ->
  binary_round_aux prec emax s (Z.pos m~0) e loc_Exact = S754_finite s m (e + 1).
Proof.
  intros Hf Hf' He. unfold binary_round_aux, shr_fexp.
  cbn [Zdigits2 shr_record_of_loc digits2_pos].
  rewrite Pos2Z.inj_succ.
  replace (Z.succ (Z.pos (digits2_pos m)) + e) with (Z.pos (digits2_pos m) + 1 + e) by lia.
  rewrite Hf. replace (e + 1 - e) with 1 by lia.
  cbn [shr iter_pos shr_1 shr_m loc_of_shr_record round_nearest_even orb
       Zdigits2 shr_record_of_loc].
  rewrite Hf', Z.sub_diag. cbn [shr shr_m].
  destruct (Z.leb_spec (e + 1) (emax - prec)); [reflexivity | lia].
Qed.
End Exact.

Lemma of_int_pos (w : Z) :
  0 < w <= Int.INT_MAX ->
  F64.of_int w = S754_finite false (Z.to_pos (w * 2 ^ (52 - Z.log2 w))) (Z.log2 w - 52).
Proof.
  intros Hw. unfold Int.INT_MAX in Hw.
  destruct w as [| p | p]; try lia.
  assert (Hlog : 0 <= Z.log2 (Z.pos p) < 31).
  { split; [apply Z.log2_nonneg |]. apply Z.log2_lt_pow2; lia. }
  unfold F64.of_int. cbn [binary_normalize]. unfold binary_round, shl_align.
  rewrite digits2_log2.
  set (l := Z.log2 (Z.pos p)) in *.
  assert (Hf : fexp F64.prec F64.emax (l + 1 + 0) = l - 52).
  { unfold fexp, emin, F64.prec, F64.emax. lia. }
  rewrite Hf.
  replace (l - 52 - 0) with (Z.neg (Z.to_pos (52 - l))).
  2: { rewrite <- Pos2Z.opp_pos, Z2Pos.id; lia. }
  assert (Hm : Z.pos (Pos.iter xO p (Z.to_pos (52 - l))) = Z.pos p * 2 ^ (52 - l)).
  { rewrite iter_xO, Z2Pos.id; lia. }
  rewrite binary_round_aux_exact.
  - f_equal. rewrite <- Hm. reflexivity.
  - rewrite digits2_log2, Hm, digits2_shift by lia. fold l.
    unfold fexp, emin, F64.prec, F64.emax. lia.
  - unfold F64.prec, F64.emax. lia.
Qed.

Lemma div_two (m : positive) (e : Z) :
  Z.pos (digits2_pos m) = 53 ->
  -1000 <= e <= 900 ->
  F64.div (S754_finite false m e) F64.two = S754_finite false m (e - 1).
Proof.
  intros Hd He.
  change F64.two with (S754_finite false 4503599627370496 (-51)).
  unfold F64.div, SFdiv, SFdiv_core_binary.
  cbn [Zdigits2]. rewrite Hd.
  change (Z.pos (digits2_pos 4503599627370496)) with 53.
  assert (Hf : fexp F64.prec F64.emax (53 + e - (53 + -51)) = e - 2).
  { unfold fexp, emin, F64.prec, F64.emax. lia. }
  rewrite Hf.
  replace (Z.min (e - 2) (e - -51)) with (e - 2) by lia.
  replace (e - -51 - (e - 2)) with 53 by lia.
  rewrite Z.shiftl_mul_pow2 by lia.
  assert (Hq : Z.div_eucl (Z.pos m * 2 ^ 53) 4503599627370496 = (Z.pos m~0, 0)).
  { pose proof (Z.div_eucl_eq (Z.pos m * 2 ^ 53) 4503599627370496 ltac:(lia)) as Heq.
    pose proof (Z.mod_pos_bound (Z.pos m * 2 ^ 53) 4503599627370496 ltac:(lia)) as Hb.
    unfold Z.modulo in Hb.
    destruct (Z.div_eucl (Z.pos m * 2 ^ 53) 4503599627370496) as [q r].
    change (2 ^ 53) with (2 * 4503599627370496) in Heq.
    assert (q = 2 * Z.pos m) by nia. assert (r = 0) by nia. subst. reflexivity. }
  rewrite Hq. cbn [xorb].
  change (new_location 4503599627370496 0) with loc_Exact.
  replace (e - 1) with (e - 2 + 1) by lia.
  apply binary_round_aux_exact_even.
  - rewrite Hd. unfold fexp, emin, F64.prec, F64.emax. lia.
  - rewrite Hd. unfold fexp, emin, F64.prec, F64.emax. lia.
  - unfold F64.prec, F64.emax. lia.
Qed.

Lemma principalPoint_pos (w : Z) :
  0 < w <= Int.INT_MAX ->
  principalPoint w =
    S754_finite false (Z.to_pos (w * 2 ^ (52 - Z.log2 w))) (Z.log2 w - 53).
Proof.
  intros Hw. unfold principalPoint. rewrite of_int_pos by assumption.
  unfold Int.INT_MAX in Hw.
  assert (Hlog : 0 <= Z.log2 w < 31).
  { split; [apply Z.log2_nonneg |]. apply Z.log2_lt_pow2; lia. }
  rewrite div_two.
  - f_equal. lia.
  - rewrite digits2_log2, Z2Pos.id by nia. rewrite Z.log2_mul_pow2; lia.
  - lia.
Qed.

(** ** Bit patterns of single precision values *)

(** The three fields of a 32-bit pattern. *)
Lemma fields_of_word (s : bool) (E M : Z) :
  0 <= E < 2 ^ 8 -> 0 <= M < 2 ^ 23 ->
  let w := F32.sign_bit s + E * 2 ^ 23 + M in
  Z.testbit w 31 = s /\ (w / 2 ^ 23) mod 2 ^ 8 = E /\ w mod 2 ^ 23 = M /\
  0 <= w < 2 ^ 32.
Proof.
  intros HE HM w.
  assert (Hw : w = (if s then 1 else 0) * 2 ^ 31 + (E * 2 ^ 23 + M)).
  { unfold w, F32.sign_bit. destruct s; lia. }
  split; [| split; [| split]].
  - rewrite Z.testbit_eqb by lia.
    replace (w / 2 ^ 31) with (if s then 1 else 0).
    + destruct s; reflexivity.
    + apply Z.div_unique with (E * 2 ^ 23 + M); lia.
  - replace (w / 2 ^ 23) with ((if s then 1 else 0) * 2 ^ 8 + E).
    + rewrite Z.add_comm, Z.mod_add by lia. apply Z.mod_small. lia.
    + apply Z.div_unique with M; [lia |]. rewrite Hw. destruct s; lia.
  - symmetry. apply Z.mod_unique with ((if s then 1 else 0) * 2 ^ 8 + E); [lia |].
    rewrite Hw. destruct s; lia.
  - rewrite Hw. destruct s; lia.
Qed.

(** Decoding the bit pattern of a binary32 value gives the value back. *)
Lemma of_bits_to_bits (x : F32.t) :
  valid_binary F32.prec F32.emax x = true -> F32.of_bits (F32.to_bits x) = x.
Proof.
  destruct x as [s | s | | s m e]; intros Hv.
  - destruct s; reflexivity.
  - destruct s; reflexivity.
  - reflexivity.
  - cbn [valid_binary] in Hv. unfold bounded, canonical_mantissa in Hv.
    apply andb_prop in Hv as (Hc & He).
    apply Z.eqb_eq in Hc. apply Z.leb_le in He.
    rewrite digits2_log2 in Hc.
    unfold fexp, emin, F32.prec, F32.emax in Hc, He.
    pose proof (Z.log2_spec (Z.pos m) ltac:(lia)) as Hlog.
    pose proof (Z.log2_nonneg (Z.pos m)) as Hl0.
    unfold F32.to_bits.
    destruct (Z.ltb_spec (Z.pos m) (2 ^ 23)) as [Hsub | Hnorm].
    + assert (Hl : Z.log2 (Z.pos m) < 23) by (apply Z.log2_lt_pow2; lia).
      assert (e = -149) by lia. subst e.
      destruct (fields_of_word s 0 (Z.pos m) ltac:(lia) ltac:(lia)) as (Hs & HE & HM & _).
      cbn zeta in Hs, HE, HM. rewrite Z.mul_0_l, Z.add_0_r in Hs, HE, HM.
      unfold F32.of_bits. cbn zeta. rewrite Hs, HE, HM. reflexivity.
    + assert (Hl : 23 <= Z.log2 (Z.pos m)) by (apply Z.log2_le_pow2; lia).
      assert (Hl' : Z.log2 (Z.pos m) = 23) by lia.
      rewrite Hl' in Hlog. change (Z.succ 23) with 24 in Hlog.
      destruct (fields_of_word s (e + 150) (Z.pos m - 2 ^ 23) ltac:(lia) ltac:(lia))
        as (Hs & HE & HM & Hr).
      cbn zeta in Hs, HE, HM, Hr.
      rewrite Z.mod_small by exact Hr.
      unfold F32.of_bits. cbn zeta. rewrite Hs, HE, HM.
      destruct (Z.eqb_spec (e + 150) 255); [lia |].
      destruct (Z.eqb_spec (e + 150) 0); [lia |].
      replace (Z.pos m - 2 ^ 23 + 2 ^ 23) with (Z.pos m) by lia.
      f_equal. lia.
Qed.

(** ** Rounding to 53 bits *)

Lemma iter_pos_nat {A : Type} (f : A -> A) (p : positive) :
  forall x, iter_pos f p x = Nat.iter (Pos.to_nat p) f x.
Proof.
  induction p as [p IH | p IH |]; intros x; cbn [iter_pos].
  - rewrite !IH, Pos2Nat.inj_xI.
    replace (S (2 * Pos.to_nat p)) with (Pos.to_nat p + S (Pos.to_nat p))%nat by lia.
    rewrite Nat.iter_add, Nat.iter_succ_r. reflexivity.
  - rewrite !IH, Pos2Nat.inj_xO.
    replace (2 * Pos.to_nat p)%nat with (Pos.to_nat p + Pos.to_nat p)%nat by lia.
    rewrite Nat.iter_add. reflexivity.
  - reflexivity.
Qed.

Lemma shr_1_spec (m : Z) (r s : bool) :
  0 <= m ->
  shr_1 {| shr_m := m; shr_r := r; shr_s := s |} =
  {| shr_m := m / 2; shr_r := Z.odd m; shr_s := r || s |}.
Proof.
  intros Hm. destruct m as [| p | p]; [reflexivity | | lia].
  destruct p as [p | p |]; cbn [shr_1 Z.odd].
  - f_equal. rewrite Pos2Z.inj_xI. apply Z.div_unique with 1; lia.
  - f_equal. rewrite Pos2Z.inj_xO. apply Z.div_unique with 0; lia.
  - reflexivity.
Qed.

(** What [k] shifts leave of [P]: the quotient, and the remainder as a
    half-way bit and a rest. *)
Lemma shr_iter (P : Z) (k : nat) :
  0 <= P ->
  let mrs := Nat.iter k shr_1 {| shr_m := P; shr_r := false; shr_s := false |} in
  exists t,
    P = shr_m mrs * 2 ^ Z.of_nat k + (if shr_r mrs then 2 ^ Z.of_nat k / 2 else 0) + t /\
    0 <= t /\ (t = 0 \/ t < 2 ^ Z.of_nat k / 2) /\
    (shr_s mrs = true <-> t <> 0) /\
    0 <= shr_m mrs /\
    (k = 0%nat -> shr_r mrs = false).
Proof.
  intros HP. induction k as [| k IH].
  - cbn. exists 0. repeat split; try lia; try discriminate.
  - cbn zeta in IH. cbn zeta. rewrite Nat.iter_succ.
    destruct (Nat.iter k shr_1 {| shr_m := P; shr_r := false; shr_s := false |})
      as [m r s].
    cbn [shr_m shr_r shr_s] in IH.
    destruct IH as (t & HPeq & Ht0 & Ht & Hs & Hm & Hk0).
    rewrite shr_1_spec by assumption. cbn [shr_m shr_r shr_s].
    rewrite Nat2Z.inj_succ, Z.pow_succ_r by lia.
    set (p := 2 ^ Z.of_nat k) in *.
    assert (Hp : 0 < p) by (apply Z.pow_pos_nonneg; lia).
    replace (2 * p / 2) with p by (apply Z.div_unique with 0; lia).
    pose proof (Z.div_mod m 2 ltac:(lia)) as Hdm.
    pose proof (Zmod_odd m) as Hodd.
    assert (Hhalf : k <> 0%nat -> 2 * (p / 2) = p).
    { intros Hk. destruct k as [| k']; [congruence |].
      unfold p. rewrite Nat2Z.inj_succ, Z.pow_succ_r by lia.
      replace (2 * 2 ^ Z.of_nat k' / 2) with (2 ^ Z.of_nat k')
        by (apply Z.div_unique with 0; lia). reflexivity. }
    exists ((if r then p / 2 else 0) + t).
    assert (Hr0 : k = 0%nat -> r = false /\ t = 0 /\ p = 1).
    { intros Hk. split; [auto |]. subst k. cbn in p. subst p.
      change (1 / 2) with 0 in Ht. split; lia. }
    repeat split.
    + destruct (Z.odd m); nia.
    + destruct r; [| lia]. pose proof (Z.div_pos p 2). lia.
    + destruct (Nat.eq_dec k 0) as [Hk | Hk].
      * destruct (Hr0 Hk) as (-> & -> & _). left. reflexivity.
      * right. specialize (Hhalf Hk). destruct r; lia.
    + intros Hrs Hzero. apply orb_true_iff in Hrs as [-> | Hst].
      * destruct (Nat.eq_dec k 0) as [Hk | Hk]; [destruct (Hr0 Hk); discriminate |].
        specialize (Hhalf Hk). lia.
      * apply Hs in Hst. destruct r; [pose proof (Z.div_pos p 2) |]; lia.
    + intros Hnz. destruct r; [reflexivity |]. cbn. apply Hs. lia.
    + apply Z.div_pos; lia.
    + discriminate.
Qed.

Lemma fexp_normal (d : Z) : -1021 <= d -> fexp F64.prec F64.emax d = d - 53.
Proof. unfold fexp, emin, F64.prec, F64.emax. lia. Qed.

Lemma log2_53 (m : Z) : 2 ^ 52 <= m < 2 ^ 53 -> Z.log2 m = 52.
Proof. intros H. apply Z.log2_unique; lia. Qed.

(** The second normalisation of [binary_round_aux], after rounding. *)
Lemma renormalize (s : bool) (m1 e : Z) :
  2 ^ 52 <= m1 <= 2 ^ 53 ->
  -1074 <= e -> e + 1 <= 971 ->
  exists m e',
    (let '(mrs, e'') := shr_fexp F64.prec F64.emax m1 e loc_Exact in
     match shr_m mrs with
     | 0 => S754_zero s
     | Z.pos m => if e'' <=? F64.emax - F64.prec then S754_finite s m e''
                  else S754_infinity s
     | Z.neg _ => S754_nan
     end) = S754_finite s m e' /\
    Z.pos m * 2 ^ (e' - e) = m1 /\ (e' = e \/ e' = e + 1) /\
    Z.pos (digits2_pos m) = 53.
Proof.
  intros Hm He He'.
  destruct m1 as [| p1 | p1]; try lia.
  unfold shr_fexp. cbn [Zdigits2 shr_record_of_loc]. rewrite digits2_log2.
  destruct (Z.eq_dec (Z.pos p1) (2 ^ 53)) as [Heq | Hne].
  - injection Heq as ->.
    change (Z.log2 (Z.pos 9007199254740992) + 1) with 54.
    rewrite fexp_normal by lia. replace (54 + e - 53 - e) with 1 by lia.
    cbn [shr iter_pos shr_1 shr_m orb].
    exists 4503599627370496%positive, (e + 1).
    unfold F64.emax, F64.prec.
    destruct (Z.leb_spec (e + 1) (1024 - 53)); [| lia].
    split; [reflexivity |]. split; [| split; [lia | reflexivity]].
    replace (e + 1 - e) with 1 by lia. reflexivity.
  - rewrite log2_53 by lia.
    rewrite fexp_normal by lia. replace (52 + 1 + e - 53 - e) with 0 by lia.
    cbn [shr shr_m].
    exists p1, e.
    unfold F64.emax, F64.prec.
    destruct (Z.leb_spec e (1024 - 53)); [| lia].
    split; [reflexivity |]. rewrite Z.sub_diag.
    split; [lia |]. split; [lia |].
    rewrite digits2_log2, log2_53; lia.
Qed.

(** Rounding a product to 53 bits: the result is a normal number within
    half a unit in the last place. *)
Lemma round_normal (s : bool) (P : positive) (E n : Z) :
  Z.log2 (Z.pos P) + 1 = n + 53 ->
  1 <= n ->
  -1074 <= E + n -> E + n + 1 <= 971 ->
  exists m e,
    binary_round_aux F64.prec F64.emax s (Z.pos P) E loc_Exact = S754_finite s m e /\
    E + n <= e /\
    Z.pos (digits2_pos m) = 53 /\
    Z.pos P - 2 ^ (n - 1) <= Z.pos m * 2 ^ (e - E) <= Z.pos P + 2 ^ (n - 1) /\
    (Z.pos P mod 2 ^ n = 0 -> Z.pos m * 2 ^ (e - E) = Z.pos P).
Proof.
  intros Hd Hn Hlo Hhi.
  unfold binary_round_aux.
  assert (Hfirst : exists q r s' t,
             shr_fexp F64.prec F64.emax (Z.pos P) E loc_Exact
             = ({| shr_m := q; shr_r := r; shr_s := s' |}, E + n) /\
             Z.pos P = q * 2 ^ n + (if r then 2 ^ (n - 1) else 0) + t /\
             0 <= t < 2 ^ (n - 1) /\ (s' = true <-> t <> 0) /\ 0 <= q).
  { unfold shr_fexp. cbn [Zdigits2 shr_record_of_loc]. rewrite digits2_log2, Hd.
    rewrite fexp_normal by lia. replace (n + 53 + E - 53 - E) with n by lia.
    destruct n as [| pn | pn]; try lia.
    unfold shr. rewrite iter_pos_nat.
    pose proof (shr_iter (Z.pos P) (Pos.to_nat pn) ltac:(lia)) as Hit.
    cbn zeta in Hit. rewrite positive_nat_Z in Hit.
    destruct (Nat.iter (Pos.to_nat pn) shr_1
                {| shr_m := Z.pos P; shr_r := false; shr_s := false |}) as [q r s'].
    cbn [shr_m shr_r shr_s] in Hit.
    destruct Hit as (t & HPeq & Ht0 & Ht & Hs & Hq & _).
    assert (Hhalf : 2 ^ Z.pos pn / 2 = 2 ^ (Z.pos pn - 1)).
    { replace (Z.pos pn) with (Z.succ (Z.pos pn - 1)) at 1 by lia.
      rewrite Z.pow_succ_r by lia.
      symmetry. apply Z.div_unique with 0; lia. }
    rewrite Hhalf in HPeq, Ht.
    assert (0 < 2 ^ (Z.pos pn - 1)) by (apply Z.pow_pos_nonneg; lia).
    exists q, r, s', t. repeat split; try assumption; try lia; apply Hs. }
  destruct Hfirst as (q & r & s' & t & -> & HPeq & Ht & Hs & Hq).
  cbn [shr_m].
  assert (Hpow : 2 ^ n = 2 * 2 ^ (n - 1)).
  { replace n with (Z.succ (n - 1)) at 1 by lia. rewrite Z.pow_succ_r; lia. }
  assert (Hpos : 0 < 2 ^ (n - 1)) by (apply Z.pow_pos_nonneg; lia).
  assert (HP : 2 ^ (n + 52) <= Z.pos P < 2 ^ (n + 53)).
  { pose proof (Z.log2_spec (Z.pos P) ltac:(lia)) as Hl.
    replace (Z.log2 (Z.pos P)) with (n + 52) in Hl by lia.
    replace (Z.succ (n + 52)) with (n + 53) in Hl by lia. exact Hl. }
  rewrite !Z.pow_add_r in HP by lia.
  assert (Hqb : 2 ^ 52 <= q < 2 ^ 53) by (destruct r; nia).
  set (m1 := round_nearest_even q
               (loc_of_shr_record {| shr_m := q; shr_r := r; shr_s := s' |})).
  assert (Hm1 : q <= m1 <= q + 1 /\
                Z.pos P - 2 ^ (n - 1) <= m1 * 2 ^ n <= Z.pos P + 2 ^ (n - 1) /\
                (Z.pos P mod 2 ^ n = 0 -> m1 * 2 ^ n = Z.pos P)).
  { assert (Hexact : Z.pos P mod 2 ^ n = 0 -> r = false /\ t = 0).
    { intros Hmod.
      assert (Hrem : (if r then 2 ^ (n - 1) else 0) + t = 0).
      { rewrite HPeq, <- Z.add_assoc, Z.add_comm, Z.mod_add in Hmod by lia.
        rewrite Z.mod_small in Hmod; [exact Hmod |]. destruct r; lia. }
      destruct r; [lia | split; [reflexivity | lia]]. }
    subst m1. destruct r, s'; cbn [loc_of_shr_record round_nearest_even].
    - assert (t <> 0) by (apply Hs; reflexivity).
      split; [lia |]. split; [nia |]. intros Hmod. destruct (Hexact Hmod). discriminate.
    - assert (t = 0).
      { destruct (Z.eq_dec t 0); [assumption |].
        assert (false = true) by (apply Hs; assumption). discriminate. }
      split; [destruct (Z.even q); lia |]. split; [destruct (Z.even q); nia |].
      intros Hmod. destruct (Hexact Hmod). discriminate.
    - assert (t <> 0) by (apply Hs; reflexivity).
      split; [lia |]. split; [nia |]. intros Hmod. destruct (Hexact Hmod). lia.
    - split; [lia |]. split; [nia |]. intros Hmod. destruct (Hexact Hmod). nia. }
  destruct Hm1 as (Hm1q & Hm1b & Hm1e).
  destruct (renormalize s m1 (E + n) ltac:(lia) Hlo Hhi) as (m & e & Hres & Hval & He & Hdig).
  exists m, e. split; [exact Hres |]. split; [lia |]. split; [exact Hdig |].
  replace (e - E) with (e - (E + n) + n) by lia.
  rewrite Z.pow_add_r by lia. rewrite Z.mul_assoc, Hval. split; assumption.
Qed.

Lemma log2_bounds (w : Z) :
  0 < w <= Int.INT_MAX ->
  0 <= Z.log2 w < 31 /\ 2 ^ Z.log2 w <= w < 2 * 2 ^ Z.log2 w.
Proof.
  intros Hw. unfold Int.INT_MAX in Hw.
  split.
  - split; [apply Z.log2_nonneg |]. apply Z.log2_lt_pow2; lia.
  - pose proof (Z.log2_spec w ltac:(lia)) as H.
    rewrite Z.pow_succ_r in H by apply Z.log2_nonneg. exact H.
Qed.

(** [0.5 * dim] is exact. *)
Lemma half_of_int (w : Z) :
  0 < w <= Int.INT_MAX ->
  F64.mul F64.half (F64.of_int w) =
    S754_finite false (Z.to_pos (w * 2 ^ (52 - Z.log2 w))) (Z.log2 w - 53).
Proof.
  intros Hw. rewrite of_int_pos by assumption.
  destruct (log2_bounds w Hw) as (Hl & Hwl).
  set (l := Z.log2 w) in *.
  set (mw := Z.to_pos (w * 2 ^ (52 - l))).
  assert (Hmw : Z.pos mw = w * 2 ^ (52 - l)).
  { unfold mw. rewrite Z2Pos.id; [reflexivity |].
    apply Z.mul_pos_pos; [lia | apply Z.pow_pos_nonneg; lia]. }
  assert (Hmwb : 2 ^ 52 <= Z.pos mw < 2 ^ 53).
  { rewrite Hmw.
    assert (Hsp : 2 ^ 52 = 2 ^ l * 2 ^ (52 - l)).
    { rewrite <- Z.pow_add_r by lia. f_equal. lia. }
    change (2 ^ 53) with (2 * 2 ^ 52). rewrite Hsp.
    assert (0 < 2 ^ (52 - l)) by (apply Z.pow_pos_nonneg; lia). nia. }
  change F64.half with (S754_finite false 4503599627370496 (-53)).
  unfold F64.mul, SFmul. cbn [xorb].
  destruct (round_normal false (4503599627370496 * mw) (-53 + (l - 52)) 52)
    as (m & e & Hres & He & Hdig & _ & Hexact).
  - rewrite Pos2Z.inj_mul. change (Z.pos 4503599627370496) with (2 ^ 52).
    rewrite Z.mul_comm, Z.log2_mul_pow2, log2_53 by lia. reflexivity.
  - lia.
  - lia.
  - lia.
  - unfold F64.prec, F64.emax in Hres |- *. rewrite Hres.
    assert (Hval : Z.pos m * 2 ^ (e - (-53 + (l - 52))) = 2 ^ 52 * Z.pos mw).
    { rewrite Hexact; [rewrite Pos2Z.inj_mul; reflexivity |].
      rewrite Pos2Z.inj_mul. change (Z.pos 4503599627370496) with (2 ^ 52).
      rewrite Z.mul_comm. apply Z.mod_mul. lia. }
    assert (Hmb : 2 ^ 52 <= Z.pos m < 2 ^ 53).
    { pose proof (Z.log2_spec (Z.pos m) ltac:(lia)) as Hs.
      rewrite digits2_log2 in Hdig.
      replace (Z.log2 (Z.pos m)) with 52 in Hs by lia. exact Hs. }
    set (k := e - (-53 + (l - 52))) in *.
    assert (Hk : k = 52).
    { destruct (Z.eq_dec k 52) as [| Hne]; [assumption | exfalso].
      assert (Hk53 : 53 <= k) by lia.
      replace k with (53 + (k - 53)) in Hval by lia.
      rewrite Z.pow_add_r in Hval by lia.
      assert (0 < 2 ^ (k - 53)) by (apply Z.pow_pos_nonneg; lia).
      nia. }
    rewrite Hk in Hval.
    assert (m = mw) by nia. subst m.
    unfold k in Hk. f_equal. lia.
Qed.

Lemma focal_bounds (w : Z) (sr : bool) (mr : positive) (er : Z) :
  0 < w <= Int.INT_MAX ->
  Z.pos (digits2_pos mr) = 53 ->
  -1000 <= er <= 900 ->
  exists m e,
    F64.mul (F64.mul F64.half (F64.of_int w)) (S754_finite sr mr er) = S754_finite sr m e /\
    0 <= e - er + 53 /\
    2 ^ 52 * (w * Z.pos mr - w) <= Z.pos m * 2 ^ (e - er + 53)
      <= 2 ^ 52 * (w * Z.pos mr + w).
Proof.
  intros Hw Hdr Her. rewrite half_of_int by assumption.
  destruct (log2_bounds w Hw) as (Hl & Hwl).
  set (l := Z.log2 w) in *.
  set (mw := Z.to_pos (w * 2 ^ (52 - l))).
  assert (Hb : 0 < 2 ^ (52 - l)) by (apply Z.pow_pos_nonneg; lia).
  assert (Hmw : Z.pos mw = w * 2 ^ (52 - l)).
  { unfold mw. rewrite Z2Pos.id; [reflexivity | nia]. }
  assert (Hsp : 2 ^ 52 = 2 ^ l * 2 ^ (52 - l)).
  { rewrite <- Z.pow_add_r by lia. f_equal. lia. }
  assert (Hmwb : 2 ^ 52 <= Z.pos mw < 2 ^ 53).
  { rewrite Hmw. change (2 ^ 53) with (2 * 2 ^ 52). rewrite Hsp. nia. }
  assert (Hmrb : 2 ^ 52 <= Z.pos mr < 2 ^ 53).
  { pose proof (Z.log2_spec (Z.pos mr) ltac:(lia)) as Hs.
    rewrite digits2_log2 in Hdr.
    replace (Z.log2 (Z.pos mr)) with 52 in Hs by lia. exact Hs. }
  unfold F64.mul at 1. unfold SFmul. cbn [xorb].
  set (P := (mw * mr)%positive).
  assert (HP : Z.pos P = Z.pos mw * Z.pos mr) by (unfold P; apply Pos2Z.inj_mul).
  assert (HPb : 2 ^ 104 <= Z.pos P < 2 ^ 106).
  { rewrite HP. change (2 ^ 104) with (2 ^ 52 * 2 ^ 52).
    change (2 ^ 106) with (2 ^ 53 * 2 ^ 53). nia. }
  assert (Hlog : 104 <= Z.log2 (Z.pos P) < 106).
  { split; [apply Z.log2_le_pow2; lia | apply Z.log2_lt_pow2; lia]. }
  set (n := Z.log2 (Z.pos P) - 52).
  destruct (round_normal sr P (l - 53 + er) n) as (m & e & Hres & He & _ & Hbnd & _);
    try (unfold n; lia).
  exists m, e. split; [exact Hres |]. split; [unfold n in He; lia |].
  assert (Hn : 0 < 2 ^ (n - 1) <= 2 ^ 52).
  { split; [apply Z.pow_pos_nonneg; unfold n; lia |].
    apply Z.pow_le_mono_r; unfold n; lia. }
  assert (HL : 0 < 2 ^ l) by (apply Z.pow_pos_nonneg; lia).
  replace (e - er + 53) with (e - (l - 53 + er) + l) by lia.
  rewrite Z.pow_add_r by (unfold n in He; lia).
  set (V := Z.pos m * 2 ^ (e - (l - 53 + er))) in *.
  rewrite Z.mul_assoc. fold V.
  assert (HPL : Z.pos P * 2 ^ l = 2 ^ 52 * (w * Z.pos mr)).
  { rewrite HP, Hmw, Hsp. ring. }
  split; nia.
Qed.

Lemma focal_injective (w h : Z) (r : F64.t) :
  0 < w <= Int.INT_MAX ->
  0 < h <= Int.INT_MAX ->
  moderate r ->
  F64.mul (F64.mul F64.half (F64.of_int w)) r
  = F64.mul (F64.mul F64.half (F64.of_int h)) r ->
  w = h.
Proof.
  intros Hw Hh Hr Heq.
  destruct r as [| | | sr mr er]; try contradiction.
  destruct Hr as (Hd & He).
  destruct (focal_bounds w sr mr er Hw Hd He) as (m & e & Hfw & He0 & Hbw).
  destruct (focal_bounds h sr mr er Hh Hd He) as (m' & e' & Hfh & _ & Hbh).
  rewrite Hfw, Hfh in Heq. injection Heq as <- <-.
  assert (Hmrb : 2 ^ 52 <= Z.pos mr).
  { pose proof (Z.log2_spec (Z.pos mr) ltac:(lia)) as Hs.
    rewrite digits2_log2 in Hd.
    replace (Z.log2 (Z.pos mr)) with 52 in Hs by lia. lia. }
  unfold Int.INT_MAX in *.
  set (V := Z.pos m * 2 ^ (e - er + 53)) in *.
  change (2 ^ 52) with 4503599627370496 in *.
  destruct (Z.lt_trichotomy w h) as [Hlt | [Heq | Hgt]]; [exfalso | exact Heq | exfalso].
  - assert (Z.pos mr <= (h - w) * Z.pos mr) by nia. nia.
  - assert (Z.pos mr <= (w - h) * Z.pos mr) by nia. nia.
Qed.

(** ** Reachable states and runs *)

Section Reach.
Variable tan_finite : F64.t -> F64.t.
Variable cfg : Config.

Lemma reachable_consistent (st : Ros2RangeFinder) (w : World) :
  reachable tan_finite cfg st w -> consistent tan_finite cfg st.
Proof.
  induction 1 as [st w Hinit | st w tk st' w' _ IH Hstep].
  - now apply init_Some in Hinit.
  - eapply step_consistent; eassumption.
Qed.

Lemma reachable_constants (st : Ros2RangeFinder) (w : World) :
  reachable tan_finite cfg st w ->
  mAlwaysOn st = cfg_alwaysOn cfg /\
  mPublishTimestepSyncedMs st = cfg_publishTimestepSyncedMs cfg.
Proof.
  intros H. apply reachable_consistent in H.
  destruct H as (_ & _ & _ & _ & Ha & Hp & _). auto.
Qed.

Lemma reachable_mirror (st : Ros2RangeFinder) (w : World) :
  reachable tan_finite cfg st w -> mIsEnabled st = sensorEnabled w.
Proof.
  induction 1 as [st w Hinit | st w tk st' w' _ IH Hstep].
  - apply init_Some in Hinit as (_ & -> & -> & _). cbn. now rewrite orb_false_r.
  - apply step_trace in Hstep as (_ & -> & _).
    destruct (Bool.eqb (mIsEnabled st') (mIsEnabled st)) eqn:E; [| reflexivity].
    apply eqb_prop in E. congruence.
Qed.

Lemma run_total (tks : list Tick) :
  Forall (tick_ok cfg) tks ->
  forall (st : Ros2RangeFinder) (w : World),
    consistent tan_finite cfg st ->
    exists st' w', run st tks w = Some (st', w') /\ consistent tan_finite cfg st'.
Proof.
  induction 1 as [| tk tks Hok _ IH]; intros st w Hc; cbn [run].
  - eauto.
  - destruct (step_total tan_finite cfg st tk w Hc Hok) as (st1 & w1 & -> & Hc1).
    cbn [bind]. apply IH, Hc1.
Qed.

Lemma run_reachable (tks : list Tick) :
  forall (st : Ros2RangeFinder) (w : World) (st' : Ros2RangeFinder) (w' : World),
    reachable tan_finite cfg st w ->
    run st tks w = Some (st', w') ->
    reachable tan_finite cfg st' w'.
Proof.
  induction tks as [| tk tks IH]; intros st w st' w' Hr Hrun; cbn [run] in Hrun.
  - now injection Hrun as <- <-.
  - apply bind_Some in Hrun as ([st1 w1] & Hs & Hrun).
    eapply IH; [| exact Hrun]. eapply reach_step; eassumption.
Qed.
End Reach.

Lemma run_commands (tks : list Tick) :
  forall (st : Ros2RangeFinder) (w : World) (st' : Ros2RangeFinder) (w' : World),
    run st tks w = Some (st', w') ->
    mAlwaysOn st = false ->
    Forall (fun tk => preStep tk = true) tks ->
    commands (trace w') =
      commands (trace w)
      ++ edges (mPublishTimestepSyncedMs st) (mIsEnabled st) (map subscription_count tks).
Proof.
  induction tks as [| tk tks IH]; intros st w st' w' Hrun Hao Hpre; cbn [run] in Hrun.
  - injection Hrun as <- <-. cbn. now rewrite app_nil_r.
  - apply bind_Some in Hrun as ([st1 w1] & Hs & Hrun).
    inversion Hpre as [| ? ? Hp Hpre']; subst.
    pose proof (step_flag _ _ _ _ _ Hs) as (Hf & Ha & Hper & _).
    rewrite Hp, Hao in Hf. cbn in Hf.
    rewrite (IH _ _ _ _ Hrun) by (congruence || assumption).
    rewrite (step_commands _ _ _ _ _ Hs), Hper, Hf, <- app_assoc. reflexivity.
Qed.

Lemma run_always_on (tks : list Tick) :
  forall (st : Ros2RangeFinder) (w : World) (st' : Ros2RangeFinder) (w' : World),
    run st tks w = Some (st', w') ->
    mAlwaysOn st = true ->
    commands (trace w') = commands (trace w) /\ mIsEnabled st' = mIsEnabled st /\
    sensorEnabled w' = sensorEnabled w.
Proof.
  induction tks as [| tk tks IH]; intros st w st' w' Hrun Hao; cbn [run] in Hrun.
  - now injection Hrun as <- <-.
  - apply bind_Some in Hrun as ([st1 w1] & Hs & Hrun).
    pose proof (step_flag _ _ _ _ _ Hs) as (Hf & Ha & _).
    rewrite Hao, andb_false_r in Hf.
    pose proof (step_trace _ _ _ _ _ Hs) as (_ & Hse & _).
    rewrite Hf, eqb_reflx in Hse.
    destruct (IH _ _ _ _ Hrun ltac:(congruence)) as (-> & -> & ->).
    rewrite (step_commands _ _ _ _ _ Hs), Hf, edge_same, app_nil_r. auto.
Qed.

Lemma decode_encode (fs : list Z) :
  Forall (fun f => 0 <= f < 2 ^ 32) fs -> decode_f32 (encode_f32 fs) = fs.
Proof.
  induction 1 as [| f fs Hf _ IH]; [reflexivity |].
  unfold encode_f32 in *. cbn [flat_map].
  change (le_split 4 f) with
    [byte.of_Z f; byte.of_Z (Z.shiftr f 8); byte.of_Z (Z.shiftr (Z.shiftr f 8) 8);
     byte.of_Z (Z.shiftr (Z.shiftr (Z.shiftr f 8) 8) 8)].
  cbn [app decode_f32]. rewrite IH. f_equal.
  change [byte.of_Z f; byte.of_Z (Z.shiftr f 8); byte.of_Z (Z.shiftr (Z.shiftr f 8) 8);
          byte.of_Z (Z.shiftr (Z.shiftr (Z.shiftr f 8) 8) 8)] with (le_split 4 f).
  rewrite le_combine_split. apply Z.mod_small. exact Hf.
Qed.

(** ** Facts the claims share *)

(** [init] is defined on every geometry whose buffer sizes fit an [int]. *)
Lemma init_defined (tan_finite : F64.t -> F64.t) (cfg : Config) (w0 : World) :
  0 <= cfg_width cfg ->
  0 <= cfg_height cfg <= Int.INT_MAX ->
  12 * cfg_width cfg <= Int.INT_MAX ->
  12 * cfg_width cfg * cfg_height cfg <= Int.INT_MAX ->
  exists st w, init tan_finite cfg w0 = Some (st, w).
Proof.
  intros Hw Hh H12 Hsize. unfold init, Int.mul, resize.
  unfold Int.INT_MAX in *.
  repeat first
    [ rewrite checked_in_range by (unfold Int.INT_MIN, Int.INT_MAX; nia); cbn [bind]
    | match goal with
      | |- context [if ?n <? 0 then _ else _] =>
          destruct (Z.ltb_spec n 0); [nia |]; cbn [bind]
      end ].
  destruct (mAlwaysOn _); eauto.
Qed.

(** Beyond that the sizes overflow, which is undefined behaviour. *)
Example init_undefined_on_overflow :
  init tan_one
    {| cfg_frameName := "range_finder"%string;
       cfg_alwaysOn := false;
       cfg_publishTimestepSyncedMs := 32;
       cfg_width := 65536;
       cfg_height := 65536;
       cfg_fov := fov_half_pi;
       cfg_now := 0 |} power_on
  = None.
Proof. reflexivity. Qed.

(** The bit patterns of a few values, and back. *)
Example f32_bits :
  map F32.to_bits [F32.of_int 1; F32.of_int 2; F32.neg (F32.of_int 2); F32.of_f64 F64_pi]
  = [1065353216; 1073741824; 3221225472; 1078530011] /\
  map (fun w => F32.to_bits (F32.of_bits w))
    [0; 1; 8388607; 8388608; 2139095039; 2139095040; 2143289344; 2147483648; 4286578688]
  = [0; 1; 8388607; 8388608; 2139095039; 2139095040; 2143289344; 2147483648; 4286578688].
Proof. split; reflexivity. Qed.

(** The sample device, always on, after [init]. *)
Lemma sample_reachable :
  exists st w, reachable tan_one (sample_cfg true fov_half_pi) st w.
Proof.
  destruct (init tan_one (sample_cfg true fov_half_pi) power_on) as [[st w] |] eqn:E.
  - exists st, w. now apply reach_init.
  - vm_compute in E. discriminate.
Defined.

(** When [step] publishes, the image is the whole raw buffer and every pixel of
    the cloud was projected from it. *)
Lemma step_published (tan_finite : F64.t -> F64.t) (cfg : Config)
  (st : Ros2RangeFinder) (tk : Tick) (w : World) (st' : Ros2RangeFinder) (w' : World)
  (raw : list byte) :
  consistent tan_finite cfg st ->
  step st tk w = Some (st', w') ->
  preStep tk = true -> mIsEnabled st = true -> rangeImage tk = Some raw ->
  len raw = 4 * cfg_width cfg * cfg_height cfg ->
  img_data (mImageMessage st') = raw /\
  forall i j, 0 <= i < cfg_width cfg -> 0 <= j < cfg_height cfg ->
    pixel_done raw (cfg_width cfg)
      (F32.of_f64 (principalPoint (cfg_width cfg)))
      (F32.of_f64 (principalPoint (cfg_height cfg)))
      (F32.of_f64 (focalLength tan_finite (cfg_width cfg) (cfg_fov cfg)))
      (F32.of_f64 (focalLength tan_finite (cfg_height cfg) (cfg_fov cfg)))
      (pc_data (mPointCloudMessage st')) i j.
Proof.
  intros Hc Hs Hpre He Hr Hl.
  destruct (step_inv _ _ _ _ _ Hs Hpre) as (st1 & w1 & Hp & _ & _ & _ & _ & Hres).
  destruct (publish_if_enabled_available tan_finite cfg st tk w raw Hc He Hr Hl)
    as (st1' & w1' & Hp' & _ & Hi & Hd).
  rewrite Hp in Hp'. injection Hp' as <- <-.
  assert (Hm : mImageMessage st' = mImageMessage st1 /\
               mPointCloudMessage st' = mPointCloudMessage st1).
  { destruct (mAlwaysOn st).
    - injection Hres as -> ->. auto.
    - pose proof (toggle_spec st1 (subscription_count tk) w1) as (Hst & _).
      rewrite <- Hres in Hst. cbn [fst] in Hst. subst st'. auto. }
  destruct Hm as (-> & ->). auto.
Qed.

Lemma Forall_prefix {A : Type} (P : A -> Prop) (l : list A) :
  Forall P l -> forall k, Forall P (firstn k l).
Proof.
  induction 1 as [| a l Ha _ IH]; intros [| k]; cbn; constructor; auto.
Qed.

(** [init] sends [Enable] exactly when it sets the flag. *)
Lemma init_commands (tan_finite : F64.t -> F64.t) (cfg : Config)
  (st : Ros2RangeFinder) (w : World) :
  init tan_finite cfg power_on = Some (st, w) ->
  commands (trace w) = edge (cfg_publishTimestepSyncedMs cfg) false (mIsEnabled st).
Proof.
  intros H. apply init_Some in H as (_ & -> & _ & ->).
  destruct (cfg_alwaysOn cfg); reflexivity.
Qed.

(** The commands after the first [k] ticks of a run that is not always on. *)
Lemma run_prefix_commands (tan_finite : F64.t -> F64.t) (cfg : Config)
  (st0 : Ros2RangeFinder) (w0 : World) (tks : list Tick) (k : nat) :
  init tan_finite cfg power_on = Some (st0, w0) ->
  cfg_alwaysOn cfg = false ->
  Forall (fun tk => preStep tk = true /\ tick_ok cfg tk) tks ->
  option_map (fun r => commands (trace (snd r))) (run st0 (firstn k tks) w0) =
    Some (edges (cfg_publishTimestepSyncedMs cfg) false
            (firstn k (map subscription_count tks))).
Proof.
  intros Hinit Hao Hall.
  pose proof (init_commands _ _ _ _ Hinit) as Hcmd.
  apply init_Some in Hinit as (Hc & He & _).
  rewrite Hao in He. rewrite He in Hcmd. cbn in Hcmd.
  assert (Hall' : Forall (fun tk => preStep tk = true /\ tick_ok cfg tk) (firstn k tks))
    by (apply Forall_prefix; exact Hall).
  destruct (run_total tan_finite cfg (firstn k tks)
              ltac:(eapply Forall_impl; [| exact Hall']; cbn; tauto) st0 w0 Hc)
    as (st & w & Hrun & _).
  rewrite Hrun. cbn [option_map snd]. f_equal.
  pose proof Hc as (_ & _ & _ & _ & Ha & Hp & _).
  rewrite (run_commands _ _ _ _ _ Hrun) by
    first [congruence | eapply Forall_impl; [| exact Hall']; cbn; tauto].
  rewrite Hcmd, He, Hp, firstn_map. reflexivity.
Qed.

(** [(double)dim / 2] is [dim / 2], with no rounding. *)
Lemma principalPoint_exact (w : Z) :
  0 < w <= Int.INT_MAX -> exactly (principalPoint w) w 2.
Proof.
  intros Hw. rewrite principalPoint_pos by assumption.
  unfold Int.INT_MAX in Hw.
  assert (Hlog : 0 <= Z.log2 w < 31).
  { split; [apply Z.log2_nonneg |]. apply Z.log2_lt_pow2; lia. }
  unfold exactly. destruct (Z.leb_spec 0 (Z.log2 w - 53)); [lia |].
  cbn [cond_Zopp]. rewrite Z2Pos.id by nia.
  replace (- (Z.log2 w - 53)) with (52 - Z.log2 w + 1) by lia.
  rewrite Z.pow_add_r by lia. lia.
Qed.

(** Ticks refused by [preStep] change nothing. *)
Lemma run_refused (refused tks : list Tick) (st : Ros2RangeFinder) (w : World) :
  Forall (fun tk => preStep tk = false) refused ->
  run st (refused ++ tks) w = run st tks w.
Proof.
  induction 1 as [| tk refused Htk _ IH]; [reflexivity |].
  cbn [app run]. rewrite (step_skipped st tk w Htk). exact IH.
Qed.

(** [init] only needs the tangent of half the field of view. *)
Lemma init_tan_at (tan_finite : F64.t -> F64.t) (t : F64.t) (cfg : Config) (w : World) :
  tan_finite (F64.mul F64.half (cfg_fov cfg)) = t ->
  init tan_finite cfg w = init (fun _ => t) cfg w /\
  init_cameraInfo tan_finite cfg = init_cameraInfo (fun _ => t) cfg.
Proof.
  intros H.
  assert (Ht : tan tan_finite (F64.mul F64.half (cfg_fov cfg))
               = tan (fun _ => t) (F64.mul F64.half (cfg_fov cfg))).
  { unfold tan. destruct (F64.mul F64.half (cfg_fov cfg)) eqn:E; try reflexivity.
    exact H. }
  assert (Hci : init_cameraInfo tan_finite cfg = init_cameraInfo (fun _ => t) cfg).
  { unfold init_cameraInfo, focalLength. now rewrite Ht. }
  split; [| exact Hci].
  unfold init. now rewrite Hci.
Qed.

(** * The claims *)

(** C1.  In every reachable state, for every raw buffer of width * height
    floats, [publishPointCloud] succeeds and afterwards, for every pixel
    [(i, j)], the point at linear index [i + j * width] (three floats from
    float index [3 * (i + j * width)]) is: [x], the 32-bit pattern read from
    the raw buffer at [i + j * width], unchanged whatever it encodes (NaN and
    infinities included); [y = -(i - cx) * x / fx]; [z = -(j - cy) * x / fy],
    in single precision, with [cx], [cy], [fx], [fy] the entries 2, 5, 0, 4 of
    the calibration matrix K converted to [float]. *)
Theorem point_cloud_projection (tan_finite : F64.t -> F64.t) (cfg : Config)
  (st : Ros2RangeFinder) (w : World) (raw : list byte) (now : Z) :
  reachable tan_finite cfg st w ->
  len raw = 4 * cfg_width cfg * cfg_height cfg ->
  let width := cfg_width cfg in
  let height := cfg_height cfg in
  let K := ci_k (mCameraInfoMessage st) in
  let cx := F32.of_f64 (at_k K 2) in
  let cy := F32.of_f64 (at_k K 5) in
  let fx := F32.of_f64 (at_k K 0) in
  let fy := F32.of_f64 (at_k K 4) in
  exists st' w',
    publishPointCloud st (Some raw) now w = Some (st', w') /\
    forall i j, 0 <= i < width -> 0 <= j < height ->
      exists x,
        load_f32 raw (i + j * width) = Some x /\
        load_f32 (pc_data (mPointCloudMessage st')) (3 * (i + j * width)) = Some x /\
        load_f32 (pc_data (mPointCloudMessage st')) (3 * (i + j * width) + 1) =
          Some (F32.to_bits
                  (F32.div (F32.mul (F32.neg (F32.sub (F32.of_int i) cx)) (F32.of_bits x))
                           fx)) /\
        load_f32 (pc_data (mPointCloudMessage st')) (3 * (i + j * width) + 2) =
          Some (F32.to_bits
                  (F32.div (F32.mul (F32.neg (F32.sub (F32.of_int j) cy)) (F32.of_bits x))
                           fy)).
Proof.
  intros Hr Hraw width height K cx cy fx fy.
  apply reachable_consistent in Hr.
  destruct (publishPointCloud_available tan_finite cfg st raw now w Hr Hraw)
    as (data & _ & _ & Hdone & Hpub).
  destruct Hr as (_ & _ & _ & _ & _ & _ & Hci & _).
  eexists _, _. split; [exact Hpub |].
  intros i j Hi Hj. specialize (Hdone i j Hi Hj).
  subst K cx cy fx fy. rewrite Hci. exact Hdone.
Qed.

Lemma point_cloud_projection_witness :
  exists st w raw,
    reachable tan_one (sample_cfg true fov_half_pi) st w /\
    len raw = 4 * 2 * 1 /\
    exists st' w',
      publishPointCloud st (Some raw) 7 w = Some (st', w') /\
      forall i j, 0 <= i < 2 -> 0 <= j < 1 ->
        exists x,
          load_f32 raw (i + j * 2) = Some x /\
          load_f32 (pc_data (mPointCloudMessage st')) (3 * (i + j * 2)) = Some x /\
          load_f32 (pc_data (mPointCloudMessage st')) (3 * (i + j * 2) + 1) =
            Some (F32.to_bits
                    (F32.div (F32.mul (F32.neg (F32.sub (F32.of_int i)
                                (F32.of_f64 (at_k (ci_k (mCameraInfoMessage st)) 2))))
                              (F32.of_bits x))
                             (F32.of_f64 (at_k (ci_k (mCameraInfoMessage st)) 0)))) /\
          load_f32 (pc_data (mPointCloudMessage st')) (3 * (i + j * 2) + 2) =
            Some (F32.to_bits
                    (F32.div (F32.mul (F32.neg (F32.sub (F32.of_int j)
                                (F32.of_f64 (at_k (ci_k (mCameraInfoMessage st)) 5))))
                              (F32.of_bits x))
                             (F32.of_f64 (at_k (ci_k (mCameraInfoMessage st)) 4)))).
Proof.
  destruct sample_reachable as (st & w & Hr).
  exists st, w, sample_raw. split; [exact Hr |]. split; [reflexivity |].
  exact (point_cloud_projection tan_one (sample_cfg true fov_half_pi) st w sample_raw 7
           Hr eq_refl).
Defined.

(** C2, as amended.  For [0 < width, height <= INT_MAX] and every field of
    view, the camera info [init] derives has
    [fx = 0.5 * width * (1 / tan(0.5 * fov))] and
    [fy = 0.5 * height * (1 / tan(0.5 * fov))] as evaluated in double
    precision, [cx = width / 2] and [cy = height / 2] with no rounding,
    [fx = fy] when [width = height], and conversely [width = height] when
    [fx = fy] and the reciprocal [1 / tan(0.5 * fov)] is a normal double
    between [2^-948] and [2^953]; D is five zeros, R the 3x3 identity,
    [K = [fx 0 cx; 0 fy cy; 0 0 1]], [P = [K | 0]]; and this record is the one
    [init] stores and publishes. *)
Theorem calibration_record (tan_finite : F64.t -> F64.t) (cfg : Config) :
  0 < cfg_width cfg <= Int.INT_MAX ->
  0 < cfg_height cfg <= Int.INT_MAX ->
  let ci := init_cameraInfo tan_finite cfg in
  let fx := at_k (ci_k ci) 0 in
  let fy := at_k (ci_k ci) 4 in
  let cx := at_k (ci_k ci) 2 in
  let cy := at_k (ci_k ci) 5 in
  let r := F64.div F64.one (tan tan_finite (F64.mul F64.half (cfg_fov cfg))) in
  fx = F64.mul (F64.mul F64.half (F64.of_int (cfg_width cfg))) r /\
  fy = F64.mul (F64.mul F64.half (F64.of_int (cfg_height cfg))) r /\
  exactly cx (cfg_width cfg) 2 /\
  exactly cy (cfg_height cfg) 2 /\
  (cfg_width cfg = cfg_height cfg -> fx = fy) /\
  (moderate r -> fx = fy -> cfg_width cfg = cfg_height cfg) /\
  ci_d ci = [F64.zero; F64.zero; F64.zero; F64.zero; F64.zero] /\
  ci_r ci = [F64.one; F64.zero; F64.zero;
             F64.zero; F64.one; F64.zero;
             F64.zero; F64.zero; F64.one] /\
  ci_k ci = [fx; F64.zero; cx;
             F64.zero; fy; cy;
             F64.zero; F64.zero; F64.one] /\
  ci_p ci = [fx; F64.zero; cx; F64.zero;
             F64.zero; fy; cy; F64.zero;
             F64.zero; F64.zero; F64.one; F64.zero] /\
  forall w0 st w1,
    init tan_finite cfg w0 = Some (st, w1) ->
    mCameraInfoMessage st = ci /\ In (PublishCameraInfo ci) (trace w1).
Proof.
  intros Hw Hh ci fx fy cx cy r.
  repeat split; try reflexivity.
  - now apply principalPoint_exact.
  - now apply principalPoint_exact.
  - intros Heq. subst fx fy ci. cbn [init_cameraInfo ci_k at_k nth]. now rewrite Heq.
  - intros Hr Heq. exact (focal_injective _ _ r Hw Hh Hr Heq).
  - apply init_Some in H as (Hc & _). now destruct Hc as (_ & _ & _ & _ & _ & _ & Hci & _).
  - apply init_Some in H as (_ & _ & _ & ->).
    apply in_or_app. right. now left.
Qed.

Lemma calibration_record_witness :
  at_k (ci_k (init_cameraInfo tan_one (sample_cfg false fov_half_pi))) 0 = F64.one /\
  at_k (ci_k (init_cameraInfo tan_one (sample_cfg false fov_half_pi))) 4 = F64.half /\
  exactly (at_k (ci_k (init_cameraInfo tan_one (sample_cfg false fov_half_pi))) 2) 2 2 /\
  exactly (at_k (ci_k (init_cameraInfo tan_one (sample_cfg false fov_half_pi))) 5) 1 2.
Proof.
  pose proof (calibration_record tan_one (sample_cfg false fov_half_pi)
                ltac:(cbn; unfold Int.INT_MAX; lia) ltac:(cbn; unfold Int.INT_MAX; lia))
    as (Hfx & Hfy & Hcx & Hcy & _ & _).
  split; [rewrite Hfx; reflexivity |].
  split; [rewrite Hfy; reflexivity |].
  split; [exact Hcx | exact Hcy].
Defined.

(** C2, as stated, fails.  The smallest positive double is a field of view
    in (0, pi); its half rounds to zero, the tangent of zero is zero, the
    reciprocal is +infinity, and [fx = fy = +infinity] although
    [width = 2] and [height = 1] differ. *)
Lemma calibration_equal_focal_lengths_on_overflow :
  (SFltb F64.zero fov_tiny = true /\ SFltb fov_tiny F64_pi = true) /\
  cfg_width (sample_cfg false fov_tiny) <> cfg_height (sample_cfg false fov_tiny) /\
  forall tan_finite : F64.t -> F64.t,
    at_k (ci_k (init_cameraInfo tan_finite (sample_cfg false fov_tiny))) 0
      = S754_infinity false /\
    at_k (ci_k (init_cameraInfo tan_finite (sample_cfg false fov_tiny))) 4
      = S754_infinity false.
Proof.
  split; [split; reflexivity |]. split; [discriminate |].
  intros tan_finite. split; reflexivity.
Qed.

(** C3.  Not always on, initialised on a fresh device, and fed the
    subscription counts [0, 0, 3, 3, 0] on five ticks that pass [preStep]:
    the run is defined and the commands sent after 0, 1, ..., 5 ticks are
    none, none, none, [Enable], [Enable], [Enable; Disable] -- two commands,
    at the 0 to 3 and the 3 to 0 transitions.  On every tick of any state
    that is not always on, no command is sent when the demand equals the
    enabled flag; and no tick sends more than one command, or sends one
    without changing the flag. *)
Theorem activation_edge_triggered (tan_finite : F64.t -> F64.t) (cfg : Config)
  (st0 : Ros2RangeFinder) (w0 : World) (tks : list Tick) :
  init tan_finite cfg power_on = Some (st0, w0) ->
  cfg_alwaysOn cfg = false ->
  map subscription_count tks = [0; 0; 3; 3; 0]%N ->
  Forall (fun tk => preStep tk = true /\ tick_ok cfg tk) tks ->
  let period := cfg_publishTimestepSyncedMs cfg in
  map (fun k => option_map (fun r => commands (trace (snd r))) (run st0 (firstn k tks) w0))
      [0; 1; 2; 3; 4; 5]%nat
  = [Some []; Some []; Some []; Some [Enable period]; Some [Enable period];
     Some [Enable period; Disable]] /\
  (forall st tk w st' w',
     step st tk w = Some (st', w') ->
     mAlwaysOn st = false ->
     (0 <? subscription_count tk)%N = mIsEnabled st ->
     commands (trace w') = commands (trace w)) /\
  (forall st tk w st' w',
     step st tk w = Some (st', w') ->
     exists c, commands (trace w') = commands (trace w) ++ c /\
               (length c <= 1)%nat /\
               (c <> [] -> mIsEnabled st' <> mIsEnabled st)).
Proof.
  intros Hinit Hao Hcounts Hall period. split; [| split].
  - cbn [map].
    rewrite !(run_prefix_commands tan_finite cfg st0 w0 tks _ Hinit Hao Hall), Hcounts.
    reflexivity.
  - intros st tk w st' w' Hs Ha Hsame.
    pose proof (step_flag _ _ _ _ _ Hs) as (Hf & _).
    rewrite (step_commands _ _ _ _ _ Hs), Hf, Ha.
    destruct (preStep tk); cbn; rewrite ?Hsame, edge_same, app_nil_r; reflexivity.
  - intros st tk w st' w' Hs.
    exists (edge (mPublishTimestepSyncedMs st) (mIsEnabled st) (mIsEnabled st')).
    split; [exact (step_commands _ _ _ _ _ Hs) |].
    destruct (mIsEnabled st), (mIsEnabled st'); cbn; split; try lia; congruence.
Qed.

Lemma activation_edge_triggered_witness :
  exists st0 w0,
    init tan_one (sample_cfg false fov_half_pi) power_on = Some (st0, w0) /\
    option_map (fun r => commands (trace (snd r)))
      (run st0 (map (sample_tick (Some sample_raw)) [0; 0; 3; 3; 0]%N) w0)
    = Some [Enable 32; Disable].
Proof.
  destruct (init tan_one (sample_cfg false fov_half_pi) power_on) as [[st0 w0] |] eqn:E;
    [| vm_compute in E; discriminate].
  exists st0, w0. split; [reflexivity |].
  pose proof (activation_edge_triggered tan_one (sample_cfg false fov_half_pi) st0 w0
                (map (sample_tick (Some sample_raw)) [0; 0; 3; 3; 0]%N)
                E eq_refl eq_refl
                ltac:(repeat constructor)) as (H & _).
  cbn [map] in H. injection H as _ _ _ _ _ H. exact H.
Defined.

(** C4, as amended.  [step] publishes before it looks at the demand.  Not
    always on, on a tick that passes [preStep]: the depth image and the point
    cloud are published exactly when the enabled flag left by the previous
    ticks is set and the raw buffer is available, whatever the subscription
    count of this tick; the flag then becomes [count > 0].  So on the tick
    where the count first becomes positive from idle nothing is published and
    [Enable] is sent.  On the very next tick that passes [preStep], after any
    number of refused ticks, both frames are published exactly when the raw
    buffer is available on that tick, whatever its count, and the flag
    follows the count of that tick: when the buffer is unavailable there and
    the count is back to 0, no frame is published for that demand. *)
Theorem emission_follows_enabled_flag (tan_finite : F64.t -> F64.t) (cfg : Config)
  (st : Ros2RangeFinder) (w : World) (tk : Tick) :
  reachable tan_finite cfg st w ->
  cfg_alwaysOn cfg = false ->
  tick_ok cfg tk ->
  preStep tk = true ->
  exists st' w',
    step st tk w = Some (st', w') /\
    frames (trace w') =
      frames (trace w)
      ++ (if mIsEnabled st && available tk
          then [PublishImage (mImageMessage st'); PublishPointCloud (mPointCloudMessage st')]
          else []) /\
    mIsEnabled st' = (0 <? subscription_count tk)%N /\
    (mIsEnabled st = false -> (0 <? subscription_count tk)%N = true ->
     frames (trace w') = frames (trace w) /\
     commands (trace w') =
       commands (trace w) ++ [Enable (cfg_publishTimestepSyncedMs cfg)] /\
     forall refused tk2,
       Forall (fun t => preStep t = false) refused ->
       tick_ok cfg tk2 -> preStep tk2 = true ->
       exists st2 w2,
         run st' (refused ++ [tk2]) w' = Some (st2, w2) /\
         frames (trace w2) =
           frames (trace w')
           ++ (if available tk2
               then [PublishImage (mImageMessage st2);
                     PublishPointCloud (mPointCloudMessage st2)]
               else []) /\
         mIsEnabled st2 = (0 <? subscription_count tk2)%N).
Proof.
  intros Hr Hao Hok Hpre.
  pose proof (reachable_consistent _ _ _ _ Hr) as Hc.
  pose proof (reachable_constants _ _ _ _ Hr) as (Ha & Hp).
  destruct (step_total tan_finite cfg st tk w Hc Hok) as (st' & w' & Hs & Hc').
  exists st', w'. split; [exact Hs |].
  pose proof (step_frames _ _ _ _ _ Hs) as Hf. rewrite Hpre in Hf. cbn [andb] in Hf.
  pose proof (step_flag _ _ _ _ _ Hs) as (Hflag & _).
  rewrite Hpre, Ha, Hao in Hflag. cbn in Hflag.
  split; [exact Hf |]. split; [exact Hflag |].
  intros Hidle Hdemand. rewrite Hidle in Hf. cbn in Hf. rewrite app_nil_r in Hf.
  split; [exact Hf |]. split.
  - rewrite (step_commands _ _ _ _ _ Hs), Hflag, Hidle, Hdemand, Hp. reflexivity.
  - intros refused tk2 Hrefused Hok2 Hpre2.
    destruct (step_total tan_finite cfg st' tk2 w' Hc' Hok2) as (st2 & w2 & Hs2 & _).
    exists st2, w2. split; [| split].
    + rewrite (run_refused refused [tk2] st' w' Hrefused). cbn [run]. now rewrite Hs2.
    + rewrite (step_frames _ _ _ _ _ Hs2), Hpre2, Hflag, Hdemand. reflexivity.
    + pose proof (step_flag _ _ _ _ _ Hs2) as (Hflag2 & _).
      pose proof (step_flag _ _ _ _ _ Hs) as (_ & Ha' & _).
      rewrite Hpre2, Ha', Ha, Hao in Hflag2. exact Hflag2.
Qed.

Lemma emission_follows_enabled_flag_witness :
  exists st w,
    reachable tan_one (sample_cfg false fov_half_pi) st w /\
    exists st' w' st2 w2,
      step st (sample_tick (Some sample_raw) 3) w = Some (st', w') /\
      frames (trace w') = frames (trace w) /\
      mIsEnabled st' = true /\
      run st' [{| preStep := false; rangeImage := Some sample_raw; now_image := 3;
                  now_cloud := 4; subscription_count := 3 |};
               sample_tick (Some sample_raw) 0] w' = Some (st2, w2) /\
      frames (trace w2) =
        frames (trace w')
        ++ [PublishImage (mImageMessage st2); PublishPointCloud (mPointCloudMessage st2)] /\
      mIsEnabled st2 = false.
Proof.
  destruct (init tan_one (sample_cfg false fov_half_pi) power_on) as [[st w] |] eqn:E;
    [| vm_compute in E; discriminate].
  exists st, w. split; [now apply reach_init |].
  destruct (emission_follows_enabled_flag tan_one (sample_cfg false fov_half_pi) st w
              (sample_tick (Some sample_raw) 3) (reach_init _ _ _ _ E)
              eq_refl eq_refl eq_refl)
    as (st' & w' & Hs & _ & Hflag & Hfirst).
  assert (Hidle : mIsEnabled st = false) by now apply init_Some in E as (_ & -> & _).
  destruct (Hfirst Hidle eq_refl) as (Hnone & _ & Hnext).
  destruct (Hnext [{| preStep := false; rangeImage := Some sample_raw; now_image := 3;
                      now_cloud := 4; subscription_count := 3 |}]
                  (sample_tick (Some sample_raw) 0)
                  ltac:(repeat constructor) eq_refl eq_refl)
    as (st2 & w2 & Hrun & Hframes & Hflag2).
  exists st', w', st2, w2.
  split; [exact Hs |]. split; [exact Hnone |]. split; [exact Hflag |].
  split; [exact Hrun |]. split; [exact Hframes | exact Hflag2].
Defined.

(** C4, as stated, fails.  From idle, a tick with three subscribers and the
    raw buffer available: the trace holds the camera info of [init] and the
    [Enable] command, and neither a depth image nor a point cloud. *)
Lemma no_emission_on_first_demand :
  option_map (fun r => map kind_of (trace (snd r)))
    ('(st, w) <- init tan_one (sample_cfg false fov_half_pi) power_on ;;
     step st (sample_tick (Some sample_raw) 3) w)
  = Some [KCameraInfo; KEnable].
Proof. vm_compute. reflexivity. Qed.

(** C5.  In every reachable state [step] is defined on a tick whose raw
    buffer is unavailable or has the device's size.  When it is unavailable,
    no depth image and no point cloud is published and both buffers are as
    they were.  On every tick, either nothing is published, or the image and
    the cloud are published together, the image buffer being the whole raw
    buffer and every pixel of the cloud being the projection of this raw
    buffer: nothing partially written reaches the publishers. *)
Theorem skip_on_unavailable (tan_finite : F64.t -> F64.t) (cfg : Config)
  (st : Ros2RangeFinder) (w : World) (tk : Tick) :
  reachable tan_finite cfg st w ->
  tick_ok cfg tk ->
  let width := cfg_width cfg in
  let height := cfg_height cfg in
  let K := ci_k (mCameraInfoMessage st) in
  let cx := F32.of_f64 (at_k K 2) in
  let cy := F32.of_f64 (at_k K 5) in
  let fx := F32.of_f64 (at_k K 0) in
  let fy := F32.of_f64 (at_k K 4) in
  exists st' w',
    step st tk w = Some (st', w') /\
    (rangeImage tk = None ->
     frames (trace w') = frames (trace w) /\
     img_data (mImageMessage st') = img_data (mImageMessage st) /\
     pc_data (mPointCloudMessage st') = pc_data (mPointCloudMessage st)) /\
    (frames (trace w') = frames (trace w) \/
     exists raw,
       rangeImage tk = Some raw /\
       frames (trace w') =
         frames (trace w)
         ++ [PublishImage (mImageMessage st'); PublishPointCloud (mPointCloudMessage st')] /\
       img_data (mImageMessage st') = raw /\
       forall i j, 0 <= i < width -> 0 <= j < height ->
         pixel_done raw width cx cy fx fy (pc_data (mPointCloudMessage st')) i j).
Proof.
  intros Hr Hok width height K cx cy fx fy.
  apply reachable_consistent in Hr.
  destruct (step_total tan_finite cfg st tk w Hr Hok) as (st' & w' & Hs & _).
  exists st', w'. split; [exact Hs |].
  pose proof (step_frames _ _ _ _ _ Hs) as Hf.
  pose proof (step_trace _ _ _ _ _ Hs) as (_ & _ & Hkeep).
  split.
  - intros Hnone. unfold available in Hf, Hkeep. rewrite Hnone, andb_false_r in Hf, Hkeep.
    rewrite app_nil_r in Hf. destruct (Hkeep eq_refl) as (-> & ->). auto.
  - destruct (preStep tk && mIsEnabled st && available tk) eqn:E.
    2: { left. now rewrite Hf, app_nil_r. }
    right. apply andb_prop in E as (E & Hav). apply andb_prop in E as (Hpre & He).
    unfold available in Hav. unfold tick_ok in Hok.
    destruct (rangeImage tk) as [raw |] eqn:Hraw; [| discriminate].
    exists raw. split; [reflexivity |]. split; [exact Hf |].
    destruct (step_published tan_finite cfg st tk w st' w' raw Hr Hs Hpre He Hraw Hok)
      as (Hi & Hd).
    split; [exact Hi |].
    destruct Hr as (_ & _ & _ & _ & _ & _ & Hci & _).
    subst K cx cy fx fy. rewrite Hci. exact Hd.
Qed.

Lemma skip_on_unavailable_witness :
  exists st w,
    reachable tan_one (sample_cfg true fov_half_pi) st w /\
    mIsEnabled st = true /\
    exists st' w',
      step st (sample_tick None 1) w = Some (st', w') /\
      frames (trace w') = frames (trace w) /\
      img_data (mImageMessage st') = img_data (mImageMessage st) /\
      pc_data (mPointCloudMessage st') = pc_data (mPointCloudMessage st).
Proof.
  destruct (init tan_one (sample_cfg true fov_half_pi) power_on) as [[st w] |] eqn:E;
    [| vm_compute in E; discriminate].
  exists st, w. split; [now apply reach_init |].
  split; [now apply init_Some in E as (_ & -> & _) |].
  destruct (skip_on_unavailable tan_one (sample_cfg true fov_half_pi) st w
              (sample_tick None 1) (reach_init _ _ _ _ E) I)
    as (st' & w' & Hs & Hnone & _).
  exists st', w'. split; [exact Hs |]. exact (Hnone eq_refl).
Defined.

(** C6, as amended.  Width 2, height 1, field of view the double nearest to
    pi / 2, and a C library whose tangent of half of it is one of the two
    doubles around the true value, [1 - 2^-53] (correctly rounded) or 1.
    Then [cx = 1.0] and [cy = 0.5] exactly; the focal lengths of the camera
    info are [1 + 2^-52] and [0.5 + 2^-53] in the first case, 1.0 and 0.5 in
    the second; converted to [float], as [publishPointCloud] reads them,
    [fx = 1.0] and [fy = 0.5] in both; and the raw buffer [[2.0, 2.0]]
    projects to point 0 = [(2.0, 2.0, 2.0)] and point 1 = [(2.0, -0.0, 2.0)]. *)
Theorem scenario_projection (tan_finite : F64.t -> F64.t) :
  let t := tan_finite (F64.mul F64.half fov_half_pi) in
  t = F64_below_one \/ t = F64.one ->
  let cfg := sample_cfg true fov_half_pi in
  let K := ci_k (init_cameraInfo tan_finite cfg) in
  (t = F64_below_one -> at_k K 0 = F64_above_one /\ at_k K 4 = F64_above_half) /\
  (t = F64.one -> at_k K 0 = F64.one /\ at_k K 4 = F64.half) /\
  at_k K 2 = F64.one /\
  at_k K 5 = F64.half /\
  F32.of_f64 (at_k K 0) = F32.of_int 1 /\
  F32.of_f64 (at_k K 4) = F32.of_f64 F64.half /\
  exists st w st' w',
    init tan_finite cfg power_on = Some (st, w) /\
    publishPointCloud st (Some sample_raw) 0 w = Some (st', w') /\
    map F32.of_bits (decode_f32 (pc_data (mPointCloudMessage st')))
    = [F32.of_int 2; F32.of_int 2; F32.of_int 2;
       F32.of_int 2; S754_zero true; F32.of_int 2].
Proof.
  intros t H cfg K.
  destruct (init_tan_at tan_finite t cfg power_on eq_refl) as (Hinit & Hci).
  subst K. rewrite Hci, Hinit. clear Hci Hinit. clearbody t. subst cfg.
  destruct H as [-> | ->].
  - split; [intros _; split; vm_compute; reflexivity |].
    split; [intros H; vm_compute in H; discriminate |].
    do 4 (split; [vm_compute; reflexivity |]).
    destruct (init (fun _ => F64_below_one) (sample_cfg true fov_half_pi) power_on)
      as [[st w] |] eqn:E; [| vm_compute in E; discriminate].
    destruct (publishPointCloud st (Some sample_raw) 0 w) as [[st' w'] |] eqn:E';
      [| vm_compute in E; injection E as <- <-; vm_compute in E'; discriminate].
    exists st, w, st', w'. split; [reflexivity |]. split; [exact E' |].
    vm_compute in E. injection E as <- <-. vm_compute in E'. injection E' as <- <-.
    vm_compute. reflexivity.
  - split; [intros H; vm_compute in H; discriminate |].
    split; [intros _; split; vm_compute; reflexivity |].
    do 4 (split; [vm_compute; reflexivity |]).
    destruct (init (fun _ => F64.one) (sample_cfg true fov_half_pi) power_on)
      as [[st w] |] eqn:E; [| vm_compute in E; discriminate].
    destruct (publishPointCloud st (Some sample_raw) 0 w) as [[st' w'] |] eqn:E';
      [| vm_compute in E; injection E as <- <-; vm_compute in E'; discriminate].
    exists st, w, st', w'. split; [reflexivity |]. split; [exact E' |].
    vm_compute in E. injection E as <- <-. vm_compute in E'. injection E' as <- <-.
    vm_compute. reflexivity.
Qed.

Lemma scenario_projection_witness :
  let K := ci_k (init_cameraInfo tan_quarter_pi (sample_cfg true fov_half_pi)) in
  at_k K 0 = F64_above_one /\
  at_k K 4 = F64_above_half /\
  F32.of_f64 (at_k K 0) = F32.of_int 1 /\
  F32.of_f64 (at_k K 4) = F32.of_f64 F64.half /\
  exists st w st' w',
    init tan_quarter_pi (sample_cfg true fov_half_pi) power_on = Some (st, w) /\
    publishPointCloud st (Some sample_raw) 0 w = Some (st', w') /\
    map F32.of_bits (decode_f32 (pc_data (mPointCloudMessage st')))
    = [F32.of_int 2; F32.of_int 2; F32.of_int 2;
       F32.of_int 2; S754_zero true; F32.of_int 2].
Proof.
  pose proof (scenario_projection tan_quarter_pi (or_introl eq_refl))
    as (Hk & _ & _ & _ & Hfx & Hfy & Hpts).
  destruct (Hk eq_refl) as (Hk0 & Hk4).
  cbv zeta. split; [exact Hk0 |]. split; [exact Hk4 |].
  split; [exact Hfx |]. split; [exact Hfy | exact Hpts].
Defined.

(** C6, as stated, fails.  With the correctly rounded tangent the focal
    length [fy] of the camera info is [0.5 + 2^-53], and 0.5 as a [float],
    not 1.0, and the [z] of both points is 2.0, not 1.0.  A tangent of
    exactly 1 does not help: [fy] is then 0.5 and the points are the same. *)
Lemma scenario_focal_length_y_is_half :
  (at_k (ci_k (init_cameraInfo tan_quarter_pi (sample_cfg true fov_half_pi))) 4
   = F64_above_half /\
   F64_above_half <> F64.one /\
   F32.of_f64 F64_above_half = F32.of_f64 F64.half /\
   F32.of_f64 F64.half <> F32.of_int 1 /\
   option_map
     (fun r => map F32.of_bits (decode_f32 (pc_data (mPointCloudMessage (fst r)))))
     ('(st, w) <- init tan_quarter_pi (sample_cfg true fov_half_pi) power_on ;;
      publishPointCloud st (Some sample_raw) 0 w)
   = Some [F32.of_int 2; F32.of_int 2; F32.of_int 2;
           F32.of_int 2; S754_zero true; F32.of_int 2] /\
   F32.of_int 2 <> F32.of_int 1) /\
  (at_k (ci_k (init_cameraInfo tan_one (sample_cfg true fov_half_pi))) 4 = F64.half /\
   F64.half <> F64.one /\
   option_map
     (fun r => map F32.of_bits (decode_f32 (pc_data (mPointCloudMessage (fst r)))))
     ('(st, w) <- init tan_one (sample_cfg true fov_half_pi) power_on ;;
      publishPointCloud st (Some sample_raw) 0 w)
   = Some [F32.of_int 2; F32.of_int 2; F32.of_int 2;
           F32.of_int 2; S754_zero true; F32.of_int 2]).
Proof.
  split.
  - split; [reflexivity |]. split; [discriminate |].
    split; [reflexivity |]. split; [discriminate |].
    split; [vm_compute; reflexivity | discriminate].
  - split; [reflexivity |]. split; [discriminate |]. vm_compute; reflexivity.
Qed.

(** C7.  In every reachable state of a device of non-negative width, for
    every raw buffer of width * height floats, [publishImage] succeeds and
    publishes a message whose data is the raw buffer byte for byte, of
    [4 * width * height] bytes, with row length [4 * width], marked
    little-endian and 32FC1; decoding it least significant byte first gives
    back the 32-bit patterns the raw buffer encodes. *)
Theorem depth_image_roundtrip (tan_finite : F64.t -> F64.t) (cfg : Config)
  (st : Ros2RangeFinder) (w : World) (raw : list byte) (now : Z) :
  reachable tan_finite cfg st w ->
  0 <= cfg_width cfg ->
  len raw = 4 * cfg_width cfg * cfg_height cfg ->
  exists st' w',
    publishImage st (Some raw) now w = Some (st', w') /\
    trace w' = trace w ++ [PublishImage (mImageMessage st')] /\
    img_data (mImageMessage st') = raw /\
    len (img_data (mImageMessage st')) = 4 * cfg_width cfg * cfg_height cfg /\
    img_step (mImageMessage st') = 4 * cfg_width cfg /\
    img_is_bigendian (mImageMessage st') = false /\
    img_encoding (mImageMessage st') = TYPE_32FC1 /\
    forall fs, Forall (fun f => 0 <= f < 2 ^ 32) fs -> raw = encode_f32 fs ->
               decode_f32 (img_data (mImageMessage st')) = fs.
Proof.
  intros Hr Hw Hraw. apply reachable_consistent in Hr.
  rewrite (publishImage_available tan_finite cfg st raw now w Hr Hraw).
  destruct Hr as (_ & _ & H12 & _ & _ & _ & _ & Hi & _).
  eexists _, _. split; [reflexivity |]. cbn -[Z.mul].
  pose proof (f_equal img_step Hi) as Hstep.
  pose proof (f_equal img_is_bigendian Hi) as Hbig.
  pose proof (f_equal img_encoding Hi) as Henc.
  cbn -[Z.mul] in Hstep, Hbig, Henc.
  repeat split; try assumption.
  - rewrite Hstep. unfold Int.to_uint32, Int.size_mul, Int.to_size_t.
    unfold Int.INT_MAX in H12.
    change (1 * 4 mod 2 ^ 64) with 4.
    rewrite (Z.mod_small (cfg_width cfg)) by lia.
    rewrite (Z.mod_small (4 * cfg_width cfg) (2 ^ 64)) by lia.
    apply Z.mod_small. lia.
  - intros fs Hfs ->. now apply decode_encode.
Qed.

Lemma depth_image_roundtrip_witness :
  exists st w,
    reachable tan_one (sample_cfg true fov_half_pi) st w /\
    exists st' w',
      publishImage st (Some sample_raw) 7 w = Some (st', w') /\
      img_data (mImageMessage st') = sample_raw /\
      img_step (mImageMessage st') = 4 * 2 /\
      decode_f32 (img_data (mImageMessage st')) = [1073741824; 1073741824].
Proof.
  destruct sample_reachable as (st & w & Hr).
  exists st, w. split; [exact Hr |].
  destruct (depth_image_roundtrip tan_one (sample_cfg true fov_half_pi) st w sample_raw 7
              Hr ltac:(discriminate) eq_refl)
    as (st' & w' & Hp & _ & Hd & _ & Hs & _ & _ & Hrt).
  exists st', w'. split; [exact Hp |]. split; [exact Hd |]. split; [exact Hs |].
  apply Hrt; [| reflexivity].
  repeat constructor; cbn; lia.
Defined.

(** C8.  Always on: [init] on a fresh device sends exactly one [Enable] and
    sets the flag, and after any run the commands are still that one
    [Enable], with flag and sensor enabled.  Not always on: [init] sends no
    command and leaves flag and sensor disabled.  Runs are defined on ticks
    whose raw buffer is unavailable or has the device's size. *)
Theorem always_on_no_further_commands (tan_finite : F64.t -> F64.t) (cfg : Config)
  (st0 : Ros2RangeFinder) (w0 : World) :
  init tan_finite cfg power_on = Some (st0, w0) ->
  let period := cfg_publishTimestepSyncedMs cfg in
  (cfg_alwaysOn cfg = true ->
   mIsEnabled st0 = true /\ sensorEnabled w0 = true /\
   commands (trace w0) = [Enable period] /\
   forall tks st w,
     run st0 tks w0 = Some (st, w) ->
     commands (trace w) = [Enable period] /\ mIsEnabled st = true /\
     sensorEnabled w = true) /\
  (cfg_alwaysOn cfg = false ->
   mIsEnabled st0 = false /\ sensorEnabled w0 = false /\ commands (trace w0) = []) /\
  (forall tks, Forall (tick_ok cfg) tks -> exists st w, run st0 tks w0 = Some (st, w)).
Proof.
  intros Hinit period.
  pose proof (init_commands _ _ _ _ Hinit) as Hcmd.
  pose proof (init_Some _ _ _ _ _ Hinit) as (Hc & He & Hs & _).
  pose proof Hc as (_ & _ & _ & _ & Ha & _).
  fold period in Hcmd. cbn in Hs. rewrite orb_false_r in Hs.
  split; [| split].
  - intros Hon. rewrite Hon in He, Hs, Ha. rewrite He in Hcmd. cbn in Hcmd.
    repeat split; try assumption.
    all: intros; destruct (run_always_on _ _ _ _ _ H Ha) as (H1 & H2 & H3); congruence.
  - intros Hoff. rewrite Hoff in He, Hs. rewrite He in Hcmd. auto.
  - intros tks Hok.
    destruct (run_total tan_finite cfg tks Hok st0 w0 Hc) as (st & w & Hrun & _). eauto.
Qed.

Lemma always_on_no_further_commands_witness :
  exists st0 w0,
    init tan_one (sample_cfg true fov_half_pi) power_on = Some (st0, w0) /\
    commands (trace w0) = [Enable 32] /\
    exists st w,
      run st0 (map (sample_tick (Some sample_raw)) [0; 3; 0; 0; 5]%N) w0 = Some (st, w) /\
      commands (trace w) = [Enable 32].
Proof.
  destruct (init tan_one (sample_cfg true fov_half_pi) power_on) as [[st0 w0] |] eqn:E;
    [| vm_compute in E; discriminate].
  exists st0, w0. split; [reflexivity |].
  destruct (always_on_no_further_commands tan_one (sample_cfg true fov_half_pi) st0 w0 E)
    as (Hon & _ & Htotal).
  destruct (Hon eq_refl) as (_ & _ & Hcmd & Hrun).
  split; [exact Hcmd |].
  destruct (Htotal (map (sample_tick (Some sample_raw)) [0; 3; 0; 0; 5]%N)
              ltac:(repeat constructor)) as (st & w & Hr).
  exists st, w. split; [exact Hr |]. now apply (Hrun _ _ _ Hr).
Defined.

(** C9.  In every reachable state the enabled flag equals the sensor's
    enabled state.  [init] and every [step] send [Enable] exactly when they
    take the flag from false to true, [Disable] exactly when from true to
    false, and nothing otherwise; the flag equals the sensor's state again
    right after. *)
Theorem enabled_flag_mirrors_sensor (tan_finite : F64.t -> F64.t) (cfg : Config)
  (st : Ros2RangeFinder) (w : World) :
  reachable tan_finite cfg st w ->
  mIsEnabled st = sensorEnabled w /\
  (forall st0 w0,
     init tan_finite cfg power_on = Some (st0, w0) ->
     commands (trace w0) = edge (cfg_publishTimestepSyncedMs cfg) false (mIsEnabled st0) /\
     mIsEnabled st0 = sensorEnabled w0) /\
  (forall tk st' w',
     step st tk w = Some (st', w') ->
     commands (trace w') =
       commands (trace w)
       ++ edge (cfg_publishTimestepSyncedMs cfg) (mIsEnabled st) (mIsEnabled st') /\
     mIsEnabled st' = sensorEnabled w').
Proof.
  intros Hr. split; [now apply reachable_mirror in Hr |]. split.
  - intros st0 w0 Hinit. split; [now apply init_commands in Hinit |].
    apply (reachable_mirror tan_finite cfg). now apply reach_init.
  - intros tk st' w' Hs.
    pose proof (reachable_constants _ _ _ _ Hr) as (_ & Hp).
    split; [rewrite <- Hp; exact (step_commands _ _ _ _ _ Hs) |].
    apply (reachable_mirror tan_finite cfg). eapply reach_step; eassumption.
Qed.

Lemma enabled_flag_mirrors_sensor_witness :
  exists st w st' w',
    reachable tan_one (sample_cfg false fov_half_pi) st w /\
    step st (sample_tick (Some sample_raw) 0) w = Some (st', w') /\
    mIsEnabled st = true /\ sensorEnabled w = true /\
    commands (trace w) = [Enable 32] /\
    mIsEnabled st' = false /\ sensorEnabled w' = false /\
    commands (trace w') = [Enable 32; Disable].
Proof.
  destruct (init tan_one (sample_cfg false fov_half_pi) power_on) as [[st0 w0] |] eqn:E0;
    [| vm_compute in E0; discriminate].
  destruct (step st0 (sample_tick (Some sample_raw) 3) w0) as [[st w] |] eqn:E1;
    [| vm_compute in E0; injection E0 as <- <-; vm_compute in E1; discriminate].
  destruct (step st (sample_tick (Some sample_raw) 0) w) as [[st' w'] |] eqn:E2;
    [| vm_compute in E0; injection E0 as <- <-; vm_compute in E1; injection E1 as <- <-;
       vm_compute in E2; discriminate].
  pose proof (reach_init _ _ _ _ E0) as Hr0.
  pose proof (reach_step _ _ _ _ _ _ _ Hr0 E1) as Hr.
  destruct (enabled_flag_mirrors_sensor tan_one (sample_cfg false fov_half_pi) st0 w0 Hr0)
    as (_ & Hinit & Hstep0).
  destruct (Hinit _ _ E0) as (Hc0 & _).
  destruct (Hstep0 _ _ _ E1) as (Hc1 & _).
  destruct (enabled_flag_mirrors_sensor tan_one (sample_cfg false fov_half_pi) st w Hr)
    as (Hm & _ & Hstep).
  destruct (Hstep _ _ _ E2) as (Hc2 & Hm').
  assert (Hf0 : mIsEnabled st0 = false) by now apply init_Some in E0 as (_ & -> & _).
  assert (Hf1 : mIsEnabled st = true).
  { pose proof (step_flag _ _ _ _ _ E1) as (H & _).
    apply init_Some in E0 as (Hc & _). destruct Hc as (_ & _ & _ & _ & Ha & _).
    rewrite Ha in H. exact H. }
  assert (Hf2 : mIsEnabled st' = false).
  { pose proof (step_flag _ _ _ _ _ E2) as (H & _).
    pose proof (step_flag _ _ _ _ _ E1) as (_ & Ha1 & _).
    apply init_Some in E0 as (Hc & _). destruct Hc as (_ & _ & _ & _ & Ha & _).
    rewrite Ha1, Ha in H. exact H. }
  rewrite Hf0, Hf1 in Hc1. rewrite Hf0 in Hc0. rewrite Hc0 in Hc1.
  rewrite Hf1, Hf2, Hc1 in Hc2.
  exists st, w, st', w'.
  split; [exact Hr |]. split; [exact E2 |].
  split; [exact Hf1 |]. split; [now rewrite <- Hm |].
  split; [exact Hc1 |]. split; [exact Hf2 |]. split; [now rewrite <- Hm' |].
  exact Hc2.
Defined.

(** C10.  In every reachable state, for every raw buffer of width * height
    floats: the cloud buffer holds [3 * width * height] floats; for every
    pixel [(i, j)] the read index [i + j * width] is below [width * height],
    the write indices [3 * (i + j * width) + k], [k < 3], are below
    [3 * width * height], and the loop body, whose accesses are checked,
    succeeds on every buffer of that size; so the two loops and
    [publishPointCloud] return a result. *)
Theorem projection_in_bounds (tan_finite : F64.t -> F64.t) (cfg : Config)
  (st : Ros2RangeFinder) (w : World) (raw : list byte) (now : Z) :
  reachable tan_finite cfg st w ->
  len raw = 4 * cfg_width cfg * cfg_height cfg ->
  let width := cfg_width cfg in
  let height := cfg_height cfg in
  let K := ci_k (mCameraInfoMessage st) in
  let cx := F32.of_f64 (at_k K 2) in
  let cy := F32.of_f64 (at_k K 5) in
  let fx := F32.of_f64 (at_k K 0) in
  let fy := F32.of_f64 (at_k K 4) in
  let cloud := pc_data (mPointCloudMessage st) in
  len cloud = 4 * (3 * width * height) /\
  (forall i j, 0 <= i < width -> 0 <= j < height ->
     0 <= i + j * width < width * height /\
     (forall k, 0 <= k < 3 -> 0 <= 3 * (i + j * width) + k < 3 * width * height) /\
     (forall data, len data = len cloud ->
        exists data', project_pixel raw width cx cy fx fy j i data = Some data' /\
                      len data' = len data)) /\
  (exists data', project raw width height cx cy fx fy cloud = Some data' /\
                 len data' = len cloud) /\
  (exists st' w', publishPointCloud st (Some raw) now w = Some (st', w')).
Proof.
  intros Hr Hraw width height K cx cy fx fy cloud.
  apply reachable_consistent in Hr.
  destruct (publishPointCloud_available tan_finite cfg st raw now w Hr Hraw)
    as (data & Hproj & Hlen & _ & Hpub).
  destruct Hr as (_ & _ & _ & Hs & _ & _ & Hci & _ & _ & _ & Hcl).
  fold width height in Hs, Hcl, Hraw, Hlen. fold cloud in Hcl.
  subst K cx cy fx fy. rewrite Hci. cbn [init_cameraInfo ci_k at_k nth].
  fold width height.
  set (cx := F32.of_f64 (principalPoint width)).
  set (cy := F32.of_f64 (principalPoint height)).
  set (fx := F32.of_f64 (focalLength tan_finite width (cfg_fov cfg))).
  set (fy := F32.of_f64 (focalLength tan_finite height (cfg_fov cfg))).
  split; [lia |]. split; [| split].
  - intros i j Hi Hj. split; [nia |]. split; [intros k Hk; nia |].
    intros d Hd.
    destruct (project_pixel_spec raw width height cx cy fx fy Hs Hraw d i j
                ltac:(lia) Hi Hj) as (d' & Hp & Hl & _).
    eauto.
  - exists data. split; [exact Hproj | lia].
  - eauto.
Qed.

Lemma projection_in_bounds_witness :
  exists st w,
    reachable tan_one (sample_cfg true fov_half_pi) st w /\
    len sample_raw = 4 * 2 * 1 /\
    len (pc_data (mPointCloudMessage st)) = 4 * (3 * 2 * 1) /\
    exists st' w', publishPointCloud st (Some sample_raw) 7 w = Some (st', w').
Proof.
  destruct sample_reachable as (st & w & Hr).
  exists st, w. split; [exact Hr |]. split; [reflexivity |].
  pose proof (projection_in_bounds tan_one (sample_cfg true fov_half_pi) st w sample_raw 7
                Hr eq_refl) as (Hlen & _ & _ & Hpub).
  split; [exact Hlen | exact Hpub].
Defined.

(** * Further properties *)

(** ** The geometries [init] accepts *)

(** X1.  [init] returns normally exactly on the geometries whose sizes fit
    the [int] arithmetic of lines 39 to 89: width, height and [12 * width]
    are [int]s and [12 * width * height] lies between 0 and [INT_MAX].
    Outside, a product overflows or a buffer is asked a negative size. *)
Theorem init_defined_iff (tan_finite : F64.t -> F64.t) (cfg : Config) (w0 : World) :
  (exists st w, init tan_finite cfg w0 = Some (st, w)) <->
  (Int.INT_MIN <= cfg_width cfg <= Int.INT_MAX /\
   Int.INT_MIN <= cfg_height cfg <= Int.INT_MAX /\
   Int.INT_MIN <= 12 * cfg_width cfg <= Int.INT_MAX /\
   0 <= 12 * cfg_width cfg * cfg_height cfg <= Int.INT_MAX).
Proof.
  split.
  - intros (st & w & H). apply init_Some in H as (Hc & _).
    destruct Hc as (H1 & H2 & H3 & H4 & _). auto.
  - intros (Hw & Hh & H12 & Hs). unfold init, Int.mul, resize.
    unfold Int.INT_MIN, Int.INT_MAX in *.
    repeat first
      [ rewrite checked_in_range by (unfold Int.INT_MIN, Int.INT_MAX; nia); cbn [bind]
      | match goal with
        | |- context [if ?n <? 0 then _ else _] =>
            destruct (Z.ltb_spec n 0); [nia |]; cbn [bind]
        end ].
    destruct (mAlwaysOn _); eauto.
Qed.

(** ** The trace of a run *)

Lemma filter_edge_camera_info (p : Z) (a b : bool) :
  filter is_camera_info (edge p a b) = [].
Proof. destruct a, b; reflexivity. Qed.

Lemma step_camera_info (st : Ros2RangeFinder) (tk : Tick) (w : World)
  (st' : Ros2RangeFinder) (w' : World) :
  step st tk w = Some (st', w') ->
  filter is_camera_info (trace w') = filter is_camera_info (trace w) /\
  (trace w <> [] -> hd_error (trace w') = hd_error (trace w)).
Proof.
  intros H. apply step_trace in H as (-> & _ & _). split.
  - rewrite !filter_app, filter_edge_camera_info, app_nil_r.
    destruct (preStep tk && mIsEnabled st && available tk); cbn; now rewrite app_nil_r.
  - destruct (trace w); [congruence | reflexivity].
Qed.

(** X2.  The camera info is published once, by [init], before anything
    else; [step] never publishes it and never changes the stored record.
    In every reachable state the trace holds exactly one camera info, it is
    the first event, and it is the record [init] derived. *)
Theorem camera_info_published_once (tan_finite : F64.t -> F64.t) (cfg : Config)
  (st : Ros2RangeFinder) (w : World) :
  reachable tan_finite cfg st w ->
  filter is_camera_info (trace w) = [PublishCameraInfo (init_cameraInfo tan_finite cfg)] /\
  hd_error (trace w) = Some (PublishCameraInfo (init_cameraInfo tan_finite cfg)) /\
  mCameraInfoMessage st = init_cameraInfo tan_finite cfg.
Proof.
  induction 1 as [st w Hinit | st w tk st' w' _ (IH1 & IH2 & IH3) Hstep].
  - apply init_Some in Hinit as (Hc & _ & _ & ->). cbn [power_on trace app].
    destruct Hc as (_ & _ & _ & _ & _ & _ & Hci & _).
    destruct (cfg_alwaysOn cfg); cbn; auto.
  - pose proof (step_camera_info _ _ _ _ _ Hstep) as (Hf & Hh).
    pose proof (step_flag _ _ _ _ _ Hstep) as (_ & _ & _ & Hci).
    rewrite Hf, Hci. repeat split; try assumption.
    rewrite Hh; [assumption |]. destruct (trace w); [discriminate | congruence].
Qed.

Lemma camera_info_published_once_witness :
  exists st w,
    reachable tan_one (sample_cfg true fov_half_pi) st w /\
    map kind_of (trace w)
    = [KCameraInfo; KEnable; KImage; KPointCloud; KImage; KPointCloud] /\
    filter is_camera_info (trace w)
    = [PublishCameraInfo (init_cameraInfo tan_one (sample_cfg true fov_half_pi))].
Proof.
  destruct (init tan_one (sample_cfg true fov_half_pi) power_on) as [[st0 w0] |] eqn:E0;
    [| vm_compute in E0; discriminate].
  destruct (run st0 [sample_tick (Some sample_raw) 1; sample_tick None 1;
                     sample_tick (Some sample_raw) 0] w0) as [[st w] |] eqn:E1;
    [| vm_compute in E0; injection E0 as <- <-; vm_compute in E1; discriminate].
  pose proof (run_reachable _ _ _ _ _ _ _ (reach_init _ _ _ _ E0) E1) as Hr.
  exists st, w. split; [exact Hr |]. split.
  - vm_compute in E0. injection E0 as <- <-. vm_compute in E1. injection E1 as <- <-.
    reflexivity.
  - exact (proj1 (camera_info_published_once tan_one _ st w Hr)).
Defined.

(* commands alternate *)

Lemma alternating_snoc (p : Z) (n : nat) :
  forall b, alternating p b (S n) =
            alternating p b n ++ [if xorb b (Nat.odd n) then Disable else Enable p].
Proof.
  induction n as [| n IH]; intros b.
  - cbn. now rewrite xorb_false_r.
  - change (alternating p b (S (S n)))
      with ((if b then Disable else Enable p) :: alternating p (negb b) (S n)).
    rewrite IH. cbn [alternating app]. do 3 f_equal.
    rewrite Nat.odd_succ, <- Nat.negb_odd. destruct b, (Nat.odd n); reflexivity.
Qed.

Lemma alternating_edge (p : Z) (n : nat) (b' : bool) :
  exists n', alternating p false n ++ edge p (Nat.odd n) b' = alternating p false n' /\
             b' = Nat.odd n'.
Proof.
  destruct (Bool.bool_dec (Nat.odd n) b') as [<- | Hne].
  - exists n. now rewrite edge_same, app_nil_r.
  - exists (S n). rewrite alternating_snoc, Nat.odd_succ, <- Nat.negb_odd. cbn [xorb].
    destruct (Nat.odd n), b'; try congruence; auto.
Qed.

(** X3.  In every reachable state the commands sent to the device so far
    alternate, [Enable], [Disable], [Enable], ..., starting with [Enable]
    and each [Enable] carrying the configured sampling period; the enabled
    flag is set exactly when their number is odd.  So the device is never
    enabled twice in a row, and never disabled before it was enabled. *)
Theorem commands_alternate (tan_finite : F64.t -> F64.t) (cfg : Config)
  (st : Ros2RangeFinder) (w : World) :
  reachable tan_finite cfg st w ->
  exists n,
    commands (trace w) = alternating (cfg_publishTimestepSyncedMs cfg) false n /\
    mIsEnabled st = Nat.odd n.
Proof.
  induction 1 as [st w Hinit | st w tk st' w' Hr (n & IH1 & IH2) Hstep].
  - pose proof (init_commands _ _ _ _ Hinit) as ->.
    apply init_Some in Hinit as (_ & -> & _).
    destruct (cfg_alwaysOn cfg); [exists 1%nat | exists 0%nat]; auto.
  - pose proof (reachable_constants _ _ _ _ Hr) as (_ & Hp).
    rewrite (step_commands _ _ _ _ _ Hstep), Hp, IH1, IH2.
    destruct (alternating_edge (cfg_publishTimestepSyncedMs cfg) n (mIsEnabled st'))
      as (n' & -> & ->).
    eauto.
Qed.

Lemma commands_alternate_witness :
  exists st w n,
    reachable tan_one (sample_cfg false fov_half_pi) st w /\
    map kind_of (commands (trace w)) = [KEnable; KDisable; KEnable] /\
    commands (trace w) = alternating 32 false n /\ mIsEnabled st = Nat.odd n.
Proof.
  destruct (init tan_one (sample_cfg false fov_half_pi) power_on) as [[st0 w0] |] eqn:E0;
    [| vm_compute in E0; discriminate].
  destruct (run st0 (map (sample_tick (Some sample_raw)) [0; 2; 2; 0; 1]%N) w0)
    as [[st w] |] eqn:E1;
    [| vm_compute in E0; injection E0 as <- <-; vm_compute in E1; discriminate].
  pose proof (run_reachable _ _ _ _ _ _ _ (reach_init _ _ _ _ E0) E1) as Hr.
  destruct (commands_alternate tan_one _ st w Hr) as (n & H1 & H2).
  exists st, w, n. split; [exact Hr |]. split; [| split; [exact H1 | exact H2]].
  clear H1 H2 Hr.
  vm_compute in E0. injection E0 as <- <-. vm_compute in E1. injection E1 as <- <-.
  reflexivity.
Defined.

(* throttled runs *)

Lemma run_filter_preStep (tks : list Tick) :
  forall st w, run st (filter preStep tks) w = run st tks w.
Proof.
  induction tks as [| tk tks IH]; intros st w; [reflexivity |].
  cbn [filter]. destruct (preStep tk) eqn:Hp; cbn [run].
  - destruct (step st tk w) as [[st1 w1] |]; cbn [bind]; [apply IH | reflexivity].
  - rewrite step_skipped by assumption. cbn [bind]. apply IH.
Qed.

Lemma last_cons_default {A : Type} (l : list A) :
  forall a d, last (a :: l) d = last l a.
Proof.
  induction l as [| b l IH]; intros a d; [reflexivity |].
  change (last (a :: b :: l) d) with (last (b :: l) d). now rewrite !IH.
Qed.

Lemma run_flag (tks : list Tick) :
  forall (st : Ros2RangeFinder) (w : World) (st' : Ros2RangeFinder) (w' : World),
    run st tks w = Some (st', w') ->
    mAlwaysOn st = false ->
    Forall (fun tk => preStep tk = true) tks ->
    mIsEnabled st' =
      last (map (fun tk => (0 <? subscription_count tk)%N) tks) (mIsEnabled st).
Proof.
  induction tks as [| tk tks IH]; intros st w st' w' Hrun Hao Hpre; cbn [run] in Hrun.
  - now injection Hrun as <- <-.
  - apply bind_Some in Hrun as ([st1 w1] & Hs & Hrun).
    inversion Hpre as [| ? ? Hp Hpre']; subst.
    pose proof (step_flag _ _ _ _ _ Hs) as (Hf & Ha & _).
    rewrite Hp, Hao in Hf. cbn in Hf.
    rewrite (IH _ _ _ _ Hrun) by (congruence || assumption).
    rewrite Hf. cbn [map]. now rewrite last_cons_default.
Qed.

Lemma Forall_filter_preStep (tks : list Tick) :
  Forall (fun tk => preStep tk = true) (filter preStep tks).
Proof. apply Forall_forall. intros tk H. now apply filter_In in H. Qed.

Lemma length_edges (p : Z) (counts : list N) :
  forall b, (length (edges p b counts) <= length counts)%nat.
Proof.
  induction counts as [| c l IH]; intros b; cbn [edges length]; [lia |].
  rewrite length_app. specialize (IH (0 <? c)%N).
  destruct b, (0 <? c)%N; cbn [edge length]; lia.
Qed.

(** X4.  Not always on: a run over any ticks whose raw buffer is unavailable
    or has the device's size is defined; the ticks refused by [preStep]
    change nothing, so the run equals the run over the ticks that pass; the
    commands sent are exactly the changes of demand along those ticks, the
    flag ends as the demand of the last of them, and there is at most one
    command for each of them. *)
Theorem commands_follow_demand (tan_finite : F64.t -> F64.t) (cfg : Config)
  (st0 : Ros2RangeFinder) (w0 : World) (tks : list Tick) :
  init tan_finite cfg power_on = Some (st0, w0) ->
  cfg_alwaysOn cfg = false ->
  Forall (tick_ok cfg) tks ->
  let seen := filter preStep tks in
  exists st w,
    run st0 tks w0 = Some (st, w) /\
    run st0 seen w0 = Some (st, w) /\
    commands (trace w) =
      edges (cfg_publishTimestepSyncedMs cfg) false (map subscription_count seen) /\
    mIsEnabled st = last (map (fun tk => (0 <? subscription_count tk)%N) seen) false /\
    (length (commands (trace w)) <= length seen)%nat.
Proof.
  intros Hinit Hao Hok seen.
  pose proof (init_commands _ _ _ _ Hinit) as Hcmd.
  pose proof (init_Some _ _ _ _ _ Hinit) as (Hc & He & _).
  rewrite Hao in He. rewrite He in Hcmd. cbn in Hcmd.
  destruct (run_total tan_finite cfg tks Hok st0 w0 Hc) as (st & w & Hrun & _).
  exists st, w. split; [exact Hrun |].
  assert (Hseen : run st0 seen w0 = Some (st, w)) by (unfold seen; now rewrite run_filter_preStep).
  split; [exact Hseen |].
  pose proof Hc as (_ & _ & _ & _ & Ha & Hp & _).
  assert (Hcs : commands (trace w) =
                edges (cfg_publishTimestepSyncedMs cfg) false (map subscription_count seen)).
  { rewrite (run_commands _ _ _ _ _ Hseen) by
      first [congruence | apply Forall_filter_preStep].
    rewrite Hcmd, He, Hp. reflexivity. }
  split; [exact Hcs |]. split.
  - rewrite (run_flag _ _ _ _ _ Hseen) by first [congruence | apply Forall_filter_preStep].
    now rewrite He.
  - rewrite Hcs. etransitivity; [apply length_edges |]. now rewrite length_map.
Qed.

Lemma commands_follow_demand_witness :
  exists st0 w0 st w,
    init tan_one (sample_cfg false fov_half_pi) power_on = Some (st0, w0) /\
    run st0 [sample_tick None 2;
             {| preStep := false; rangeImage := None; now_image := 1; now_cloud := 2;
                subscription_count := 0 |};
             sample_tick (Some sample_raw) 1] w0 = Some (st, w) /\
    commands (trace w) = [Enable 32] /\ mIsEnabled st = true.
Proof.
  destruct (init tan_one (sample_cfg false fov_half_pi) power_on) as [[st0 w0] |] eqn:E;
    [| vm_compute in E; discriminate].
  destruct (commands_follow_demand tan_one (sample_cfg false fov_half_pi) st0 w0
              [sample_tick None 2;
               {| preStep := false; rangeImage := None; now_image := 1; now_cloud := 2;
                  subscription_count := 0 |};
               sample_tick (Some sample_raw) 1]
              E eq_refl ltac:(repeat constructor))
    as (st & w & Hrun & _ & Hcmd & Hflag & _).
  exists st0, w0, st, w. split; [reflexivity |]. split; [exact Hrun |].
  split; [exact Hcmd | exact Hflag].
Defined.

(** ** Loops and buffers, again *)

Lemma for_loop_ext {St : Type} (body body' : Z -> St -> option St) :
  forall (n : nat) (i : Z) (s : St),
    (forall k s, i <= k < i + Z.of_nat n -> body k s = body' k s) ->
    for_loop n i body s = for_loop n i body' s.
Proof.
  induction n as [| n IH]; intros i s H; [reflexivity |].
  cbn [for_loop]. rewrite (H i s) by lia.
  destruct (body' i s) as [s1 |]; cbn [bind]; [| reflexivity].
  apply IH. intros k s0 Hk. apply H. lia.
Qed.

(** A loop that finishes ran its body, successfully, at every index. *)
Lemma for_loop_ran {St : Type} (body : Z -> St -> option St) :
  forall (n : nat) (i : Z) (s s' : St),
    for_loop n i body s = Some s' ->
    forall k, i <= k < i + Z.of_nat n -> exists sk sk', body k sk = Some sk'.
Proof.
  induction n as [| n IH]; intros i s s' H k Hk; [lia |].
  cbn [for_loop] in H. apply bind_Some in H as (s1 & H1 & H2).
  destruct (Z.eq_dec k i) as [-> | Hne]; [eauto |].
  apply (IH _ _ _ H2). lia.
Qed.

Lemma load_f32_firstn (m : list byte) (n : nat) (k : Z) :
  0 <= k -> 4 * k + 4 <= Z.of_nat n -> (n <= length m)%nat ->
  load_f32 (firstn n m) k = load_f32 m k.
Proof.
  intros Hk Hn Hm. unfold load_f32, len. rewrite length_firstn.
  replace (Init.Nat.min n (length m)) with n by lia.
  destruct (Z.leb_spec 0 k); [| lia].
  destruct (Z.leb_spec (4 * k + 4) (Z.of_nat n)); [| lia].
  destruct (Z.leb_spec (4 * k + 4) (Z.of_nat (length m))); [| lia].
  cbn [andb]. do 2 f_equal.
  apply nth_error_ext. intros i. rewrite !nth_error_window.
  destruct (Nat.ltb_spec i 4); [| reflexivity].
  rewrite nth_error_firstn.
  destruct (Nat.ltb_spec (Z.to_nat (4 * k) + i) n); [reflexivity | lia].
Qed.

Lemma load_f32_Some (m : list byte) (k x : Z) :
  load_f32 m k = Some x -> 0 <= k /\ 4 * k + 4 <= len m.
Proof.
  unfold load_f32.
  destruct (Z.leb_spec 0 k); destruct (Z.leb_spec (4 * k + 4) (len m));
    cbn [andb]; try discriminate.
  auto.
Qed.

Lemma project_pixel_prefix (image : list byte) (n : nat) (width height : Z)
  (cx cy fx fy : F32.t) (j i : Z) (data : list byte) :
  4 * width * height <= Z.of_nat n -> (n <= length image)%nat ->
  0 <= i < width -> 0 <= j < height ->
  project_pixel (firstn n image) width cx cy fx fy j i data
  = project_pixel image width cx cy fx fy j i data.
Proof.
  intros Hn Hl Hi Hj. unfold project_pixel.
  destruct (Int.mul j width) as [jw |] eqn:Ejw; cbn [bind]; [| reflexivity].
  apply checked_Some in Ejw as [-> _].
  destruct (Int.add i (j * width)) as [idx |] eqn:Eidx; cbn [bind]; [| reflexivity].
  apply checked_Some in Eidx as [-> _].
  rewrite load_f32_firstn by nia. reflexivity.
Qed.

Lemma project_prefix (image : list byte) (n : nat) (width height : Z)
  (cx cy fx fy : F32.t) (data : list byte) :
  4 * width * height <= Z.of_nat n -> (n <= length image)%nat ->
  project (firstn n image) width height cx cy fx fy data
  = project image width height cx cy fx fy data.
Proof.
  intros Hn Hl. unfold project.
  apply for_loop_ext. intros j d Hj.
  apply for_loop_ext. intros i e Hi.
  apply (project_pixel_prefix image n width height); lia.
Qed.

Lemma project_short (image : list byte) (width height : Z) (cx cy fx fy : F32.t)
  (data : list byte) :
  0 < width -> 0 < height -> len image < 4 * width * height ->
  project image width height cx cy fx fy data = None.
Proof.
  intros Hw Hh Hshort.
  destruct (project image width height cx cy fx fy data) as [data' |] eqn:E;
    [exfalso | reflexivity].
  unfold project in E.
  destruct (for_loop_ran _ _ _ _ _ E (height - 1) ltac:(lia)) as (d & d' & Hrow).
  destruct (for_loop_ran _ _ _ _ _ Hrow (width - 1) ltac:(lia)) as (e & e' & Hpix).
  unfold project_pixel in Hpix.
  apply bind_Some in Hpix as (jw & Hjw & Hpix). apply checked_Some in Hjw as [-> _].
  apply bind_Some in Hpix as (idx & Hidx & Hpix). apply checked_Some in Hidx as [-> _].
  apply bind_Some in Hpix as (x & Hx & _).
  apply load_f32_Some in Hx. nia.
Qed.

Lemma load_f32_unfold (m : list byte) (k : Z) :
  0 <= k -> 4 * k + 4 <= len m ->
  load_f32 m k = Some (le_combine (firstn 4 (skipn (Z.to_nat (4 * k)) m))).
Proof.
  intros H0 H1. unfold load_f32.
  destruct (Z.leb_spec 0 k); [| lia].
  destruct (Z.leb_spec (4 * k + 4) (len m)); [| lia].
  reflexivity.
Qed.

Lemma buffer_ext (a b : list byte) (n : Z) :
  len a = 4 * n -> len b = 4 * n ->
  (forall k, 0 <= k < n -> load_f32 a k = load_f32 b k) ->
  a = b.
Proof.
  intros Ha Hb H. apply nth_error_ext. intros p.
  destruct (Nat.ltb_spec p (length a)) as [Hlt | Hge].
  2: { unfold len in *. rewrite (proj2 (nth_error_None a p)) by lia.
       symmetry. apply nth_error_None. lia. }
  unfold len in *.
  set (k := Z.of_nat p / 4).
  assert (Hk : 0 <= k < n).
  { unfold k. split; [apply Z.div_pos; lia | apply Z.div_lt_upper_bound; lia]. }
  pose proof (Z.div_mod (Z.of_nat p) 4 ltac:(lia)) as Hdm.
  pose proof (Z.mod_pos_bound (Z.of_nat p) 4 ltac:(lia)) as Hr.
  fold k in Hdm.
  specialize (H k Hk).
  rewrite !load_f32_unfold in H by (unfold len; lia).
  set (wa := firstn 4 (skipn (Z.to_nat (4 * k)) a)) in *.
  set (wb := firstn 4 (skipn (Z.to_nat (4 * k)) b)) in *.
  assert (H' : le_combine wa = le_combine wb) by congruence.
  assert (Hla : length wa = 4%nat).
  { unfold wa. rewrite length_firstn, length_skipn. lia. }
  assert (Hlb : length wb = 4%nat).
  { unfold wb. rewrite length_firstn, length_skipn. lia. }
  assert (Hw : wa = wb).
  { rewrite <- (split_le_combine' wa 4 Hla), <- (split_le_combine' wb 4 Hlb). now rewrite H'. }
  pose proof (f_equal (fun l => nth_error l (Z.to_nat (Z.of_nat p mod 4))) Hw) as Hn.
  cbn beta in Hn. unfold wa, wb in Hn. rewrite !nth_error_window in Hn.
  destruct (Nat.ltb_spec (Z.to_nat (Z.of_nat p mod 4)) 4); [| lia].
  replace (Z.to_nat (4 * k) + Z.to_nat (Z.of_nat p mod 4))%nat with p in Hn by lia.
  exact Hn.
Qed.

Lemma len_encode_f32 (fs : list Z) : len (encode_f32 fs) = 4 * Z.of_nat (length fs).
Proof.
  unfold len, encode_f32. induction fs as [| f fs IH]; [reflexivity |].
  cbn [flat_map length]. rewrite length_app, length_le_split. lia.
Qed.

Lemma load_f32_encode (fs : list Z) :
  forall k : nat,
    (k < length fs)%nat ->
    load_f32 (encode_f32 fs) (Z.of_nat k) = Some (nth k fs 0 mod 2 ^ 32).
Proof.
  induction fs as [| f fs IH]; intros k Hk; [cbn in Hk; lia |].
  pose proof (len_encode_f32 (f :: fs)) as Hl.
  pose proof (len_encode_f32 fs) as Hl'.
  cbn [length] in Hl, Hk.
  rewrite load_f32_unfold by lia.
  change (encode_f32 (f :: fs)) with (le_split 4 f ++ encode_f32 fs).
  assert (Hls : @length byte (le_split 4 f) = 4%nat) by apply length_le_split.
  destruct k as [| k].
  - change (Z.to_nat (4 * Z.of_nat 0)) with 0%nat. rewrite skipn_O.
    rewrite firstn_app, Hls. replace (4 - 4)%nat with 0%nat by lia.
    rewrite firstn_O, app_nil_r.
    rewrite firstn_all2 by lia.
    cbn [nth]. f_equal. apply le_combine_split.
  - specialize (IH k ltac:(lia)).
    rewrite load_f32_unfold in IH by lia.
    cbn [nth]. rewrite <- IH. do 3 f_equal.
    replace (Z.to_nat (4 * Z.of_nat (S k))) with (Z.to_nat (4 * Z.of_nat k) + 4)%nat by lia.
    rewrite <- skipn_skipn.
    rewrite (skipn_app 4), Hls. replace (4 - 4)%nat with 0%nat by lia.
    rewrite (skipn_all2 (n := 4) (le_split 4 f)) by (rewrite Hls; lia).
    reflexivity.
Qed.

(** ** Publishing from any raw buffer *)

Lemma pixel_done_prefix (image : list byte) (n : nat) (width height : Z)
  (cx cy fx fy : F32.t) (data : list byte) (i j : Z) :
  4 * width * height <= Z.of_nat n -> (n <= length image)%nat ->
  0 <= i < width -> 0 <= j < height ->
  pixel_done (firstn n image) width cx cy fx fy data i j <->
  pixel_done image width cx cy fx fy data i j.
Proof.
  intros Hn Hl Hi Hj. unfold pixel_done.
  rewrite load_f32_firstn by nia. reflexivity.
Qed.

Lemma image_with_same (m1 m2 : Image) (stamp : Z) (data : list byte) :
  image_with m1 0 [] = image_with m2 0 [] ->
  image_with m1 stamp data = image_with m2 stamp data.
Proof. unfold image_with. intros [= -> -> -> -> -> ->]. reflexivity. Qed.

Lemma cloud_with_same (m1 m2 : PointCloud2) (stamp : Z) (data : list byte) :
  cloud_with m1 0 [] = cloud_with m2 0 [] ->
  cloud_with m1 stamp data = cloud_with m2 stamp data.
Proof. unfold cloud_with. intros [= -> -> -> -> -> -> ->]. reflexivity. Qed.

Section PublishAny.
Variable tan_finite : F64.t -> F64.t.
Variable cfg : Config.

Let width := cfg_width cfg.
Let height := cfg_height cfg.
Let cx := F32.of_f64 (principalPoint width).
Let cy := F32.of_f64 (principalPoint height).
Let fx := F32.of_f64 (focalLength tan_finite width (cfg_fov cfg)).
Let fy := F32.of_f64 (focalLength tan_finite height (cfg_fov cfg)).
Let size := Z.to_nat (4 * width * height).

Lemma publishImage_any (st : Ros2RangeFinder) (raw : list byte) (now : Z) (w : World) :
  consistent tan_finite cfg st ->
  publishImage st (Some raw) now w =
    if 4 * width * height <=? len raw
    then Some (with_ImageMessage st (image_with (mImageMessage st) now (firstn size raw)),
               emit (PublishImage (image_with (mImageMessage st) now (firstn size raw))) w)
    else None.
Proof.
  intros Hc. destruct Hc as (_ & _ & _ & _ & _ & _ & _ & _ & _ & Hil & _).
  fold width height in Hil.
  unfold publishImage, memcpy_all. rewrite Hil.
  destruct (4 * width * height <=? len raw); [| reflexivity].
  cbn [bind]. replace (length (img_data (mImageMessage st))) with size; [reflexivity |].
  unfold size, len in *. lia.
Qed.

Lemma publishPointCloud_prefix (st : Ros2RangeFinder) (raw : list byte) (now : Z)
  (w : World) :
  consistent tan_finite cfg st ->
  4 * width * height <= len raw ->
  publishPointCloud st (Some (firstn size raw)) now w = publishPointCloud st (Some raw) now w.
Proof.
  intros Hc Hraw.
  destruct Hc as (Hw & Hh & _ & Hs & _ & _ & Hci & _).
  fold width height in Hw, Hh, Hs.
  unfold publishPointCloud. rewrite Hci.
  cbn [init_cameraInfo ci_width ci_height ci_k at_k nth].
  rewrite !uint32_roundtrip by assumption. fold width height.
  rewrite project_prefix; [reflexivity | unfold size; lia | unfold size, len in *; lia].
Qed.

Lemma publishPointCloud_any (st : Ros2RangeFinder) (raw : list byte) (now : Z)
  (w : World) :
  consistent tan_finite cfg st ->
  4 * width * height <= len raw ->
  exists data,
    len data = 12 * width * height /\
    (forall i j, 0 <= i < width -> 0 <= j < height ->
                 pixel_done raw width cx cy fx fy data i j) /\
    (forall i j, 0 <= i < width -> 0 <= j < height ->
                 pixel_done (firstn size raw) width cx cy fx fy data i j) /\
    publishPointCloud st (Some raw) now w =
      Some (with_PointCloudMessage st (cloud_with (mPointCloudMessage st) now data),
            emit (PublishPointCloud (cloud_with (mPointCloudMessage st) now data)) w).
Proof.
  intros Hc Hraw.
  assert (H0 : 0 <= 4 * width * height).
  { destruct Hc as (_ & _ & _ & Hs & _). fold width height in Hs. lia. }
  assert (Hlen : len (firstn size raw) = 4 * width * height).
  { unfold len in *. rewrite length_firstn. unfold size. lia. }
  destruct (publishPointCloud_available tan_finite cfg st (firstn size raw) now w Hc Hlen)
    as (data & _ & Hl & Hd & Hp).
  fold width height cx cy fx fy in Hl, Hd.
  rewrite publishPointCloud_prefix in Hp by assumption.
  exists data. split; [exact Hl |]. split; [| split; [exact Hd | exact Hp]].
  intros i j Hi Hj.
  apply (pixel_done_prefix raw size width height); try assumption.
  - unfold size. lia.
  - unfold size, len in *. lia.
  - now apply Hd.
Qed.

Lemma step_published_any (st : Ros2RangeFinder) (tk : Tick) (w : World)
  (st' : Ros2RangeFinder) (w' : World) (raw : list byte) :
  consistent tan_finite cfg st ->
  step st tk w = Some (st', w') ->
  preStep tk = true -> mIsEnabled st = true -> rangeImage tk = Some raw ->
  4 * width * height <= len raw /\
  mImageMessage st' = image_with (mImageMessage st) (now_image tk) (firstn size raw) /\
  exists data,
    mPointCloudMessage st' = cloud_with (mPointCloudMessage st) (now_cloud tk) data /\
    len data = 12 * width * height /\
    (forall i j, 0 <= i < width -> 0 <= j < height ->
                 pixel_done raw width cx cy fx fy data i j) /\
    (forall i j, 0 <= i < width -> 0 <= j < height ->
                 pixel_done (firstn size raw) width cx cy fx fy data i j).
Proof.
  intros Hc Hs Hpre He Hr.
  destruct (step_inv _ _ _ _ _ Hs Hpre) as (st1 & w1 & Hp & _ & _ & _ & _ & Hres).
  assert (Hm : mImageMessage st' = mImageMessage st1 /\
               mPointCloudMessage st' = mPointCloudMessage st1).
  { destruct (mAlwaysOn st).
    - injection Hres as -> ->. auto.
    - pose proof (toggle_spec st1 (subscription_count tk) w1) as (Hst & _).
      rewrite <- Hres in Hst. cbn [fst] in Hst. subst st'. auto. }
  destruct Hm as (-> & ->).
  unfold publish_if_enabled in Hp. rewrite He, Hr in Hp.
  rewrite publishImage_any in Hp by assumption.
  destruct (Z.leb_spec (4 * width * height) (len raw)) as [Hraw | Hraw];
    [| discriminate].
  cbn [bind] in Hp.
  assert (Hlen : len (firstn size raw) = 4 * width * height).
  { pose proof Hc as (_ & _ & _ & Hsz & _). fold width height in Hsz.
    unfold len in *. rewrite length_firstn. unfold size. lia. }
  pose proof (consistent_image tan_finite cfg st (now_image tk) _ Hc Hlen) as Hc1.
  destruct (publishPointCloud_any _ raw (now_cloud tk)
              (emit (PublishImage (image_with (mImageMessage st) (now_image tk)
                                     (firstn size raw))) w) Hc1 Hraw)
    as (data & Hl & Hd & Hd' & Hpub).
  rewrite Hpub in Hp. injection Hp as <- <-.
  split; [exact Hraw |]. split; [reflexivity |].
  exists data. repeat split; assumption.
Qed.
End PublishAny.

Lemma paired_app (P : Image -> PointCloud2 -> Prop) :
  forall (n : nat) (l l' : list event),
    (length l <= n)%nat -> paired P l -> paired P l' -> paired P (l ++ l').
Proof.
  induction n as [| n IH]; intros l l' Hn Hl Hl'.
  - destruct l; [exact Hl' | cbn in Hn; lia].
  - destruct l as [| a [| b l]]; [exact Hl' | destruct a; contradiction |].
    destruct a; try contradiction. destruct b; try contradiction.
    cbn [paired app] in Hl |- *. destruct Hl as (Hp & Hl). split; [exact Hp |].
    apply IH; [cbn in Hn; lia | assumption | assumption].
Qed.

Lemma consistent_same_frame (tan_finite : F64.t -> F64.t) (cfg : Config)
  (st : Ros2RangeFinder) :
  consistent tan_finite cfg st ->
  (forall i j, 0 <= i < cfg_width cfg -> 0 <= j < cfg_height cfg ->
     pixel_done (img_data (mImageMessage st)) (cfg_width cfg)
       (F32.of_f64 (principalPoint (cfg_width cfg)))
       (F32.of_f64 (principalPoint (cfg_height cfg)))
       (F32.of_f64 (focalLength tan_finite (cfg_width cfg) (cfg_fov cfg)))
       (F32.of_f64 (focalLength tan_finite (cfg_height cfg) (cfg_fov cfg)))
       (pc_data (mPointCloudMessage st)) i j) ->
  same_frame tan_finite cfg (mImageMessage st) (mPointCloudMessage st).
Proof.
  intros (_ & _ & _ & _ & _ & _ & _ & Hi & Hpc & Hil & Hcl) Hd.
  unfold same_frame. auto.
Qed.

(** X5.  In every reachable state the frames published so far come in
    pairs, a depth image and then a point cloud; both messages of a pair
    carry the fields [init] set (only stamp and data differ), both buffers
    are full, and every point of the cloud is the projection of the pixel of
    the image published just before it. *)
Theorem frames_published_in_pairs (tan_finite : F64.t -> F64.t) (cfg : Config)
  (st : Ros2RangeFinder) (w : World) :
  reachable tan_finite cfg st w ->
  paired (same_frame tan_finite cfg) (frames (trace w)).
Proof.
  induction 1 as [st w Hinit | st w tk st' w' Hr IH Hstep].
  - apply init_Some in Hinit as (_ & _ & _ & ->). cbn [power_on trace app].
    destruct (cfg_alwaysOn cfg); exact I.
  - pose proof (reachable_consistent _ _ _ _ Hr) as Hc.
    pose proof (step_consistent _ _ _ _ _ _ _ Hc Hstep) as Hc'.
    rewrite (step_frames _ _ _ _ _ Hstep).
    apply (paired_app _ (length (frames (trace w)))); [lia | exact IH |].
    destruct (preStep tk && mIsEnabled st && available tk) eqn:E; [| exact I].
    apply andb_prop in E as (E & Hav). apply andb_prop in E as (Hpre & He).
    unfold available in Hav. destruct (rangeImage tk) as [raw |] eqn:Hraw; [| discriminate].
    cbn [paired]. split; [| exact I].
    apply consistent_same_frame; [exact Hc' |].
    destruct (step_published_any tan_finite cfg st tk w st' w' raw Hc Hstep Hpre He Hraw)
      as (_ & Him & data & Hpc & _ & _ & Hd).
    rewrite Him, Hpc. exact Hd.
Qed.

Lemma frames_published_in_pairs_witness :
  exists st w st' w',
    reachable tan_one (sample_cfg true fov_half_pi) st w /\
    step st (sample_tick (Some sample_raw) 0) w = Some (st', w') /\
    frames (trace w') = [PublishImage (mImageMessage st');
                         PublishPointCloud (mPointCloudMessage st')] /\
    paired (same_frame tan_one (sample_cfg true fov_half_pi)) (frames (trace w')).
Proof.
  destruct (init tan_one (sample_cfg true fov_half_pi) power_on) as [[st w] |] eqn:E;
    [| vm_compute in E; discriminate].
  pose proof (reach_init _ _ _ _ E) as Hr.
  destruct (step st (sample_tick (Some sample_raw) 0) w) as [[st' w'] |] eqn:E';
    [| vm_compute in E; injection E as <- <-; vm_compute in E'; discriminate].
  exists st, w, st', w'. split; [exact Hr |]. split; [exact E' |]. split.
  - rewrite (step_frames _ _ _ _ _ E').
    apply init_Some in E as (_ & -> & _ & ->). reflexivity.
  - exact (frames_published_in_pairs tan_one _ st' w' (reach_step _ _ _ _ _ _ _ Hr E')).
Defined.

(** ** How much of the raw buffer is read *)

(** X6.  [publishImage] copies exactly [4 * width * height] bytes, the size
    of its own buffer: from a longer raw buffer it publishes the first
    [4 * width * height] bytes, stamped with the clock; on a shorter one the
    [memcpy] reads past the end and the call has no defined result. *)
Theorem publishImage_reads_buffer_size (tan_finite : F64.t -> F64.t) (cfg : Config)
  (st : Ros2RangeFinder) (w : World) (raw : list byte) (now : Z) :
  reachable tan_finite cfg st w ->
  let n := 4 * cfg_width cfg * cfg_height cfg in
  (n <= len raw ->
   exists st' w',
     publishImage st (Some raw) now w = Some (st', w') /\
     img_data (mImageMessage st') = firstn (Z.to_nat n) raw /\
     img_stamp (mImageMessage st') = now /\
     trace w' = trace w ++ [PublishImage (mImageMessage st')]) /\
  (len raw < n -> publishImage st (Some raw) now w = None).
Proof.
  intros Hr n. apply reachable_consistent in Hr.
  rewrite (publishImage_any tan_finite cfg st raw now w Hr). fold n.
  split; intros H.
  - destruct (Z.leb_spec n (len raw)); [| lia].
    eexists _, _. split; [reflexivity |]. cbn. auto.
  - destruct (Z.leb_spec n (len raw)); [lia | reflexivity].
Qed.

Lemma publishImage_reads_buffer_size_witness :
  exists st w,
    reachable tan_one (sample_cfg true fov_half_pi) st w /\
    (exists st' w',
       publishImage st (Some (sample_raw ++ sample_raw)) 7 w = Some (st', w') /\
       img_data (mImageMessage st') = sample_raw) /\
    publishImage st (Some (firstn 7 sample_raw)) 7 w = None.
Proof.
  destruct sample_reachable as (st & w & Hr).
  exists st, w. split; [exact Hr |]. split.
  - destruct (proj1 (publishImage_reads_buffer_size tan_one _ st w
                       (sample_raw ++ sample_raw) 7 Hr) ltac:(vm_compute; discriminate))
      as (st' & w' & Hp & Hd & _).
    exists st', w'. split; [exact Hp | exact Hd].
  - apply (proj2 (publishImage_reads_buffer_size tan_one _ st w (firstn 7 sample_raw) 7 Hr)).
    reflexivity.
Defined.

Lemma for_loop_skip {St : Type} (n : nat) (i : Z) (s : St) :
  for_loop n i (fun _ s => Some s) s = Some s.
Proof. revert i. induction n as [| n IH]; intros i; cbn; auto. Qed.

Lemma project_empty (image : list byte) (width height : Z) (cx cy fx fy : F32.t)
  (data : list byte) :
  width <= 0 \/ height <= 0 ->
  project image width height cx cy fx fy data = Some data.
Proof.
  intros H. unfold project.
  destruct (Z.leb_spec height 0) as [Hh | Hh].
  - replace (Z.to_nat height) with 0%nat by lia. reflexivity.
  - replace (Z.to_nat width) with 0%nat by lia. cbn [for_loop]. apply for_loop_skip.
Qed.

(** X7.  [publishPointCloud] reads the first [width * height] floats of the
    raw buffer and nothing else: on a longer buffer it succeeds with the
    result it has on the prefix; with [0 < width, height] and a shorter buffer
    the last pixel is read past the end and the call has no defined result;
    for a device of width or height 0 the loops do not run and an empty
    cloud is published whatever the raw buffer. *)
Theorem publishPointCloud_reads_width_times_height (tan_finite : F64.t -> F64.t)
  (cfg : Config) (st : Ros2RangeFinder) (w : World) (raw : list byte) (now : Z) :
  reachable tan_finite cfg st w ->
  let width := cfg_width cfg in
  let height := cfg_height cfg in
  (4 * width * height <= len raw ->
   exists st' w',
     publishPointCloud st (Some raw) now w = Some (st', w') /\
     publishPointCloud st (Some (firstn (Z.to_nat (4 * width * height)) raw)) now w
     = Some (st', w') /\
     pc_stamp (mPointCloudMessage st') = now /\
     trace w' = trace w ++ [PublishPointCloud (mPointCloudMessage st')]) /\
  (0 < width -> 0 < height -> len raw < 4 * width * height ->
   publishPointCloud st (Some raw) now w = None) /\
  (width = 0 \/ height = 0 ->
   exists st' w',
     publishPointCloud st (Some raw) now w = Some (st', w') /\
     pc_data (mPointCloudMessage st') = [] /\
     trace w' = trace w ++ [PublishPointCloud (mPointCloudMessage st')]).
Proof.
  intros Hr width height. apply reachable_consistent in Hr.
  split; [| split].
  - intros Hraw.
    destruct (publishPointCloud_any tan_finite cfg st raw now w Hr Hraw)
      as (data & _ & _ & _ & Hp).
    eexists _, _. split; [exact Hp |].
    rewrite (publishPointCloud_prefix tan_finite cfg) by assumption.
    split; [exact Hp |]. cbn. auto.
  - intros Hw Hh Hshort.
    destruct Hr as (Hwr & Hhr & _ & _ & _ & _ & Hci & _).
    unfold publishPointCloud. rewrite Hci.
    cbn [init_cameraInfo ci_width ci_height ci_k at_k nth].
    rewrite !uint32_roundtrip by assumption. fold width height.
    rewrite project_short by assumption. reflexivity.
  - intros Hz.
    destruct Hr as (Hwr & Hhr & _ & _ & _ & _ & Hci & _ & _ & _ & Hcl).
    fold width height in Hcl.
    unfold publishPointCloud. rewrite Hci.
    cbn [init_cameraInfo ci_width ci_height ci_k at_k nth].
    rewrite !uint32_roundtrip by assumption. fold width height.
    rewrite project_empty by lia. cbn [bind].
    eexists _, _. split; [reflexivity |]. cbn. split; [| reflexivity].
    destruct (pc_data (mPointCloudMessage st)); [reflexivity |].
    unfold len in Hcl. cbn [length] in Hcl. nia.
Qed.

Lemma publishPointCloud_reads_width_times_height_witness :
  exists st w,
    reachable tan_one (sample_cfg true fov_half_pi) st w /\
    (exists st' w',
       publishPointCloud st (Some (sample_raw ++ sample_raw)) 7 w = Some (st', w') /\
       publishPointCloud st (Some sample_raw) 7 w = Some (st', w')) /\
    publishPointCloud st (Some (firstn 7 sample_raw)) 7 w = None.
Proof.
  destruct sample_reachable as (st & w & Hr).
  exists st, w. split; [exact Hr |].
  destruct (publishPointCloud_reads_width_times_height tan_one _ st w
              (sample_raw ++ sample_raw) 7 Hr) as (Hlong & _ & _).
  destruct (publishPointCloud_reads_width_times_height tan_one _ st w
              (firstn 7 sample_raw) 7 Hr) as (_ & Hshort & _).
  split.
  - destruct (Hlong ltac:(vm_compute; discriminate)) as (st' & w' & H1 & H2 & _).
    exists st', w'. split; [exact H1 | exact H2].
  - apply Hshort; reflexivity.
Defined.

Lemma cloud_cell_range (image : list byte) (width : Z) (cx cy fx fy : F32.t) (k : Z) :
  0 <= cloud_cell image width cx cy fx fy k < 2 ^ 32.
Proof.
  unfold cloud_cell.
  destruct (load_f32 image (k / 3)) as [x |] eqn:E; [| lia].
  destruct (k mod 3 =? 0); [eapply load_f32_range; eassumption |].
  destruct (k mod 3 =? 1); apply to_bits_range.
Qed.

Lemma pixels_cloud_of (image : list byte) (width height : Z) (cx cy fx fy : F32.t)
  (data : list byte) :
  0 <= width -> 0 <= height ->
  len data = 12 * width * height ->
  (forall i j, 0 <= i < width -> 0 <= j < height ->
               pixel_done image width cx cy fx fy data i j) ->
  data = cloud_of image width height cx cy fx fy.
Proof.
  intros Hw Hh Hlen Hd.
  assert (Hn : 0 <= 3 * width * height) by nia.
  apply (buffer_ext _ _ (3 * width * height)); [lia | |].
  - unfold cloud_of. rewrite len_encode_f32, length_map, length_seq. lia.
  - intros k Hk.
    unfold cloud_of.
    replace k with (Z.of_nat (Z.to_nat k)) at 2 by lia.
    rewrite load_f32_encode by (rewrite length_map, length_seq; lia).
    rewrite (nth_indep _ 0 (cloud_cell image width cx cy fx fy (Z.of_nat 0)))
      by (rewrite length_map, length_seq; lia).
    rewrite (map_nth (fun k => cloud_cell image width cx cy fx fy (Z.of_nat k))).
    rewrite seq_nth by lia. cbn [Nat.add]. rewrite Z2Nat.id by lia.
    rewrite Z.mod_small by apply cloud_cell_range.
    assert (Hwpos : 0 < width) by nia.
    pose proof (Z.div_mod k 3 ltac:(lia)) as Hk3.
    pose proof (Z.mod_pos_bound k 3 ltac:(lia)) as Hc.
    set (idx := k / 3) in *.
    assert (Hidx : 0 <= idx < width * height) by nia.
    pose proof (Z.div_mod idx width ltac:(lia)) as Hiw.
    pose proof (Z.mod_pos_bound idx width Hwpos) as Hi.
    assert (Hj : 0 <= idx / width < height).
    { split; [apply Z.div_pos; lia | apply Z.div_lt_upper_bound; nia]. }
    destruct (Hd (idx mod width) (idx / width) Hi Hj) as (x & Hx & H0 & H1 & H2).
    replace (idx mod width + idx / width * width) with idx in * by lia.
    unfold cloud_cell. fold idx. rewrite Hx.
    destruct (Z.eqb_spec (k mod 3) 0) as [E0 | E0].
    { rewrite <- H0. f_equal. lia. }
    destruct (Z.eqb_spec (k mod 3) 1) as [E1 | E1].
    { rewrite <- H1. f_equal. lia. }
    rewrite <- H2. f_equal. lia.
Qed.

(** X8.  The two loops overwrite the whole cloud buffer.  For a device of
    non-negative size, after [publishPointCloud] the buffer is [cloud_of], a
    function of the raw image and the calibration alone, whose float cell
    [k] is component [k mod 3] of the point of pixel [k / 3].  Nothing of the
    previous frame is left. *)
Theorem point_cloud_is_function_of_image (tan_finite : F64.t -> F64.t) (cfg : Config)
  (st : Ros2RangeFinder) (w : World) (raw : list byte) (now : Z) :
  reachable tan_finite cfg st w ->
  0 <= cfg_width cfg -> 0 <= cfg_height cfg ->
  4 * cfg_width cfg * cfg_height cfg <= len raw ->
  let width := cfg_width cfg in
  let height := cfg_height cfg in
  let K := ci_k (mCameraInfoMessage st) in
  let cx := F32.of_f64 (at_k K 2) in
  let cy := F32.of_f64 (at_k K 5) in
  let fx := F32.of_f64 (at_k K 0) in
  let fy := F32.of_f64 (at_k K 4) in
  exists st' w',
    publishPointCloud st (Some raw) now w = Some (st', w') /\
    pc_data (mPointCloudMessage st') = cloud_of raw width height cx cy fx fy.
Proof.
  intros Hr Hw Hh Hraw width height K cx cy fx fy.
  apply reachable_consistent in Hr.
  destruct (publishPointCloud_any tan_finite cfg st raw now w Hr Hraw)
    as (data & Hl & Hd & _ & Hp).
  eexists _, _. split; [exact Hp |]. cbn [with_PointCloudMessage mPointCloudMessage
                                          cloud_with pc_data].
  destruct Hr as (_ & _ & _ & _ & _ & _ & Hci & _).
  subst K cx cy fx fy. rewrite Hci. cbn [init_cameraInfo ci_k at_k nth].
  now apply pixels_cloud_of.
Qed.

Lemma point_cloud_is_function_of_image_witness :
  exists st w st' w',
    reachable tan_one (sample_cfg true fov_half_pi) st w /\
    publishPointCloud st (Some sample_raw) 7 w = Some (st', w') /\
    pc_data (mPointCloudMessage st')
    = cloud_of sample_raw 2 1 (F32.of_int 1) (F32.of_f64 F64.half)
        (F32.of_int 1) (F32.of_f64 F64.half).
Proof.
  destruct (init tan_one (sample_cfg true fov_half_pi) power_on) as [[st w] |] eqn:E;
    [| vm_compute in E; discriminate].
  pose proof (reach_init _ _ _ _ E) as Hr.
  destruct (point_cloud_is_function_of_image tan_one _ st w sample_raw 7 Hr
              ltac:(discriminate) ltac:(discriminate) ltac:(discriminate))
    as (st' & w' & Hp & Hd).
  exists st, w, st', w'. split; [exact Hr |]. split; [exact Hp |].
  rewrite Hd. apply init_Some in E as (Hc & _).
  destruct Hc as (_ & _ & _ & _ & _ & _ & -> & _). reflexivity.
Defined.

(** X9.  A frame does not depend on what was published before: two reachable
    states of the same device (of non-negative size), both enabled, stepped
    on the same tick with an available raw buffer, end with equal image and
    cloud messages and append the same two frames, an image and a cloud, to
    their traces, whatever their histories. *)
Theorem frames_depend_on_tick_only (tan_finite : F64.t -> F64.t) (cfg : Config)
  (st1 : Ros2RangeFinder) (w1 : World) (st2 : Ros2RangeFinder) (w2 : World)
  (tk : Tick) (st1' : Ros2RangeFinder) (w1' : World)
  (st2' : Ros2RangeFinder) (w2' : World) :
  reachable tan_finite cfg st1 w1 ->
  reachable tan_finite cfg st2 w2 ->
  0 <= cfg_width cfg -> 0 <= cfg_height cfg ->
  preStep tk = true -> available tk = true ->
  mIsEnabled st1 = true -> mIsEnabled st2 = true ->
  step st1 tk w1 = Some (st1', w1') ->
  step st2 tk w2 = Some (st2', w2') ->
  mImageMessage st1' = mImageMessage st2' /\
  mPointCloudMessage st1' = mPointCloudMessage st2' /\
  exists fs, frames (trace w1') = frames (trace w1) ++ fs /\
             frames (trace w2') = frames (trace w2) ++ fs /\
             map kind_of fs = [KImage; KPointCloud].
Proof.
  intros Hr1 Hr2 Hw Hh Hpre Hav He1 He2 Hs1 Hs2.
  apply reachable_consistent in Hr1, Hr2.
  unfold available in Hav. destruct (rangeImage tk) as [raw |] eqn:Hraw; [| discriminate].
  destruct (step_published_any tan_finite cfg st1 tk w1 st1' w1' raw Hr1 Hs1 Hpre He1 Hraw)
    as (_ & Hi1 & d1 & Hc1 & Hl1 & Hd1 & _).
  destruct (step_published_any tan_finite cfg st2 tk w2 st2' w2' raw Hr2 Hs2 Hpre He2 Hraw)
    as (_ & Hi2 & d2 & Hc2 & Hl2 & Hd2 & _).
  assert (Hd : d1 = d2).
  { rewrite (pixels_cloud_of _ _ _ _ _ _ _ d1 Hw Hh Hl1 Hd1).
    now rewrite (pixels_cloud_of _ _ _ _ _ _ _ d2 Hw Hh Hl2 Hd2). }
  subst d2.
  assert (Him : mImageMessage st1' = mImageMessage st2').
  { rewrite Hi1, Hi2. apply image_with_same.
    destruct Hr1 as (_ & _ & _ & _ & _ & _ & _ & -> & _).
    now destruct Hr2 as (_ & _ & _ & _ & _ & _ & _ & -> & _). }
  assert (Hpc : mPointCloudMessage st1' = mPointCloudMessage st2').
  { rewrite Hc1, Hc2. apply cloud_with_same.
    destruct Hr1 as (_ & _ & _ & _ & _ & _ & _ & _ & -> & _).
    now destruct Hr2 as (_ & _ & _ & _ & _ & _ & _ & _ & -> & _). }
  split; [exact Him |]. split; [exact Hpc |].
  exists [PublishImage (mImageMessage st1'); PublishPointCloud (mPointCloudMessage st1')].
  rewrite (step_frames _ _ _ _ _ Hs1), (step_frames _ _ _ _ _ Hs2).
  unfold available. rewrite Hpre, He1, He2, Hraw, Him, Hpc. auto.
Qed.

Lemma frames_depend_on_tick_only_witness :
  exists st1 w1 st2 w2 st1' w1' st2' w2',
    reachable tan_one (sample_cfg true fov_half_pi) st1 w1 /\
    reachable tan_one (sample_cfg true fov_half_pi) st2 w2 /\
    pc_data (mPointCloudMessage st1) <> pc_data (mPointCloudMessage st2) /\
    step st1 (sample_tick (Some (encode_f32 [0; 1073741824])) 0) w1 = Some (st1', w1') /\
    step st2 (sample_tick (Some (encode_f32 [0; 1073741824])) 0) w2 = Some (st2', w2') /\
    mImageMessage st1' = mImageMessage st2' /\
    mPointCloudMessage st1' = mPointCloudMessage st2'.
Proof.
  destruct (init tan_one (sample_cfg true fov_half_pi) power_on) as [[st1 w1] |] eqn:E;
    [| vm_compute in E; discriminate].
  pose proof (reach_init _ _ _ _ E) as Hr1.
  destruct (step st1 (sample_tick (Some sample_raw) 0) w1) as [[st2 w2] |] eqn:E2;
    [| vm_compute in E; injection E as <- <-; vm_compute in E2; discriminate].
  pose proof (reach_step _ _ _ _ _ _ _ Hr1 E2) as Hr2.
  destruct (step st1 (sample_tick (Some (encode_f32 [0; 1073741824])) 0) w1)
    as [[st1' w1'] |] eqn:E1';
    [| vm_compute in E; injection E as <- <-; vm_compute in E1'; discriminate].
  destruct (step st2 (sample_tick (Some (encode_f32 [0; 1073741824])) 0) w2)
    as [[st2' w2'] |] eqn:E2';
    [| vm_compute in E; injection E as <- <-; vm_compute in E2; injection E2 as <- <-;
       vm_compute in E2'; discriminate].
  exists st1, w1, st2, w2, st1', w1', st2', w2'.
  split; [exact Hr1 |]. split; [exact Hr2 |]. split.
  - vm_compute in E. injection E as <- <-. vm_compute in E2. injection E2 as <- <-.
    vm_compute. discriminate.
  - split; [exact E1' |]. split; [exact E2' |].
    destruct (frames_depend_on_tick_only tan_one (sample_cfg true fov_half_pi)
                st1 w1 st2 w2 (sample_tick (Some (encode_f32 [0; 1073741824])) 0)
                st1' w1' st2' w2' Hr1 Hr2
                ltac:(discriminate) ltac:(discriminate) eq_refl eq_refl
                ltac:(now apply init_Some in E as (_ & -> & _))
                ltac:(pose proof (step_flag _ _ _ _ _ E2) as (Hf & _);
                      apply init_Some in E as (Hc & He & _);
                      destruct Hc as (_ & _ & _ & _ & Ha & _);
                      rewrite Ha in Hf; cbn in Hf; now rewrite Hf, He)
                E1' E2') as (Hi & Hc & _).
    split; [exact Hi | exact Hc].
Defined.

(** ** The layout of the cloud, and one tick in order *)

(** X10.  The point cloud message describes its own buffer correctly.
    After [publishPointCloud] on a device of non-negative size: width and
    height are the device's, [point_step = 12],
    [row_step = point_step * width], the buffer has [row_step * height]
    bytes, the data is little-endian, the fields are x, y, z, one FLOAT32
    each at offsets 0, 4, 8; and for every pixel [(col, row)] and field
    number [n], the four bytes at
    [row * row_step + col * point_step + offset] lie inside the buffer, are
    aligned, and hold component [n] of the point of that pixel. *)
Theorem point_cloud_layout (tan_finite : F64.t -> F64.t) (cfg : Config)
  (st : Ros2RangeFinder) (w : World) (raw : list byte) (now : Z) :
  reachable tan_finite cfg st w ->
  0 <= cfg_width cfg -> 0 <= cfg_height cfg ->
  4 * cfg_width cfg * cfg_height cfg <= len raw ->
  let width := cfg_width cfg in
  let height := cfg_height cfg in
  let K := ci_k (mCameraInfoMessage st) in
  let cx := F32.of_f64 (at_k K 2) in
  let cy := F32.of_f64 (at_k K 5) in
  let fx := F32.of_f64 (at_k K 0) in
  let fy := F32.of_f64 (at_k K 4) in
  exists st' w',
    publishPointCloud st (Some raw) now w = Some (st', w') /\
    let c := mPointCloudMessage st' in
    pc_width c = width /\ pc_height c = height /\
    pc_point_step c = 12 /\
    pc_row_step c = pc_point_step c * pc_width c /\
    len (pc_data c) = pc_row_step c * pc_height c /\
    pc_is_bigendian c = false /\
    pc_fields c = [point_field "x"%string 0; point_field "y"%string 4;
                   point_field "z"%string 8] /\
    forall col row n f,
      0 <= col < width -> 0 <= row < height ->
      nth_error (pc_fields c) n = Some f ->
      let off := row * pc_row_step c + col * pc_point_step c + pf_offset f in
      pf_datatype f = FLOAT32 /\ pf_count f = 1 /\
      off mod 4 = 0 /\ 0 <= off /\ off + 4 <= len (pc_data c) /\
      exists x,
        load_f32 raw (col + row * width) = Some x /\
        load_f32 (pc_data c) (off / 4) =
          nth_error
            [x;
             F32.to_bits
               (F32.div (F32.mul (F32.neg (F32.sub (F32.of_int col) cx)) (F32.of_bits x)) fx);
             F32.to_bits
               (F32.div (F32.mul (F32.neg (F32.sub (F32.of_int row) cy)) (F32.of_bits x)) fy)]
            n.
Proof.
  intros Hr Hw Hh Hraw width height K cx cy fx fy.
  apply reachable_consistent in Hr.
  destruct (publishPointCloud_any tan_finite cfg st raw now w Hr Hraw)
    as (data & Hl & Hd & _ & Hp).
  eexists _, _. split; [exact Hp |].
  cbn [with_PointCloudMessage mPointCloudMessage].
  destruct Hr as (_ & Hhr & H12 & Hs & _ & _ & Hci & _ & Hpc & _).
  fold width height in Hhr, H12, Hs, Hl, Hd.
  pose proof (f_equal pc_width Hpc) as Hpw.
  pose proof (f_equal pc_height Hpc) as Hph.
  pose proof (f_equal pc_point_step Hpc) as Hps.
  pose proof (f_equal pc_row_step Hpc) as Hrs.
  pose proof (f_equal pc_is_bigendian Hpc) as Hbe.
  pose proof (f_equal pc_fields Hpc) as Hfs.
  cbn [cloud_with init_cloud pc_width pc_height pc_point_step pc_row_step
       pc_is_bigendian pc_fields] in Hpw, Hph, Hps, Hrs, Hbe, Hfs.
  fold width height in Hpw, Hph, Hrs.
  unfold Int.to_uint32 in Hpw, Hph, Hrs. unfold Int.INT_MAX in *.
  rewrite Z.mod_small in Hpw by lia.
  rewrite Z.mod_small in Hph by lia.
  rewrite Z.mod_small in Hrs by lia.
  cbn [cloud_with pc_width pc_height pc_point_step pc_row_step pc_is_bigendian
       pc_fields pc_data].
  rewrite Hpw, Hph, Hps, Hrs, Hbe, Hfs.
  split; [reflexivity |]. split; [reflexivity |]. split; [reflexivity |].
  split; [lia |]. split; [lia |]. split; [reflexivity |]. split; [reflexivity |].
  intros col row n f Hcol Hrow Hf.
  destruct (Hd col row Hcol Hrow) as (x & Hx & H0 & H1 & H2).
  subst K cx cy fx fy. rewrite Hci. cbn [init_cameraInfo ci_k at_k nth].
  fold width height.
  destruct n as [| [| [| n]]]; cbn [nth_error] in Hf; try (destruct n; discriminate);
    injection Hf as <-; cbn [point_field pf_offset pf_datatype pf_count nth_error];
    (split; [reflexivity |]); (split; [reflexivity |]).
  - replace (row * (width * 12) + col * 12 + 0) with ((3 * (col + row * width)) * 4)
      by lia.
    rewrite Z.mod_mul, Z.div_mul by lia.
    split; [reflexivity |]. split; [nia |]. split; [nia |]. exists x. auto.
  - replace (row * (width * 12) + col * 12 + 4) with ((3 * (col + row * width) + 1) * 4)
      by lia.
    rewrite Z.mod_mul, Z.div_mul by lia.
    split; [reflexivity |]. split; [nia |]. split; [nia |]. exists x. auto.
  - replace (row * (width * 12) + col * 12 + 8) with ((3 * (col + row * width) + 2) * 4)
      by lia.
    rewrite Z.mod_mul, Z.div_mul by lia.
    split; [reflexivity |]. split; [nia |]. split; [nia |]. exists x. auto.
Qed.

Lemma point_cloud_layout_witness :
  exists st w st' w',
    reachable tan_one (sample_cfg true fov_half_pi) st w /\
    publishPointCloud st (Some sample_raw) 7 w = Some (st', w') /\
    pc_row_step (mPointCloudMessage st') = 24 /\
    len (pc_data (mPointCloudMessage st')) = 24.
Proof.
  destruct sample_reachable as (st & w & Hr).
  destruct (point_cloud_layout tan_one _ st w sample_raw 7 Hr
              ltac:(discriminate) ltac:(discriminate) ltac:(discriminate))
    as (st' & w' & Hp & Hpw & Hph & Hps & Hrs & Hlen & _).
  exists st, w, st', w'. split; [exact Hr |]. split; [exact Hp |].
  cbn zeta in Hpw, Hph, Hps, Hrs, Hlen.
  rewrite Hlen, Hrs, Hps, Hpw, Hph. split; reflexivity.
Defined.

(** X11.  What one publishing tick appends to the trace, in order: the depth
    image, the point cloud, and then [Disable] when the plugin is not always
    on and no subscription is left, nothing otherwise.  The image is stamped
    with the clock read in [publishImage], the cloud with the clock read in
    [publishPointCloud].  So the tick on which the last subscriber has gone
    still publishes a frame, and disables the sensor after it. *)
Theorem step_publishes_before_toggling (tan_finite : F64.t -> F64.t) (cfg : Config)
  (st : Ros2RangeFinder) (w : World) (tk : Tick) (st' : Ros2RangeFinder) (w' : World) :
  reachable tan_finite cfg st w ->
  step st tk w = Some (st', w') ->
  preStep tk = true -> mIsEnabled st = true -> available tk = true ->
  trace w' =
    trace w
    ++ [PublishImage (mImageMessage st'); PublishPointCloud (mPointCloudMessage st')]
    ++ (if cfg_alwaysOn cfg || (0 <? subscription_count tk)%N then [] else [Disable]) /\
  img_stamp (mImageMessage st') = now_image tk /\
  pc_stamp (mPointCloudMessage st') = now_cloud tk /\
  mIsEnabled st' = (cfg_alwaysOn cfg || (0 <? subscription_count tk)%N).
Proof.
  intros Hr Hs Hpre He Hav.
  pose proof (reachable_constants _ _ _ _ Hr) as (Ha & _).
  apply reachable_consistent in Hr.
  pose proof (step_trace _ _ _ _ _ Hs) as (Htr & _).
  pose proof (step_flag _ _ _ _ _ Hs) as (Hf & _).
  rewrite Hpre, Ha in Hf. rewrite Hpre, He, Hav in Htr. cbn [andb] in Htr, Hf.
  unfold available in Hav. destruct (rangeImage tk) as [raw |] eqn:Hraw; [| discriminate].
  destruct (step_published_any tan_finite cfg st tk w st' w' raw Hr Hs Hpre He Hraw)
    as (_ & Hi & data & Hc & _).
  rewrite Htr, Hi, Hc. cbn [image_with cloud_with img_stamp pc_stamp].
  destruct (cfg_alwaysOn cfg); cbn [negb orb] in Hf |- *.
  - rewrite Hf, He. auto.
  - rewrite Hf. destruct (0 <? subscription_count tk)%N; auto.
Qed.

Lemma step_publishes_before_toggling_witness :
  exists st w st' w',
    reachable tan_one (sample_cfg false fov_half_pi) st w /\
    step st (sample_tick (Some sample_raw) 0) w = Some (st', w') /\
    trace w' =
      trace w
      ++ [PublishImage (mImageMessage st'); PublishPointCloud (mPointCloudMessage st');
          Disable].
Proof.
  destruct (init tan_one (sample_cfg false fov_half_pi) power_on) as [[st0 w0] |] eqn:E;
    [| vm_compute in E; discriminate].
  pose proof (reach_init _ _ _ _ E) as Hr0.
  destruct (step st0 (sample_tick None 1) w0) as [[st w] |] eqn:E1;
    [| vm_compute in E; injection E as <- <-; vm_compute in E1; discriminate].
  pose proof (reach_step _ _ _ _ _ _ _ Hr0 E1) as Hr.
  destruct (step st (sample_tick (Some sample_raw) 0) w) as [[st' w'] |] eqn:E2;
    [| vm_compute in E; injection E as <- <-; vm_compute in E1; injection E1 as <- <-;
       vm_compute in E2; discriminate].
  exists st, w, st', w'. split; [exact Hr |]. split; [exact E2 |].
  refine (proj1 (step_publishes_before_toggling tan_one (sample_cfg false fov_half_pi)
                   st w (sample_tick (Some sample_raw) 0) st' w' Hr E2 eq_refl _ eq_refl)).
  pose proof (step_flag _ _ _ _ _ E1) as (Hf & _).
  apply init_Some in E as (Hc & _). destruct Hc as (_ & _ & _ & _ & Ha & _).
  rewrite Ha in Hf. exact Hf.
Defined.

(** ** Rounding in any format *)

Lemma Zdigits2_bounds (m : Z) :
  0 < m -> 0 < Zdigits2 m /\ 2 ^ (Zdigits2 m - 1) <= m < 2 ^ Zdigits2 m.
Proof.
  intros Hm. destruct m as [| p | p]; try lia.
  cbn [Zdigits2]. rewrite digits2_log2.
  pose proof (Z.log2_spec (Z.pos p) ltac:(lia)) as Hs.
  pose proof (Z.log2_nonneg (Z.pos p)).
  replace (Z.log2 (Z.pos p) + 1 - 1) with (Z.log2 (Z.pos p)) by lia.
  replace (Z.log2 (Z.pos p) + 1) with (Z.succ (Z.log2 (Z.pos p))) by lia.
  lia.
Qed.

Lemma Zdigits2_unique (m d : Z) :
  2 ^ (d - 1) <= m < 2 ^ d -> 0 < d -> Zdigits2 m = d.
Proof.
  intros Hm Hd.
  assert (0 < m).
  { assert (0 < 2 ^ (d - 1)) by (apply Z.pow_pos_nonneg; lia). lia. }
  destruct m as [| p | p]; try lia.
  cbn [Zdigits2]. rewrite digits2_log2.
  rewrite (Z.log2_unique (Z.pos p) (d - 1)); [lia | lia |].
  replace (Z.succ (d - 1)) with d by lia. exact Hm.
Qed.

Lemma Zdigits2_nonneg (m : Z) : 0 <= Zdigits2 m.
Proof. destruct m; cbn; lia. Qed.

Lemma Zdigits2_lt (m d : Z) : 0 <= m -> 0 <= d -> m < 2 ^ d -> Zdigits2 m <= d.
Proof.
  intros Hm Hd Hlt.
  destruct (Z.eq_dec m 0) as [-> | Hne]; [cbn; lia |].
  destruct (Zdigits2_bounds m ltac:(lia)) as (Hp & Hlo & _).
  destruct (Z.le_gt_cases (Zdigits2 m) d) as [| Hgt]; [assumption | exfalso].
  assert (2 ^ d <= 2 ^ (Zdigits2 m - 1)) by (apply Z.pow_le_mono_r; lia).
  lia.
Qed.

Lemma Zdigits2_ge (m d : Z) : 0 <= d -> 2 ^ d <= m -> d + 1 <= Zdigits2 m.
Proof.
  intros Hd Hle.
  assert (0 < 2 ^ d) by (apply Z.pow_pos_nonneg; lia).
  destruct (Zdigits2_bounds m ltac:(lia)) as (Hp & _ & Hhi).
  destruct (Z.le_gt_cases (d + 1) (Zdigits2 m)) as [| Hgt]; [assumption | exfalso].
  assert (2 ^ Zdigits2 m <= 2 ^ d) by (apply Z.pow_le_mono_r; lia).
  lia.
Qed.

Lemma Zdigits2_mul_pow2 (m k : Z) :
  0 < m -> 0 <= k -> Zdigits2 (m * 2 ^ k) = Zdigits2 m + k.
Proof.
  intros Hm Hk.
  destruct (Zdigits2_bounds m Hm) as (Hp & Hlo & Hhi).
  assert (0 < 2 ^ k) by (apply Z.pow_pos_nonneg; lia).
  apply Zdigits2_unique; [| lia].
  replace (Zdigits2 m + k - 1) with (Zdigits2 m - 1 + k) by lia.
  rewrite !Z.pow_add_r by lia. nia.
Qed.

(** The quotient kept by a right shift. *)
Lemma shr_m_iter (k : nat) (mrs : shr_record) :
  0 <= shr_m mrs ->
  shr_m (Nat.iter k shr_1 mrs) = shr_m mrs / 2 ^ Z.of_nat k.
Proof.
  intros Hm. induction k as [| k IH].
  - cbn. now rewrite Z.div_1_r.
  - rewrite Nat.iter_succ.
    assert (H0 : 0 <= shr_m (Nat.iter k shr_1 mrs)).
    { rewrite IH. apply Z.div_pos; [lia | apply Z.pow_pos_nonneg; lia]. }
    destruct (Nat.iter k shr_1 mrs) as [m r s]. cbn [shr_m] in *.
    rewrite shr_1_spec by assumption. cbn [shr_m].
    rewrite IH, Nat2Z.inj_succ, Z.pow_succ_r by lia.
    rewrite Z.div_div by (try apply Z.pow_pos_nonneg; lia).
    f_equal. lia.
Qed.

Lemma shr_m_of_loc (m : Z) (l : location) : shr_m (shr_record_of_loc m l) = m.
Proof. destruct l as [| []]; reflexivity. Qed.

Section Format.
Variables prec emax : Z.
Hypothesis Hprec : 0 < prec.
Hypothesis Hemax : prec < emax.

Local Notation "'emin'" := (SpecFloat.emin prec emax).
Local Notation "'fexp'" := (SpecFloat.fexp prec emax).

Lemma fexp_eq (x : Z) : fexp x = Z.max (x - prec) (3 - emax - prec).
Proof. reflexivity. Qed.

(** The first step of rounding: the exponent reached and the mantissa kept. *)
Lemma shr_fexp_m (m e : Z) (l : location) :
  0 <= m ->
  let e' := Z.max e (fexp (Zdigits2 m + e)) in
  snd (shr_fexp prec emax m e l) = e' /\
  shr_m (fst (shr_fexp prec emax m e l)) = m / 2 ^ (e' - e).
Proof.
  intros Hm e'. unfold shr_fexp, shr.
  destruct (fexp (Zdigits2 m + e) - e) as [| p | p] eqn:E; cbn [fst snd].
  - rewrite shr_m_of_loc. replace (e' - e) with 0 by (unfold e'; lia).
    rewrite Z.div_1_r. split; [unfold e'; lia | reflexivity].
  - rewrite iter_pos_nat, shr_m_iter by (rewrite shr_m_of_loc; lia).
    rewrite shr_m_of_loc, positive_nat_Z.
    replace (e' - e) with (Z.pos p) by (unfold e'; lia).
    split; [unfold e'; lia | reflexivity].
  - rewrite shr_m_of_loc. replace (e' - e) with 0 by (unfold e'; lia).
    rewrite Z.div_1_r. split; [unfold e'; lia | reflexivity].
Qed.

Lemma round_nearest_even_bounds (m : Z) (l : location) :
  m <= round_nearest_even m l <= m + 1.
Proof.
  destruct l as [| []]; cbn [round_nearest_even]; try lia.
  destruct (Z.even m); lia.
Qed.

(** A rounding never gives a NaN. *)
Lemma binary_round_aux_not_nan (s : bool) (m e : Z) (l : location) :
  0 <= m -> binary_round_aux prec emax s m e l <> S754_nan.
Proof.
  intros Hm. unfold binary_round_aux.
  pose proof (shr_fexp_m m e l Hm) as (_ & Hm1).
  destruct (shr_fexp prec emax m e l) as [mrs1 e1]. cbn [fst snd] in Hm1.
  set (m1 := round_nearest_even (shr_m mrs1) (loc_of_shr_record mrs1)).
  assert (H1 : 0 <= m1).
  { pose proof (round_nearest_even_bounds (shr_m mrs1) (loc_of_shr_record mrs1)).
    assert (0 <= shr_m mrs1).
    { rewrite Hm1. apply Z.div_pos; [lia | apply Z.pow_pos_nonneg; lia]. }
    unfold m1. lia. }
  pose proof (shr_fexp_m m1 e1 loc_Exact H1) as (_ & Hm2).
  destruct (shr_fexp prec emax m1 e1 loc_Exact) as [mrs2 e2]. cbn [fst snd] in Hm2.
  assert (H2 : 0 <= shr_m mrs2).
  { rewrite Hm2. apply Z.div_pos; [lia | apply Z.pow_pos_nonneg; lia]. }
  destruct (shr_m mrs2); try lia; [discriminate |].
  destruct (e2 <=? emax - prec); discriminate.
Qed.

(** Rounding a mantissa that sits at or below its canonical exponent: the
    result is a zero, an infinity, or a number of the format. *)
Lemma binary_round_aux_spec (s : bool) (m e : Z) (l : location) :
  0 <= m -> e <= fexp (Zdigits2 m + e) ->
  let R := binary_round_aux prec emax s m e l in
  (R = S754_zero s \/ R = S754_infinity s \/
   exists m2 e2, R = S754_finite s m2 e2 /\ bounded prec emax m2 e2 = true /\
                 Z.pos (digits2_pos m2) + e2 <= Z.max (Zdigits2 m + e) emin + 1) /\
  (Zdigits2 m + e <= emax - 1 -> R <> S754_infinity s) /\
  (emin + prec <= Zdigits2 m + e -> R <> S754_zero s).
Proof.
  intros Hm He R. subst R. unfold binary_round_aux.
  pose proof (shr_fexp_m m e l Hm) as (He1 & Hm1). cbn zeta in He1, Hm1.
  destruct (shr_fexp prec emax m e l) as [mrs1 e1]. cbn [fst snd] in He1, Hm1.
  rewrite <- He1 in Hm1.
  set (d := Zdigits2 m) in *.
  pose proof (Zdigits2_nonneg m) as Hd0. fold d in Hd0.
  set (n := e1 - e) in *.
  assert (Hn : 0 <= n) by (unfold n; lia).
  assert (Hp2 : 0 < 2 ^ n) by (apply Z.pow_pos_nonneg; lia).
  set (q := shr_m mrs1) in *.
  (* the kept mantissa has [k] digits at most *)
  set (k := Z.max (d - n) 0).
  assert (Hk : k <= prec) by (unfold k, n; rewrite fexp_eq in *; lia).
  assert (Hq : 0 <= q < 2 ^ k).
  { rewrite Hm1. split; [apply Z.div_pos; lia |].
    destruct (Z.eq_dec m 0) as [-> | Hne].
    { rewrite Z.div_0_l by lia. apply Z.pow_pos_nonneg; unfold k; lia. }
    destruct (Zdigits2_bounds m ltac:(lia)) as (_ & _ & Hhi). fold d in Hhi.
    apply Z.div_lt_upper_bound; [lia |].
    destruct (Z.le_gt_cases n d).
    - replace k with (d - n) by (unfold k; lia).
      rewrite <- Z.pow_add_r by lia. replace (n + (d - n)) with d by lia. exact Hhi.
    - replace k with 0 by (unfold k; lia). rewrite Z.pow_0_r, Z.mul_1_r.
      assert (2 ^ d <= 2 ^ n) by (apply Z.pow_le_mono_r; lia). lia. }
  assert (Hqlo : e1 <> 3 - emax - prec -> 0 < m -> 2 ^ (prec - 1) <= q /\ k = prec).
  { intros Hne Hpos.
    destruct (Zdigits2_bounds m Hpos) as (_ & Hlo & _). fold d in Hlo.
    assert (Hnd : n = d - prec) by (unfold n; rewrite fexp_eq in *; lia).
    split; [| unfold k; lia].
    rewrite Hm1. apply Z.div_le_lower_bound; [lia |].
    rewrite <- Z.pow_add_r by lia.
    replace (n + (prec - 1)) with (d - 1) by lia. exact Hlo. }
  set (m1 := round_nearest_even q (loc_of_shr_record mrs1)).
  pose proof (round_nearest_even_bounds q (loc_of_shr_record mrs1)) as Hr. fold m1 in Hr.
  assert (H1 : 0 <= m1) by lia.
  pose proof (shr_fexp_m m1 e1 loc_Exact H1) as (He2 & Hm2). cbn zeta in He2, Hm2.
  destruct (shr_fexp prec emax m1 e1 loc_Exact) as [mrs2 e2]. cbn [fst snd] in He2, Hm2.
  rewrite <- He2 in Hm2.
  assert (Hemin : 3 - emax - prec <= e1) by (rewrite fexp_eq in *; lia).
  assert (Hpk : 0 < 2 ^ k) by (apply Z.pow_pos_nonneg; unfold k; lia).
  (* the two shapes of the rounded mantissa *)
  assert (Hshape :
            (Zdigits2 m1 <= prec /\ Zdigits2 m1 <= k + 1 /\ e2 = e1 /\ shr_m mrs2 = m1) \/
            (m1 = 2 ^ prec /\ k = prec /\ d - n = prec /\
             e2 = e1 + 1 /\ shr_m mrs2 = 2 ^ (prec - 1))).
  { destruct (Z.eq_dec m1 (2 ^ k)) as [Heq | Hne].
    - destruct (Z.eq_dec k prec) as [Hkp | Hkp].
      + right.
        assert (Hdn : d - n = prec) by (unfold k in Hkp; lia).
        assert (Hd1 : Zdigits2 m1 = prec + 1).
        { apply Zdigits2_unique; [| lia].
          replace (prec + 1 - 1) with prec by lia. rewrite Heq, Hkp.
          split; [lia |]. rewrite Z.pow_add_r by lia. lia. }
        rewrite Hd1, fexp_eq in He2.
        assert (He1' : e1 = d + e - prec) by (unfold n in Hdn; lia).
        assert (He2' : e2 = e1 + 1) by lia.
        rewrite Hm2, He2', Heq, Hkp.
        replace (e1 + 1 - e1) with 1 by lia.
        repeat split; try lia.
        replace prec with (prec - 1 + 1) at 1 by lia.
        rewrite Z.pow_add_r by lia. apply Z.div_mul. lia.
      + left.
        assert (Hd1 : Zdigits2 m1 = k + 1).
        { apply Zdigits2_unique; [| unfold k; lia].
          replace (k + 1 - 1) with k by lia. rewrite Heq.
          split; [lia |]. rewrite Z.pow_add_r by (unfold k; lia). lia. }
        rewrite fexp_eq in He2.
        assert (He2' : e2 = e1) by lia.
        rewrite Hm2, He2', Z.sub_diag, Z.div_1_r. lia.
    - left.
      assert (Hlt : m1 < 2 ^ k) by lia.
      pose proof (Zdigits2_lt m1 k H1 ltac:(unfold k; lia) Hlt) as Hd1.
      rewrite fexp_eq in He2.
      assert (He2' : e2 = e1) by lia.
      rewrite Hm2, He2', Z.sub_diag, Z.div_1_r. lia. }
  split; [| split].
  - destruct Hshape as [(Hd1 & Hd1k & -> & ->) | (_ & _ & Hdn & -> & ->)].
    + destruct m1 as [| p1 | p1]; [left; reflexivity | | lia].
      destruct (Z.leb_spec e1 (emax - prec)); [| right; left; reflexivity].
      right. right. exists p1, e1. split; [reflexivity |].
      cbn [Zdigits2] in Hd1, Hd1k.
      split.
      * unfold bounded, canonical_mantissa. apply andb_true_intro. split.
        -- apply Z.eqb_eq. rewrite fexp_eq.
           destruct (Z.eq_dec e1 (3 - emax - prec)) as [Hem | Hem]; [lia |].
           destruct (Z.eq_dec m 0) as [Hz | Hz].
           { exfalso. subst m. rewrite Z.div_0_l in Hm1 by lia.
             cbn in d. unfold d in *. rewrite fexp_eq in *. lia. }
           destruct (Hqlo Hem ltac:(lia)) as (Hlo & Hkp).
           assert (prec <= Zdigits2 (Z.pos p1)).
           { replace prec with (prec - 1 + 1) by lia. apply Zdigits2_ge; lia. }
           cbn [Zdigits2] in *. lia.
        -- apply Z.leb_le. assumption.
      * unfold k, n, SpecFloat.fexp, SpecFloat.emin in *. lia.
    + assert (Hpp : 0 < 2 ^ (prec - 1)) by (apply Z.pow_pos_nonneg; lia).
      destruct (2 ^ (prec - 1)) as [| p2 | p2] eqn:Ep; try lia.
      destruct (Z.leb_spec (e1 + 1) (emax - prec)); [| right; left; reflexivity].
      right. right. exists p2, (e1 + 1). split; [reflexivity |].
      assert (Hd2 : Zdigits2 (Z.pos p2) = prec).
      { apply Zdigits2_unique; [| lia]. rewrite <- Ep.
        split; [lia |]. apply Z.pow_lt_mono_r; lia. }
      cbn [Zdigits2] in Hd2.
      split.
      * unfold bounded, canonical_mantissa. apply andb_true_intro. split.
        -- apply Z.eqb_eq. rewrite fexp_eq, Hd2. lia.
        -- apply Z.leb_le. assumption.
      * rewrite Hd2. unfold n, SpecFloat.fexp, SpecFloat.emin in *. lia.
  - intros Hhi.
    assert (He2b : e2 <= emax - prec).
    { destruct Hshape as [(_ & _ & -> & _) | (_ & _ & Hdn & -> & _)];
        unfold n in *; rewrite fexp_eq in *; lia. }
    destruct (shr_m mrs2); try discriminate.
    destruct (Z.leb_spec e2 (emax - prec)); [discriminate | lia].
  - intros Hlo.
    destruct (Z.eq_dec m 0) as [-> | Hz].
    { exfalso. unfold d, SpecFloat.fexp, SpecFloat.emin in *. cbn [Zdigits2] in *. lia. }
    assert (Hnd : n = d - prec) by (unfold n, SpecFloat.fexp, SpecFloat.emin in *; lia).
    assert (Hqp : 2 ^ (prec - 1) <= q).
    { destruct (Zdigits2_bounds m ltac:(lia)) as (_ & Hlo' & _). fold d in Hlo'.
      rewrite Hm1. apply Z.div_le_lower_bound; [lia |].
      rewrite <- Z.pow_add_r by lia.
      replace (n + (prec - 1)) with (d - 1) by lia. exact Hlo'. }
    assert (Hpp : 0 < 2 ^ (prec - 1)) by (apply Z.pow_pos_nonneg; lia).
    destruct Hshape as [(_ & _ & _ & ->) | (_ & _ & _ & _ & ->)].
    + destruct m1 as [| p1 | p1]; try lia.
      destruct (e2 <=? emax - prec); discriminate.
    + destruct (2 ^ (prec - 1)) as [| p2 | p2]; try lia.
      destruct (e2 <=? emax - prec); discriminate.
Qed.

(** Rounding a mantissa at any exponent. *)
Lemma binary_round_spec (s : bool) (m : positive) (e : Z) :
  let R := binary_round prec emax s m e in
  let d := Z.pos (digits2_pos m) in
  (R = S754_zero s \/ R = S754_infinity s \/
   exists m2 e2, R = S754_finite s m2 e2 /\ bounded prec emax m2 e2 = true /\
                 Z.pos (digits2_pos m2) + e2 <= Z.max (d + e) emin + 1) /\
  (d + e <= emax - 1 -> R <> S754_infinity s) /\
  (emin + prec <= d + e -> R <> S754_zero s).
Proof.
  intros R d. subst R. unfold binary_round, shl_align. fold d.
  destruct (fexp (d + e) - e) as [| p | p] eqn:E.
  - apply (binary_round_aux_spec s (Z.pos m) e loc_Exact); [lia |].
    cbn [Zdigits2]. fold d. lia.
  - apply (binary_round_aux_spec s (Z.pos m) e loc_Exact); [lia |].
    cbn [Zdigits2]. fold d. lia.
  - pose proof (iter_xO p m) as Hi.
    assert (Hd : Z.pos (digits2_pos (Pos.iter xO m p)) = d + Z.pos p).
    { change (Z.pos (digits2_pos (Pos.iter xO m p)))
        with (Zdigits2 (Z.pos (Pos.iter xO m p))).
      rewrite Hi. apply (Zdigits2_mul_pow2 (Z.pos m)); lia. }
    pose proof (binary_round_aux_spec s (Z.pos (Pos.iter xO m p)) (fexp (d + e)) loc_Exact
                  ltac:(lia)) as H.
    cbn [Zdigits2] in H. rewrite Hd in H.
    replace (d + Z.pos p + fexp (d + e)) with (d + e) in H by lia.
    apply H. lia.
Qed.

(** A quotient is a zero, an infinity or a number of the format; never a
    NaN, and never the result of an invalid operation. *)
Lemma SFdiv_finite_spec (sx : bool) (mx : positive) (ex : Z)
  (sy : bool) (my : positive) (ey : Z) :
  let R := SFdiv prec emax (S754_finite sx mx ex) (S754_finite sy my ey) in
  R <> S754_nan /\ valid_binary prec emax R = true.
Proof.
  intros R. subst R. unfold SFdiv, SFdiv_core_binary. cbn [Zdigits2].
  set (d1 := Z.pos (digits2_pos mx)). set (d2 := Z.pos (digits2_pos my)).
  set (e' := Z.min (fexp (d1 + ex - (d2 + ey))) (ex - ey)).
  set (sh := ex - ey - e').
  assert (Hsh : 0 <= sh) by (unfold sh, e'; lia).
  set (m' := match sh with
             | 0 => Z.pos mx
             | Z.pos _ => Z.shiftl (Z.pos mx) sh
             | Z.neg _ => 0
             end).
  assert (Hm' : m' = Z.pos mx * 2 ^ sh).
  { unfold m'. destruct sh as [| p | p] eqn:E; [lia | | lia].
    now rewrite Z.shiftl_mul_pow2 by lia. }
  assert (Hp2 : 0 < 2 ^ sh) by (apply Z.pow_pos_nonneg; lia).
  pose proof (Z.div_eucl_eq m' (Z.pos my) ltac:(lia)) as Heq.
  pose proof (Z.mod_pos_bound m' (Z.pos my) ltac:(lia)) as Hb.
  unfold Z.modulo in Hb.
  destruct (Z.div_eucl m' (Z.pos my)) as [q r].
  assert (Hq : 0 <= q) by nia.
  split; [now apply binary_round_aux_not_nan |].
  assert (He : e' <= fexp (Zdigits2 q + e')).
  { destruct (Zdigits2_bounds (Z.pos mx) ltac:(lia)) as (_ & Hlo1 & _).
    destruct (Zdigits2_bounds (Z.pos my) ltac:(lia)) as (_ & _ & Hhi2).
    cbn [Zdigits2] in Hlo1, Hhi2. fold d1 in Hlo1. fold d2 in Hhi2.
    assert (Hd1 : 0 < d1) by (unfold d1; lia).
    assert (Hd2 : 0 < d2) by (unfold d2; lia).
    assert (Hdq : d1 + sh - d2 <= Zdigits2 q).
    { pose proof (Zdigits2_nonneg q).
      destruct (Z.le_gt_cases (d1 + sh - d2) 0) as [| Hgt]; [lia |].
      replace (d1 + sh - d2) with (d1 + sh - d2 - 1 + 1) by lia.
      apply Zdigits2_ge; [lia |].
      (* 2^(d1-1+sh) <= m' < (q + 1) * my < (q + 1) * 2^d2 *)
      assert (Hlow : 2 ^ (d1 + sh - d2 - 1) * 2 ^ d2 <= m').
      { rewrite <- Z.pow_add_r by lia.
        replace (d1 + sh - d2 - 1 + d2) with (d1 - 1 + sh) by lia.
        rewrite Z.pow_add_r by lia. rewrite Hm'. nia. }
      assert (0 < 2 ^ (d1 + sh - d2 - 1)) by (apply Z.pow_pos_nonneg; lia).
      assert (0 < 2 ^ d2) by (apply Z.pow_pos_nonneg; lia).
      nia. }
    unfold e', sh, SpecFloat.fexp, SpecFloat.emin in *. lia. }
  destruct (binary_round_aux_spec (xorb sx sy) q e' (new_location (Z.pos my) r) Hq He)
    as ([-> | [-> | (m2 & e2 & -> & Hbd & _)]] & _); try reflexivity.
  exact Hbd.
Qed.

Lemma SFdiv_valid (x y : spec_float) : valid_binary prec emax (SFdiv prec emax x y) = true.
Proof.
  destruct x as [sx | sx | | sx mx ex], y as [sy | sy | | sy my ey]; try reflexivity.
  apply SFdiv_finite_spec.
Qed.

(** Dividing a zero, an infinity or a number by a number. *)
Lemma SFdiv_by_finite (x : spec_float) (sy : bool) (my : positive) (ey : Z) :
  x <> S754_nan -> SFdiv prec emax x (S754_finite sy my ey) <> S754_nan.
Proof.
  intros Hx. destruct x as [sx | sx | | sx mx ex]; try discriminate; [congruence |].
  apply SFdiv_finite_spec.
Qed.

(** The product of two values that are zeros or numbers. *)
Lemma SFmul_not_nan (x y : spec_float) :
  (forall s, x <> S754_infinity s) -> (forall s, y <> S754_infinity s) ->
  x <> S754_nan -> y <> S754_nan ->
  SFmul prec emax x y <> S754_nan.
Proof.
  intros Hxi Hyi Hx Hy.
  destruct x as [sx | sx | | sx mx ex], y as [sy | sy | | sy my ey];
    try discriminate; try congruence;
    try (exfalso; eapply Hxi; reflexivity); try (exfalso; eapply Hyi; reflexivity).
  cbn [SFmul]. apply binary_round_aux_not_nan. lia.
Qed.

(** The difference of two numbers below [2^B] is a zero or a number. *)
Lemma SFsub_finite_spec (sx : bool) (mx : positive) (ex : Z)
  (sy : bool) (my : positive) (ey : Z) (B : Z) :
  Z.pos (digits2_pos mx) + ex <= B -> Z.pos (digits2_pos my) + ey <= B ->
  B + 1 <= emax - 1 ->
  let R := SFsub prec emax (S754_finite sx mx ex) (S754_finite sy my ey) in
  (exists s, R = S754_zero s) \/ (exists s m e, R = S754_finite s m e).
Proof.
  intros Hx Hy HB R. subst R. cbn [SFsub].
  set (ez := Z.min ex ey).
  assert (Hal : forall m e, ez <= e ->
            Z.pos (fst (shl_align m e ez)) = Z.pos m * 2 ^ (e - ez)).
  { intros m e Hle. unfold shl_align.
    destruct (ez - e) as [| p | p] eqn:E; cbn [fst].
    - replace (e - ez) with 0 by lia. lia.
    - lia.
    - rewrite iter_xO. f_equal. f_equal. lia. }
  rewrite (Hal mx ex) by (unfold ez; lia). rewrite (Hal my ey) by (unfold ez; lia).
  set (A := Z.pos mx * 2 ^ (ex - ez)). set (A' := Z.pos my * 2 ^ (ey - ez)).
  assert (HA : 0 < A < 2 ^ (B - ez)).
  { unfold A. destruct (Zdigits2_bounds (Z.pos mx) ltac:(lia)) as (_ & _ & Hhi).
    cbn [Zdigits2] in Hhi.
    assert (0 < 2 ^ (ex - ez)) by (apply Z.pow_pos_nonneg; unfold ez; lia).
    split; [lia |].
    apply Z.lt_le_trans with (2 ^ Z.pos (digits2_pos mx) * 2 ^ (ex - ez)); [nia |].
    rewrite <- Z.pow_add_r by (unfold ez; lia).
    apply Z.pow_le_mono_r; lia. }
  assert (HA' : 0 < A' < 2 ^ (B - ez)).
  { unfold A'. destruct (Zdigits2_bounds (Z.pos my) ltac:(lia)) as (_ & _ & Hhi).
    cbn [Zdigits2] in Hhi.
    assert (0 < 2 ^ (ey - ez)) by (apply Z.pow_pos_nonneg; unfold ez; lia).
    split; [lia |].
    apply Z.lt_le_trans with (2 ^ Z.pos (digits2_pos my) * 2 ^ (ey - ez)); [nia |].
    rewrite <- Z.pow_add_r by (unfold ez; lia).
    apply Z.pow_le_mono_r; lia. }
  set (M := cond_Zopp sx A - cond_Zopp sy A').
  assert (HM : Z.abs M < 2 ^ (B + 1 - ez)).
  { replace (B + 1 - ez) with (B - ez + 1) by lia.
    assert (0 <= B - ez).
    { destruct (Z.le_gt_cases 0 (B - ez)); [assumption |].
      rewrite Z.pow_neg_r in HA by lia. lia. }
    rewrite Z.pow_add_r by lia.
    unfold M. destruct sx, sy; cbn [cond_Zopp]; lia. }
  assert (Hcase : forall s p, Z.pos p = Z.abs M ->
            (exists s0, binary_round prec emax s p ez = S754_zero s0) \/
            (exists s0 m e, binary_round prec emax s p ez = S754_finite s0 m e)).
  { intros s p Hp.
    destruct (binary_round_spec s p ez) as (Hsh & Hinf & _).
    assert (Hd : Z.pos (digits2_pos p) + ez <= emax - 1).
    { assert (0 <= B + 1 - ez).
      { destruct (Z.le_gt_cases 0 (B + 1 - ez)); [assumption |].
        rewrite Z.pow_neg_r in HM by lia. lia. }
      pose proof (Zdigits2_lt (Z.pos p) (B + 1 - ez) ltac:(lia) ltac:(lia) ltac:(lia)) as Hd.
      cbn [Zdigits2] in Hd. lia. }
    destruct Hsh as [-> | [Hi | (m2 & e2 & -> & _)]]; eauto.
    exfalso. now apply Hinf. }
  destruct M as [| p | p] eqn:EM; cbn [binary_normalize].
  - left. eauto.
  - apply Hcase. reflexivity.
  - apply Hcase. reflexivity.
Qed.

End Format.

(** ** Classes of single precision values *)

Lemma F32_format : 0 < F32.prec /\ F32.prec < F32.emax.
Proof. unfold F32.prec, F32.emax. lia. Qed.

(** What [memcpy] stores of a quotient decodes to the quotient. *)
Lemma div_roundtrip (x y : F32.t) : F32.of_bits (F32.to_bits (F32.div x y)) = F32.div x y.
Proof.
  apply of_bits_to_bits.
  apply (SFdiv_valid F32.prec F32.emax (proj1 F32_format) (proj2 F32_format)).
Qed.

Lemma of_int_class (i : Z) :
  0 <= i <= Int.INT_MAX ->
  F32.of_int i = S754_zero false \/
  exists m e, F32.of_int i = S754_finite false m e /\ Z.pos (digits2_pos m) + e <= 32.
Proof.
  intros Hi. unfold Int.INT_MAX in Hi. unfold F32.of_int.
  destruct i as [| p | p]; [left; reflexivity | right | lia].
  cbn [binary_normalize].
  assert (Hd : 1 <= Z.pos (digits2_pos p) <= 31).
  { pose proof (Zdigits2_lt (Z.pos p) 31 ltac:(lia) ltac:(lia) ltac:(lia)) as H.
    cbn [Zdigits2] in H. lia. }
  destruct (binary_round_spec F32.prec F32.emax (proj1 F32_format) (proj2 F32_format)
              false p 0) as (Hsh & Hinf & Hz).
  unfold SpecFloat.emin, F32.prec, F32.emax in *.
  destruct Hsh as [H | [H | (m2 & e2 & -> & _ & Hb)]].
  - exfalso. apply Hz; [lia | exact H].
  - exfalso. apply Hinf; [lia | exact H].
  - exists m2, e2. split; [reflexivity | lia].
Qed.

Lemma principalPoint_class (w : Z) :
  0 < w <= Int.INT_MAX ->
  exists m e, F32.of_f64 (principalPoint w) = S754_finite false m e /\
              Z.pos (digits2_pos m) + e <= 32.
Proof.
  intros Hw. rewrite principalPoint_pos by assumption.
  destruct (log2_bounds w Hw) as (Hl & Hwl).
  set (l := Z.log2 w) in *.
  set (mw := Z.to_pos (w * 2 ^ (52 - l))).
  assert (Hb : 0 < 2 ^ (52 - l)) by (apply Z.pow_pos_nonneg; lia).
  assert (Hmw : Z.pos mw = w * 2 ^ (52 - l)).
  { unfold mw. rewrite Z2Pos.id; [reflexivity | nia]. }
  assert (Hd : Z.pos (digits2_pos mw) = 53).
  { change (Z.pos (digits2_pos mw)) with (Zdigits2 (Z.pos mw)).
    rewrite Hmw, Zdigits2_mul_pow2 by lia.
    rewrite (Zdigits2_unique w (l + 1)); [lia | | lia].
    replace (l + 1 - 1) with l by lia. rewrite Z.pow_add_r by lia. lia. }
  cbn [F32.of_f64].
  destruct (binary_round_spec F32.prec F32.emax (proj1 F32_format) (proj2 F32_format)
              false mw (l - 53)) as (Hsh & Hinf & Hz).
  unfold SpecFloat.emin, F32.prec, F32.emax in *. rewrite Hd in *.
  destruct Hsh as [H | [H | (m2 & e2 & -> & _ & Hbd)]].
  - exfalso. apply Hz; [lia | exact H].
  - exfalso. apply Hinf; [lia | exact H].
  - exists m2, e2. split; [reflexivity | lia].
Qed.

(** The column (or row) offset [(float)k - c] is a zero or a number. *)
Lemma offset_class (k w : Z) :
  0 <= k <= Int.INT_MAX -> 0 < w <= Int.INT_MAX ->
  is_finite (F32.sub (F32.of_int k) (F32.of_f64 (principalPoint w))) = true.
Proof.
  intros Hk Hw.
  destruct (principalPoint_class w Hw) as (mc & ec & -> & Hc).
  destruct (of_int_class k Hk) as [-> | (mk & ek & -> & Hke)]; [reflexivity |].
  destruct (SFsub_finite_spec F32.prec F32.emax (proj1 F32_format) (proj2 F32_format)
              false mk ek false mc ec 32 Hke Hc ltac:(unfold F32.emax; lia))
    as [(s & H) | (s & m & e & H)];
    unfold F32.sub; rewrite H; reflexivity.
Qed.

(** The focal length, converted to [float], is a number other than zero. *)
Lemma focal_class (w : Z) (r : F64.t) :
  0 < w <= Int.INT_MAX -> single_range r ->
  exists s m e,
    F32.of_f64 (F64.mul (F64.mul F64.half (F64.of_int w)) r) = S754_finite s m e.
Proof.
  intros Hw Hr. destruct r as [| | | sr mr er]; try contradiction.
  destruct Hr as (Hd & Her).
  destruct (focal_bounds w sr mr er Hw Hd ltac:(lia)) as (m & e & -> & HE & Hlo & Hhi).
  cbn [F32.of_f64].
  assert (Hmr : 2 ^ 52 <= Z.pos mr < 2 ^ 53).
  { destruct (Zdigits2_bounds (Z.pos mr) ltac:(lia)) as (_ & H1 & H2).
    cbn [Zdigits2] in H1, H2. rewrite Hd in H1, H2. exact (conj H1 H2). }
  unfold Int.INT_MAX in Hw.
  set (E := e - er + 53) in *.
  assert (HV : Zdigits2 (Z.pos m * 2 ^ E) = Z.pos (digits2_pos m) + E).
  { apply (Zdigits2_mul_pow2 (Z.pos m)); lia. }
  assert (Hdlo : 104 <= Zdigits2 (Z.pos m * 2 ^ E)).
  { change 104 with (103 + 1). apply Zdigits2_ge; [lia |].
    change (2 ^ 103) with (2 ^ 52 * 2 ^ 51). change (2 ^ 52) with 4503599627370496 in *.
    change (2 ^ 51) with 2251799813685248. nia. }
  assert (Hdhi : Zdigits2 (Z.pos m * 2 ^ E) <= 136).
  { assert (0 < 2 ^ E) by (apply Z.pow_pos_nonneg; lia).
    apply Zdigits2_lt; [nia | lia |].
    change (2 ^ 136) with (2 ^ 52 * (2 ^ 31 * 2 ^ 53)).
    change (2 ^ 52) with 4503599627370496 in *.
    change (2 ^ 53) with 9007199254740992 in *. change (2 ^ 31) with 2147483648. nia. }
  destruct (binary_round_spec F32.prec F32.emax (proj1 F32_format) (proj2 F32_format)
              sr m e) as (Hsh & Hinf & Hz).
  unfold SpecFloat.emin, F32.prec, F32.emax in *.
  destruct Hsh as [H | [H | (m2 & e2 & -> & _)]].
  - exfalso. apply Hz; [unfold E in *; lia | exact H].
  - exfalso. apply Hinf; [unfold E in *; lia | exact H].
  - eauto.
Qed.

(** One coordinate, by the class of the range. *)
Lemma lateral_class (a x f : F32.t) :
  is_finite a = true ->
  (exists s m e, f = S754_finite s m e) ->
  let y := F32.div (F32.mul (F32.neg a) x) f in
  (is_finite x = true -> is_nan y = false) /\
  (is_nan x = true -> is_nan y = true) /\
  (is_infinity x = true -> is_nan y = is_zero a /\ is_infinity y = negb (is_zero a)) /\
  (is_zero x = true -> is_zero y = true).
Proof.
  intros Ha (sf & mf & ef & ->) y. subst y.
  split; [| split; [| split]].
  - intros Hx.
    assert (Hb : F32.mul (F32.neg a) x <> S754_nan).
    { apply (SFmul_not_nan F32.prec F32.emax).
      - intros s. destruct a; discriminate.
      - intros s. destruct x; discriminate.
      - destruct a; discriminate.
      - destruct x; discriminate. }
    pose proof (SFdiv_by_finite F32.prec F32.emax (proj1 F32_format) (proj2 F32_format)
                  _ sf mf ef Hb) as Hy.
    unfold F32.div. destruct (SFdiv _ _ _ _); try reflexivity. congruence.
  - intros Hx. destruct x; try discriminate. destruct a; reflexivity.
  - intros Hx. destruct x as [| sx | |]; try discriminate.
    destruct a as [sa | | | sa ma ea]; try discriminate; split; reflexivity.
  - intros Hx. destruct x as [sx | | |]; try discriminate.
    destruct a as [sa | | | sa ma ea]; try discriminate; reflexivity.
Qed.

(** ** The values of the coordinates *)

(** X12.  For [0 < width, height <= INT_MAX] and a field of view whose
    [1 / tan(0.5 * fov)] is a normal double of magnitude in
    [[2^-124, 2^96)], both focal lengths are numbers other than zero, of one
    and the same sign, as the [double]s of the camera info and as the
    [float]s [publishPointCloud] divides by: no division by zero, by an
    infinity or by a NaN. *)
Theorem focal_lengths_are_numbers (tan_finite : F64.t -> F64.t) (cfg : Config) :
  0 < cfg_width cfg <= Int.INT_MAX ->
  0 < cfg_height cfg <= Int.INT_MAX ->
  single_range (F64.div F64.one (tan tan_finite (F64.mul F64.half (cfg_fov cfg)))) ->
  let K := ci_k (init_cameraInfo tan_finite cfg) in
  exists s mx ex my ey mx' ex' my' ey',
    at_k K 0 = S754_finite s mx ex /\ at_k K 4 = S754_finite s my ey /\
    F32.of_f64 (at_k K 0) = S754_finite s mx' ex' /\
    F32.of_f64 (at_k K 4) = S754_finite s my' ey'.
Proof.
  intros Hw Hh Hr K. subst K. cbn [init_cameraInfo ci_k at_k nth]. unfold focalLength.
  destruct (F64.div F64.one (tan tan_finite (F64.mul F64.half (cfg_fov cfg))))
    as [| | | sr mr er]; try contradiction.
  destruct Hr as (Hd & He).
  destruct (focal_bounds (cfg_width cfg) sr mr er Hw Hd ltac:(lia)) as (mx & ex & Hx & _).
  destruct (focal_bounds (cfg_height cfg) sr mr er Hh Hd ltac:(lia)) as (my & ey & Hy & _).
  destruct (focal_class (cfg_width cfg) (S754_finite sr mr er) Hw (conj Hd He))
    as (sx & mx' & ex' & Hx').
  destruct (focal_class (cfg_height cfg) (S754_finite sr mr er) Hh (conj Hd He))
    as (sy & my' & ey' & Hy').
  exists sr, mx, ex, my, ey, mx', ex', my', ey'.
  rewrite Hx in Hx' |- *. rewrite Hy in Hy' |- *.
  split; [reflexivity |]. split; [reflexivity |].
  cbn [F32.of_f64] in Hx', Hy' |- *.
  destruct (binary_round_spec F32.prec F32.emax (proj1 F32_format) (proj2 F32_format)
              sr mx ex) as ([H | [H | (m2 & e2 & H & _)]] & _); rewrite H in Hx' |- *;
    try discriminate.
  destruct (binary_round_spec F32.prec F32.emax (proj1 F32_format) (proj2 F32_format)
              sr my ey) as ([H' | [H' | (m3 & e3 & H' & _)]] & _); rewrite H' in Hy' |- *;
    try discriminate.
  injection Hx' as _ <- <-. injection Hy' as _ <- <-. auto.
Qed.

Lemma focal_lengths_are_numbers_witness :
  exists s mx ex my ey,
    F32.of_f64 (at_k (ci_k (init_cameraInfo tan_one (sample_cfg true fov_half_pi))) 0)
    = S754_finite s mx ex /\
    F32.of_f64 (at_k (ci_k (init_cameraInfo tan_one (sample_cfg true fov_half_pi))) 4)
    = S754_finite s my ey.
Proof.
  destruct (focal_lengths_are_numbers tan_one (sample_cfg true fov_half_pi)
              ltac:(cbn; unfold Int.INT_MAX; lia) ltac:(cbn; unfold Int.INT_MAX; lia)
              ltac:(vm_compute; split; [reflexivity | split; discriminate]))
    as (s & _ & _ & _ & _ & mx & ex & my & ey & _ & _ & Hx & Hy).
  exists s, mx, ex, my, ey. split; [exact Hx | exact Hy].
Defined.

(** What [publishPointCloud] leaves for one pixel, read back as values. *)
Lemma published_point (tan_finite : F64.t -> F64.t) (cfg : Config)
  (st : Ros2RangeFinder) (w : World) (raw : list byte) (now : Z) :
  consistent tan_finite cfg st ->
  4 * cfg_width cfg * cfg_height cfg <= len raw ->
  let width := cfg_width cfg in
  let height := cfg_height cfg in
  let cx := F32.of_f64 (principalPoint width) in
  let cy := F32.of_f64 (principalPoint height) in
  let fx := F32.of_f64 (focalLength tan_finite width (cfg_fov cfg)) in
  let fy := F32.of_f64 (focalLength tan_finite height (cfg_fov cfg)) in
  exists st' w',
    publishPointCloud st (Some raw) now w = Some (st', w') /\
    forall i j, 0 <= i < width -> 0 <= j < height ->
      exists x y z,
        load_f32 raw (i + j * width) = Some x /\
        load_f32 (pc_data (mPointCloudMessage st')) (3 * (i + j * width)) = Some x /\
        load_f32 (pc_data (mPointCloudMessage st')) (3 * (i + j * width) + 1) = Some y /\
        load_f32 (pc_data (mPointCloudMessage st')) (3 * (i + j * width) + 2) = Some z /\
        F32.of_bits y =
          F32.div (F32.mul (F32.neg (F32.sub (F32.of_int i) cx)) (F32.of_bits x)) fx /\
        F32.of_bits z =
          F32.div (F32.mul (F32.neg (F32.sub (F32.of_int j) cy)) (F32.of_bits x)) fy.
Proof.
  intros Hc Hraw width height cx cy fx fy.
  destruct (publishPointCloud_any tan_finite cfg st raw now w Hc Hraw)
    as (data & _ & Hd & _ & Hp).
  eexists _, _. split; [exact Hp |].
  cbn [with_PointCloudMessage mPointCloudMessage cloud_with pc_data].
  intros i j Hi Hj. destruct (Hd i j Hi Hj) as (x & Hx & H0 & H1 & H2).
  eexists x, _, _. split; [exact Hx |]. split; [exact H0 |].
  split; [exact H1 |]. split; [exact H2 |].
  split; apply div_roundtrip.
Qed.

(** X13.  The two computed coordinates survive the [memcpy] into the byte
    buffer: in every reachable state, for every pixel, the patterns stored in
    cells 1 and 2 of its point decode to the very values
    [-(i - cx) * x / fx] and [-(j - cy) * x / fy] evaluated in single
    precision. *)
Theorem point_cloud_values (tan_finite : F64.t -> F64.t) (cfg : Config)
  (st : Ros2RangeFinder) (w : World) (raw : list byte) (now : Z) :
  reachable tan_finite cfg st w ->
  4 * cfg_width cfg * cfg_height cfg <= len raw ->
  let width := cfg_width cfg in
  let height := cfg_height cfg in
  let K := ci_k (mCameraInfoMessage st) in
  let cx := F32.of_f64 (at_k K 2) in
  let cy := F32.of_f64 (at_k K 5) in
  let fx := F32.of_f64 (at_k K 0) in
  let fy := F32.of_f64 (at_k K 4) in
  exists st' w',
    publishPointCloud st (Some raw) now w = Some (st', w') /\
    forall i j, 0 <= i < width -> 0 <= j < height ->
      exists x y z,
        load_f32 raw (i + j * width) = Some x /\
        load_f32 (pc_data (mPointCloudMessage st')) (3 * (i + j * width)) = Some x /\
        load_f32 (pc_data (mPointCloudMessage st')) (3 * (i + j * width) + 1) = Some y /\
        load_f32 (pc_data (mPointCloudMessage st')) (3 * (i + j * width) + 2) = Some z /\
        F32.of_bits y =
          F32.div (F32.mul (F32.neg (F32.sub (F32.of_int i) cx)) (F32.of_bits x)) fx /\
        F32.of_bits z =
          F32.div (F32.mul (F32.neg (F32.sub (F32.of_int j) cy)) (F32.of_bits x)) fy.
Proof.
  intros Hr Hraw width height K cx cy fx fy.
  apply reachable_consistent in Hr.
  pose proof Hr as (_ & _ & _ & _ & _ & _ & Hci & _).
  subst K cx cy fx fy. rewrite Hci. cbn [init_cameraInfo ci_k at_k nth].
  exact (published_point tan_finite cfg st w raw now Hr Hraw).
Qed.

Lemma point_cloud_values_witness :
  exists st w st' w' y,
    reachable tan_one (sample_cfg true fov_half_pi) st w /\
    publishPointCloud st (Some sample_raw) 7 w = Some (st', w') /\
    load_f32 (pc_data (mPointCloudMessage st')) 1 = Some y /\
    F32.of_bits y = F32.of_int 2.
Proof.
  destruct (init tan_one (sample_cfg true fov_half_pi) power_on) as [[st w] |] eqn:E;
    [| vm_compute in E; discriminate].
  pose proof (reach_init _ _ _ _ E) as Hr.
  destruct (point_cloud_values tan_one (sample_cfg true fov_half_pi) st w sample_raw 7 Hr
              ltac:(discriminate)) as (st' & w' & Hp & Hpix).
  destruct (Hpix 0 0 ltac:(cbn; lia) ltac:(cbn; lia))
    as (x & y & z & Hx & _ & Hy & _ & Hyv & _).
  exists st, w, st', w', y. split; [exact Hr |]. split; [exact Hp |].
  split; [exact Hy |]. rewrite Hyv.
  apply init_Some in E as (Hc & _). destruct Hc as (_ & _ & _ & _ & _ & _ & -> & _).
  vm_compute in Hx. injection Hx as <-. vm_compute. reflexivity.
Defined.

Section Classes.
Variable tan_finite : F64.t -> F64.t.
Variable cfg : Config.
Variables (st : Ros2RangeFinder) (w : World) (raw : list byte) (now : Z).

Hypothesis Hreach : reachable tan_finite cfg st w.
Hypothesis Hwidth : 0 < cfg_width cfg.
Hypothesis Hheight : 0 < cfg_height cfg.
Hypothesis Hraw : 4 * cfg_width cfg * cfg_height cfg <= len raw.

Let width := cfg_width cfg.
Let height := cfg_height cfg.
Let cx := F32.of_f64 (principalPoint width).
Let cy := F32.of_f64 (principalPoint height).

(** For every pixel: the class of the two offsets, from the class of the
    range. *)
Lemma published_classes :
  single_range (F64.div F64.one (tan tan_finite (F64.mul F64.half (cfg_fov cfg)))) ->
  exists st' w',
    publishPointCloud st (Some raw) now w = Some (st', w') /\
    forall i j, 0 <= i < width -> 0 <= j < height ->
      exists x y z,
        load_f32 raw (i + j * width) = Some x /\
        load_f32 (pc_data (mPointCloudMessage st')) (3 * (i + j * width)) = Some x /\
        load_f32 (pc_data (mPointCloudMessage st')) (3 * (i + j * width) + 1) = Some y /\
        load_f32 (pc_data (mPointCloudMessage st')) (3 * (i + j * width) + 2) = Some z /\
        (is_finite (F32.of_bits x) = true ->
         is_nan (F32.of_bits y) = false /\ is_nan (F32.of_bits z) = false) /\
        (is_zero (F32.of_bits x) = true ->
         is_zero (F32.of_bits y) = true /\ is_zero (F32.of_bits z) = true) /\
        (is_infinity (F32.of_bits x) = true ->
         is_nan (F32.of_bits y) = is_zero (F32.sub (F32.of_int i) cx) /\
         is_infinity (F32.of_bits y) = negb (is_zero (F32.sub (F32.of_int i) cx)) /\
         is_nan (F32.of_bits z) = is_zero (F32.sub (F32.of_int j) cy) /\
         is_infinity (F32.of_bits z) = negb (is_zero (F32.sub (F32.of_int j) cy))).
Proof.
  intros Hr.
  pose proof (reachable_consistent _ _ _ _ Hreach) as Hc.
  pose proof Hc as (Hwr & Hhr & _ & Hs & _).
  fold width height in Hwr, Hhr, Hs.
  assert (Hw : 0 < width <= Int.INT_MAX) by (unfold width; lia).
  assert (Hh : 0 < height <= Int.INT_MAX) by (unfold height; lia).
  destruct (published_point tan_finite cfg st w raw now Hc Hraw) as (st' & w' & Hp & Hpix).
  exists st', w'. split; [exact Hp |].
  intros i j Hi Hj.
  destruct (Hpix i j Hi Hj) as (x & y & z & Hx & H0 & H1 & H2 & Hy & Hz).
  exists x, y, z. do 4 (split; [assumption |]).
  fold width height cx cy in Hy, Hz. rewrite Hy, Hz.
  assert (Hai : is_finite (F32.sub (F32.of_int i) cx) = true).
  { apply offset_class; [unfold Int.INT_MAX in *; lia | exact Hw]. }
  assert (Haj : is_finite (F32.sub (F32.of_int j) cy) = true).
  { apply offset_class; [unfold Int.INT_MAX in *; lia | exact Hh]. }
  pose proof (focal_class width _ Hw Hr) as Hfx.
  pose proof (focal_class height _ Hh Hr) as Hfy.
  destruct (lateral_class _ (F32.of_bits x) _ Hai Hfx) as (Hy1 & _ & Hy3 & Hy4).
  destruct (lateral_class _ (F32.of_bits x) _ Haj Hfy) as (Hz1 & _ & Hz3 & Hz4).
  split; [| split].
  - intros Hfin. split; [now apply Hy1 | now apply Hz1].
  - intros Hzero. split; [now apply Hy4 | now apply Hz4].
  - intros Hinf. destruct (Hy3 Hinf) as (? & ?). destruct (Hz3 Hinf) as (? & ?). auto.
Qed.
End Classes.

(** ** Conversions that are exact in single precision, and signs *)

Lemma shr_iter_exact (k : nat) :
  forall q : Z, 0 <= q ->
    Nat.iter k shr_1 {| shr_m := q * 2 ^ Z.of_nat k; shr_r := false; shr_s := false |}
    = {| shr_m := q; shr_r := false; shr_s := false |}.
Proof.
  induction k as [| k IH]; intros q Hq.
  - cbn [Nat.iter Z.of_nat]. now rewrite Z.pow_0_r, Z.mul_1_r.
  - rewrite Nat.iter_succ_r.
    assert (Hp : 0 < 2 ^ Z.of_nat k) by (apply Z.pow_pos_nonneg; lia).
    rewrite shr_1_spec by (rewrite Nat2Z.inj_succ, Z.pow_succ_r by lia; nia).
    rewrite Nat2Z.inj_succ, Z.pow_succ_r by lia.
    replace (q * (2 * 2 ^ Z.of_nat k)) with (q * 2 ^ Z.of_nat k * 2) by lia.
    rewrite Z.div_mul by lia.
    rewrite Z.odd_mul. cbn [Z.odd]. rewrite andb_false_r. cbn [orb].
    now apply IH.
Qed.

Lemma binary_round_aux_shift_exact (prec emax : Z) (s : bool) (q : positive) (e : Z)
  (n : positive) :
  fexp prec emax (Z.pos (digits2_pos q) + (e + Z.pos n)) = e + Z.pos n ->
  e + Z.pos n <= emax - prec ->
  binary_round_aux prec emax s (Z.pos q * 2 ^ Z.pos n) e loc_Exact
  = S754_finite s q (e + Z.pos n).
Proof.
  intros Hf He. unfold binary_round_aux, shr_fexp.
  rewrite (Zdigits2_mul_pow2 (Z.pos q)) by lia. cbn [Zdigits2].
  replace (Z.pos (digits2_pos q) + Z.pos n + e)
    with (Z.pos (digits2_pos q) + (e + Z.pos n)) by lia.
  rewrite Hf. replace (e + Z.pos n - e) with (Z.pos n) by lia.
  cbn [shr shr_record_of_loc]. rewrite iter_pos_nat.
  pose proof (shr_iter_exact (Pos.to_nat n) (Z.pos q) ltac:(lia)) as Hs.
  rewrite positive_nat_Z in Hs. rewrite Hs.
  cbn [shr_m loc_of_shr_record round_nearest_even Zdigits2 shr_record_of_loc].
  rewrite Hf, Z.sub_diag. cbn [shr shr_m].
  destruct (Z.leb_spec (e + Z.pos n) (emax - prec)); [reflexivity | lia].
Qed.

Lemma small_log2 (w : Z) :
  0 < w < 2 ^ 24 -> 0 <= Z.log2 w < 24 /\ 2 ^ Z.log2 w <= w < 2 * 2 ^ Z.log2 w.
Proof.
  intros Hw. split.
  - split; [apply Z.log2_nonneg |]. apply Z.log2_lt_pow2; lia.
  - pose proof (Z.log2_spec w ltac:(lia)) as H.
    rewrite Z.pow_succ_r in H by apply Z.log2_nonneg. exact H.
Qed.

(** [(float)i] for an [int] below [2^24]. *)
Lemma of_int_exact (i : Z) :
  0 < i < 2 ^ 24 ->
  F32.of_int i = S754_finite false (Z.to_pos (i * 2 ^ (23 - Z.log2 i))) (Z.log2 i - 23).
Proof.
  intros Hi. destruct (small_log2 i Hi) as (Hl & Hil).
  destruct i as [| p | p]; try lia.
  set (l := Z.log2 (Z.pos p)) in *.
  unfold F32.of_int. cbn [binary_normalize]. unfold binary_round, shl_align.
  rewrite digits2_log2. fold l.
  assert (Hf : fexp F32.prec F32.emax (l + 1 + 0) = l - 23).
  { unfold fexp, emin, F32.prec, F32.emax. lia. }
  rewrite Hf.
  destruct (Z.eq_dec l 23) as [E | E].
  - rewrite E. cbn [Z.sub Z.add Z.opp Z.pos_sub]. change (23 - 23) with 0.
    rewrite Z.pow_0_r, Z.mul_1_r. cbn [Z.to_pos].
    apply binary_round_aux_exact.
    + rewrite digits2_log2. fold l. rewrite E. reflexivity.
    + unfold F32.prec, F32.emax. lia.
  - replace (l - 23 - 0) with (Z.neg (Z.to_pos (23 - l))).
    2: { rewrite <- Pos2Z.opp_pos, Z2Pos.id; lia. }
    assert (Hm : Z.pos (Pos.iter xO p (Z.to_pos (23 - l))) = Z.pos p * 2 ^ (23 - l)).
    { rewrite iter_xO, Z2Pos.id; lia. }
    rewrite binary_round_aux_exact.
    + f_equal. rewrite <- Hm. reflexivity.
    + rewrite digits2_log2, Hm, digits2_shift by lia. fold l.
      unfold fexp, emin, F32.prec, F32.emax. lia.
    + unfold F32.prec, F32.emax. lia.
Qed.

(** [(float)((double)w / 2)] for an [int] below [2^24]. *)
Lemma principalPoint_single (w : Z) :
  0 < w < 2 ^ 24 ->
  F32.of_f64 (principalPoint w)
  = S754_finite false (Z.to_pos (w * 2 ^ (23 - Z.log2 w))) (Z.log2 w - 24).
Proof.
  intros Hw. destruct (small_log2 w Hw) as (Hl & Hwl).
  rewrite principalPoint_pos by (unfold Int.INT_MAX; lia).
  set (l := Z.log2 w) in *.
  assert (Hb : 0 < 2 ^ (23 - l)) by (apply Z.pow_pos_nonneg; lia).
  set (q := Z.to_pos (w * 2 ^ (23 - l))).
  assert (Hq : Z.pos q = w * 2 ^ (23 - l)).
  { unfold q. rewrite Z2Pos.id; [reflexivity | nia]. }
  assert (Hdq : Z.pos (digits2_pos q) = 24).
  { change (Z.pos (digits2_pos q)) with (Zdigits2 (Z.pos q)).
    rewrite Hq, Zdigits2_mul_pow2 by lia.
    rewrite (Zdigits2_unique w (l + 1)); [lia | | lia].
    replace (l + 1 - 1) with l by lia. rewrite Z.pow_add_r by lia. lia. }
  assert (Hmw : Z.to_pos (w * 2 ^ (52 - l)) = Z.to_pos (Z.pos q * 2 ^ 29)).
  { f_equal. rewrite Hq. replace (52 - l) with (23 - l + 29) by lia.
    rewrite Z.pow_add_r by lia. lia. }
  rewrite Hmw. cbn [F32.of_f64]. unfold binary_round, shl_align.
  assert (Hd : Z.pos (digits2_pos (Z.to_pos (Z.pos q * 2 ^ 29))) = 53).
  { change (Z.pos (digits2_pos (Z.to_pos (Z.pos q * 2 ^ 29))))
      with (Zdigits2 (Z.pos (Z.to_pos (Z.pos q * 2 ^ 29)))).
    rewrite Z2Pos.id by lia.
    rewrite (Zdigits2_mul_pow2 (Z.pos q)) by lia. cbn [Zdigits2]. lia. }
  rewrite Hd.
  assert (Hf : fexp F32.prec F32.emax (53 + (l - 53)) = l - 24).
  { unfold fexp, emin, F32.prec, F32.emax. lia. }
  rewrite Hf. replace (l - 24 - (l - 53)) with 29 by lia.
  rewrite Z2Pos.id by lia.
  change 29 with (Z.pos 29).
  rewrite binary_round_aux_shift_exact.
  - f_equal. lia.
  - rewrite Hdq. unfold fexp, emin, F32.prec, F32.emax. lia.
  - unfold F32.prec, F32.emax. lia.
Qed.

(** The offset [(float)i - cx] is a zero exactly in the column
    [i = width / 2] of an even width, and negative to the left of it. *)
Lemma offset_shape (i w : Z) :
  0 <= i < 2 ^ 24 -> 0 < w < 2 ^ 24 ->
  let a := F32.sub (F32.of_int i) (F32.of_f64 (principalPoint w)) in
  is_zero a = (2 * i =? w) /\ signbit (F32.neg a) = (w <=? 2 * i).
Proof.
  intros Hi Hw a. subst a. rewrite principalPoint_single by assumption.
  destruct (small_log2 w Hw) as (Hlw & Hwl).
  set (lw := Z.log2 w) in *.
  destruct (Z.eq_dec i 0) as [-> | Hi0].
  { change (2 * 0) with 0.
    destruct (Z.eqb_spec 0 w); [lia |]. destruct (Z.leb_spec w 0); [lia |].
    split; reflexivity. }
  rewrite of_int_exact by lia.
  destruct (small_log2 i ltac:(lia)) as (Hli & Hil).
  set (li := Z.log2 i) in *.
  set (mi := Z.to_pos (i * 2 ^ (23 - li))).
  set (mw := Z.to_pos (w * 2 ^ (23 - lw))).
  assert (Hbi : 0 < 2 ^ (23 - li)) by (apply Z.pow_pos_nonneg; lia).
  assert (Hbw : 0 < 2 ^ (23 - lw)) by (apply Z.pow_pos_nonneg; lia).
  assert (Hmi : Z.pos mi = i * 2 ^ (23 - li)).
  { unfold mi. rewrite Z2Pos.id; [reflexivity | nia]. }
  assert (Hmw : Z.pos mw = w * 2 ^ (23 - lw)).
  { unfold mw. rewrite Z2Pos.id; [reflexivity | nia]. }
  unfold F32.sub. cbn [SFsub cond_Zopp].
  set (ez := Z.min (li - 23) (lw - 24)).
  assert (Hal : forall m e, ez <= e ->
            Z.pos (fst (shl_align m e ez)) = Z.pos m * 2 ^ (e - ez)).
  { intros m e Hle. unfold shl_align.
    destruct (ez - e) as [| p | p] eqn:E; cbn [fst].
    - replace (e - ez) with 0 by lia. lia.
    - lia.
    - rewrite iter_xO. f_equal. f_equal. lia. }
  rewrite (Hal mi (li - 23)) by (unfold ez; lia).
  rewrite (Hal mw (lw - 24)) by (unfold ez; lia).
  rewrite Hmi, Hmw.
  assert (Hez : ez <= -1) by (unfold ez; lia).
  assert (Hez' : -24 <= ez) by (unfold ez; lia).
  assert (HA : i * 2 ^ (23 - li) * 2 ^ (li - 23 - ez) = 2 * i * 2 ^ (- 1 - ez)).
  { rewrite <- Z.mul_assoc, <- Z.pow_add_r by lia.
    replace (23 - li + (li - 23 - ez)) with (1 + (- 1 - ez)) by lia.
    rewrite Z.pow_add_r by lia. lia. }
  assert (HB : w * 2 ^ (23 - lw) * 2 ^ (lw - 24 - ez) = w * 2 ^ (- 1 - ez)).
  { rewrite <- Z.mul_assoc, <- Z.pow_add_r by lia. do 2 f_equal. lia. }
  rewrite HA, HB.
  assert (Hp : 0 < 2 ^ (- 1 - ez)) by (apply Z.pow_pos_nonneg; lia).
  set (M := 2 * i * 2 ^ (- 1 - ez) - w * 2 ^ (- 1 - ez)).
  assert (HM : M = (2 * i - w) * 2 ^ (- 1 - ez)) by (unfold M; lia).
  destruct (Z.eqb_spec (2 * i) w) as [E | E].
  - replace M with 0 by nia. destruct (Z.leb_spec w (2 * i)); [| lia].
    split; reflexivity.
  - assert (Hnz : M <> 0) by nia.
    assert (Hcase : forall s p, Z.pos p = Z.abs M ->
              is_zero (binary_round F32.prec F32.emax s p ez) = false /\
              signbit (F32.neg (binary_round F32.prec F32.emax s p ez)) = negb s).
    { intros s p Hpm.
      destruct (binary_round_spec F32.prec F32.emax (proj1 F32_format) (proj2 F32_format)
                  s p ez) as (Hsh & _ & Hz).
      assert (Hd : 1 <= Z.pos (digits2_pos p)) by lia.
      destruct Hsh as [H | [-> | (m2 & e2 & -> & _)]]; try (split; reflexivity).
      exfalso. apply Hz; [| exact H].
      unfold SpecFloat.emin, F32.prec, F32.emax. lia. }
    destruct M as [| p | p] eqn:EM; [lia | |]; cbn [binary_normalize].
    + destruct (Z.leb_spec w (2 * i)); [| nia]. apply Hcase. reflexivity.
    + destruct (Z.leb_spec w (2 * i)); [nia |]. apply Hcase. reflexivity.
Qed.

Lemma offset_zero_iff (i w : Z) :
  0 <= i < 2 ^ 24 -> 0 < w < 2 ^ 24 ->
  is_zero (F32.sub (F32.of_int i) (F32.of_f64 (principalPoint w))) = (2 * i =? w).
Proof. intros Hi Hw. exact (proj1 (offset_shape i w Hi Hw)). Qed.


Lemma binary_round_aux_sign (prec emax : Z) (s : bool) (m e : Z) (l : location) :
  is_nan (binary_round_aux prec emax s m e l) = false ->
  signbit (binary_round_aux prec emax s m e l) = s.
Proof.
  unfold binary_round_aux.
  destruct (shr_fexp prec emax m e l) as [mrs1 e1].
  destruct (shr_fexp prec emax _ e1 loc_Exact) as [mrs2 e2].
  destruct (shr_m mrs2); [reflexivity | | discriminate].
  destruct (e2 <=? emax - prec); reflexivity.
Qed.

Lemma SFmul_sign (prec emax : Z) (x y : spec_float) :
  is_nan (SFmul prec emax x y) = false ->
  signbit (SFmul prec emax x y) = xorb (signbit x) (signbit y).
Proof.
  destruct x as [sx | sx | | sx mx ex], y as [sy | sy | | sy my ey];
    try discriminate; try reflexivity.
  apply binary_round_aux_sign.
Qed.

Lemma SFdiv_sign (prec emax : Z) (x y : spec_float) :
  is_nan (SFdiv prec emax x y) = false ->
  signbit (SFdiv prec emax x y) = xorb (signbit x) (signbit y).
Proof.
  destruct x as [sx | sx | | sx mx ex], y as [sy | sy | | sy my ey];
    try discriminate; try reflexivity.
  cbn [SFdiv signbit].
  destruct (SFdiv_core_binary prec emax (Z.pos mx) ex (Z.pos my) ey) as [[mz ez] lz].
  apply binary_round_aux_sign.
Qed.

(** ** Non-finite ranges *)

(** X14.  With [0 < width, height] and a field of view as in X12: a range
    that is a zero or a number never gives a NaN coordinate (an overflow
    gives an infinity), and a range that is a zero gives two zero
    coordinates. *)
Theorem finite_range_gives_no_nan (tan_finite : F64.t -> F64.t) (cfg : Config)
  (st : Ros2RangeFinder) (w : World) (raw : list byte) (now : Z) :
  reachable tan_finite cfg st w ->
  0 < cfg_width cfg -> 0 < cfg_height cfg ->
  4 * cfg_width cfg * cfg_height cfg <= len raw ->
  single_range (F64.div F64.one (tan tan_finite (F64.mul F64.half (cfg_fov cfg)))) ->
  let width := cfg_width cfg in
  let height := cfg_height cfg in
  exists st' w',
    publishPointCloud st (Some raw) now w = Some (st', w') /\
    forall i j, 0 <= i < width -> 0 <= j < height ->
      exists x y z,
        load_f32 raw (i + j * width) = Some x /\
        load_f32 (pc_data (mPointCloudMessage st')) (3 * (i + j * width)) = Some x /\
        load_f32 (pc_data (mPointCloudMessage st')) (3 * (i + j * width) + 1) = Some y /\
        load_f32 (pc_data (mPointCloudMessage st')) (3 * (i + j * width) + 2) = Some z /\
        (is_finite (F32.of_bits x) = true ->
         is_nan (F32.of_bits y) = false /\ is_nan (F32.of_bits z) = false) /\
        (is_zero (F32.of_bits x) = true ->
         is_zero (F32.of_bits y) = true /\ is_zero (F32.of_bits z) = true).
Proof.
  intros Hr Hw Hh Hraw Hs width height.
  destruct (published_classes tan_finite cfg st w raw now Hr Hw Hh Hraw Hs)
    as (st' & w' & Hp & Hpix).
  exists st', w'. split; [exact Hp |].
  intros i j Hi Hj.
  destruct (Hpix i j Hi Hj) as (x & y & z & Hx & H0 & H1 & H2 & Hfin & Hzero & _).
  exists x, y, z. do 4 (split; [assumption |]). split; assumption.
Qed.

Lemma finite_range_gives_no_nan_witness :
  exists st w st' w' y z,
    reachable tan_one (sample_cfg true fov_half_pi) st w /\
    publishPointCloud st (Some sample_raw) 7 w = Some (st', w') /\
    load_f32 (pc_data (mPointCloudMessage st')) 4 = Some y /\
    load_f32 (pc_data (mPointCloudMessage st')) 5 = Some z /\
    is_nan (F32.of_bits y) = false /\ is_nan (F32.of_bits z) = false.
Proof.
  destruct sample_reachable as (st & w & Hr).
  destruct (finite_range_gives_no_nan tan_one (sample_cfg true fov_half_pi) st w
              sample_raw 7 Hr ltac:(reflexivity) ltac:(reflexivity) ltac:(discriminate)
              ltac:(vm_compute; split; [reflexivity | split; discriminate]))
    as (st' & w' & Hp & Hpix).
  destruct (Hpix 1 0 ltac:(cbn; lia) ltac:(cbn; lia))
    as (x & y & z & Hx & _ & Hy & Hz & Hfin & _).
  exists st, w, st', w', y, z. split; [exact Hr |]. split; [exact Hp |].
  split; [exact Hy |]. split; [exact Hz |].
  apply Hfin. vm_compute in Hx. injection Hx as <-. reflexivity.
Defined.

(** X15.  With [0 < width, height < 2^24] and a field of view as in X12: for
    an infinite range, [y] is a NaN exactly in the column [2 * i = width]
    (where [i - cx] is zero, and zero times infinity is invalid) and an
    infinity in every other column; [z] is a NaN exactly in the row
    [2 * j = height] and an infinity in every other row. *)
Theorem infinite_range_gives_nan_at_centre (tan_finite : F64.t -> F64.t) (cfg : Config)
  (st : Ros2RangeFinder) (w : World) (raw : list byte) (now : Z) :
  reachable tan_finite cfg st w ->
  0 < cfg_width cfg < 2 ^ 24 -> 0 < cfg_height cfg < 2 ^ 24 ->
  4 * cfg_width cfg * cfg_height cfg <= len raw ->
  single_range (F64.div F64.one (tan tan_finite (F64.mul F64.half (cfg_fov cfg)))) ->
  let width := cfg_width cfg in
  let height := cfg_height cfg in
  exists st' w',
    publishPointCloud st (Some raw) now w = Some (st', w') /\
    forall i j, 0 <= i < width -> 0 <= j < height ->
      exists x y z,
        load_f32 raw (i + j * width) = Some x /\
        load_f32 (pc_data (mPointCloudMessage st')) (3 * (i + j * width)) = Some x /\
        load_f32 (pc_data (mPointCloudMessage st')) (3 * (i + j * width) + 1) = Some y /\
        load_f32 (pc_data (mPointCloudMessage st')) (3 * (i + j * width) + 2) = Some z /\
        (is_infinity (F32.of_bits x) = true ->
         is_nan (F32.of_bits y) = (2 * i =? width) /\
         is_infinity (F32.of_bits y) = negb (2 * i =? width) /\
         is_nan (F32.of_bits z) = (2 * j =? height) /\
         is_infinity (F32.of_bits z) = negb (2 * j =? height)).
Proof.
  intros Hr Hw Hh Hraw Hs width height.
  destruct (published_classes tan_finite cfg st w raw now Hr ltac:(lia) ltac:(lia) Hraw Hs)
    as (st' & w' & Hp & Hpix).
  exists st', w'. split; [exact Hp |].
  intros i j Hi Hj.
  destruct (Hpix i j Hi Hj) as (x & y & z & Hx & H0 & H1 & H2 & _ & _ & Hinf).
  exists x, y, z. do 4 (split; [assumption |]).
  intros Hxi. destruct (Hinf Hxi) as (Hy1 & Hy2 & Hz1 & Hz2).
  rewrite offset_zero_iff in Hy1, Hy2 by (unfold width in *; lia).
  rewrite offset_zero_iff in Hz1, Hz2 by (unfold height in *; lia).
  auto.
Qed.

Lemma infinite_range_gives_nan_at_centre_witness :
  exists st w st' w' y z,
    reachable tan_one (sample_cfg true fov_half_pi) st w /\
    publishPointCloud st (Some raw_infinite) 7 w = Some (st', w') /\
    load_f32 (pc_data (mPointCloudMessage st')) 4 = Some y /\
    load_f32 (pc_data (mPointCloudMessage st')) 5 = Some z /\
    is_nan (F32.of_bits y) = true /\ is_infinity (F32.of_bits z) = true.
Proof.
  destruct sample_reachable as (st & w & Hr).
  destruct (infinite_range_gives_nan_at_centre tan_one (sample_cfg true fov_half_pi) st w
              raw_infinite 7 Hr ltac:(cbn; lia) ltac:(cbn; lia) ltac:(discriminate)
              ltac:(vm_compute; split; [reflexivity | split; discriminate]))
    as (st' & w' & Hp & Hpix).
  destruct (Hpix 1 0 ltac:(cbn; lia) ltac:(cbn; lia))
    as (x & y & z & Hx & _ & Hy & Hz & Hinf).
  exists st, w, st', w', y, z. split; [exact Hr |]. split; [exact Hp |].
  split; [exact Hy |]. split; [exact Hz |].
  vm_compute in Hx. injection Hx as <-.
  destruct (Hinf eq_refl) as (Hyn & _ & _ & Hzi).
  rewrite Hyn, Hzi. split; reflexivity.
Defined.

(** X16.  A NaN range, whatever its payload, is copied unchanged into [x] and
    makes both [y] and [z] NaNs, for every geometry and field of view. *)
Theorem nan_range_gives_nan (tan_finite : F64.t -> F64.t) (cfg : Config)
  (st : Ros2RangeFinder) (w : World) (raw : list byte) (now : Z) :
  reachable tan_finite cfg st w ->
  4 * cfg_width cfg * cfg_height cfg <= len raw ->
  let width := cfg_width cfg in
  let height := cfg_height cfg in
  exists st' w',
    publishPointCloud st (Some raw) now w = Some (st', w') /\
    forall i j, 0 <= i < width -> 0 <= j < height ->
      exists x y z,
        load_f32 raw (i + j * width) = Some x /\
        load_f32 (pc_data (mPointCloudMessage st')) (3 * (i + j * width)) = Some x /\
        load_f32 (pc_data (mPointCloudMessage st')) (3 * (i + j * width) + 1) = Some y /\
        load_f32 (pc_data (mPointCloudMessage st')) (3 * (i + j * width) + 2) = Some z /\
        (is_nan (F32.of_bits x) = true ->
         is_nan (F32.of_bits y) = true /\ is_nan (F32.of_bits z) = true).
Proof.
  intros Hr Hraw width height.
  apply reachable_consistent in Hr.
  destruct (published_point tan_finite cfg st w raw now Hr Hraw) as (st' & w' & Hp & Hpix).
  exists st', w'. split; [exact Hp |].
  intros i j Hi Hj.
  destruct (Hpix i j Hi Hj) as (x & y & z & Hx & H0 & H1 & H2 & Hy & Hz).
  exists x, y, z. do 4 (split; [assumption |]).
  intros Hn. rewrite Hy, Hz. destruct (F32.of_bits x); try discriminate.
  split.
  - destruct (F32.neg (F32.sub (F32.of_int i) _)); reflexivity.
  - destruct (F32.neg (F32.sub (F32.of_int j) _)); reflexivity.
Qed.

Lemma nan_range_gives_nan_witness :
  exists st w st' w' x y z,
    reachable tan_one (sample_cfg true fov_half_pi) st w /\
    publishPointCloud st (Some raw_nan) 7 w = Some (st', w') /\
    load_f32 (pc_data (mPointCloudMessage st')) 0 = Some x /\
    load_f32 (pc_data (mPointCloudMessage st')) 1 = Some y /\
    load_f32 (pc_data (mPointCloudMessage st')) 2 = Some z /\
    x = 2143289345 /\
    is_nan (F32.of_bits y) = true /\ is_nan (F32.of_bits z) = true.
Proof.
  destruct sample_reachable as (st & w & Hr).
  destruct (nan_range_gives_nan tan_one (sample_cfg true fov_half_pi) st w
              raw_nan 7 Hr ltac:(discriminate))
    as (st' & w' & Hp & Hpix).
  destruct (Hpix 0 0 ltac:(cbn; lia) ltac:(cbn; lia))
    as (x & y & z & Hx & H0 & Hy & Hz & Hnan).
  exists st, w, st', w', x, y, z. split; [exact Hr |]. split; [exact Hp |].
  split; [exact H0 |]. split; [exact Hy |]. split; [exact Hz |].
  vm_compute in Hx. injection Hx as <-. split; [reflexivity |].
  apply Hnan. reflexivity.
Defined.

(** ** Signs of the coordinates *)

Lemma is_nan_false (x : spec_float) : x <> S754_nan -> is_nan x = false.
Proof. destruct x; try reflexivity. congruence. Qed.

(** The sign of one coordinate of a range that is a zero or a number. *)
Lemma lateral_sign (k w : Z) (x f : F32.t) :
  0 <= k < 2 ^ 24 -> 0 < w < 2 ^ 24 ->
  is_finite x = true ->
  (exists s m e, f = S754_finite s m e) ->
  signbit (F32.div (F32.mul (F32.neg (F32.sub (F32.of_int k)
                                        (F32.of_f64 (principalPoint w)))) x) f)
  = xorb (xorb (w <=? 2 * k) (signbit x)) (signbit f).
Proof.
  intros Hk Hw Hx Hf.
  set (a := F32.sub (F32.of_int k) (F32.of_f64 (principalPoint w))).
  assert (Ha : is_finite a = true).
  { apply offset_class; unfold Int.INT_MAX; lia. }
  destruct (lateral_class a x f Ha Hf) as (Hy & _).
  specialize (Hy Hx). cbn zeta in Hy.
  unfold F32.div in *. rewrite SFdiv_sign by exact Hy.
  assert (Hb : is_nan (F32.mul (F32.neg a) x) = false).
  { apply is_nan_false. apply (SFmul_not_nan F32.prec F32.emax).
    - intros s. destruct a; discriminate.
    - intros s. destruct x; discriminate.
    - destruct a; discriminate.
    - destruct x; discriminate. }
  unfold F32.mul in *. rewrite SFmul_sign by exact Hb.
  destruct (offset_shape k w Hk Hw) as (_ & Hs). cbn zeta in Hs. fold a in Hs.
  now rewrite Hs.
Qed.

(** In the centre column the coordinate of such a range is a zero. *)
Lemma lateral_centre (k w : Z) (x f : F32.t) :
  0 <= k < 2 ^ 24 -> 0 < w < 2 ^ 24 -> 2 * k = w ->
  is_finite x = true ->
  (exists s m e, f = S754_finite s m e) ->
  is_zero (F32.div (F32.mul (F32.neg (F32.sub (F32.of_int k)
                                        (F32.of_f64 (principalPoint w)))) x) f) = true.
Proof.
  intros Hk Hw Hc Hx (sf & mf & ef & ->).
  destruct (offset_shape k w Hk Hw) as (Hz & _). cbn zeta in Hz.
  rewrite (proj2 (Z.eqb_eq _ _) Hc) in Hz.
  destruct (F32.sub (F32.of_int k) (F32.of_f64 (principalPoint w))); try discriminate.
  destruct x; try discriminate; reflexivity.
Qed.

(** X17.  With [0 < width, height < 2^24] and a field of view as in X12, for
    a range that is a zero or a number: the sign bit of [y] is that of the
    range, flipped in the columns [2 * i >= width] and flipped again by a
    negative [fx]; likewise for [z] with rows and [fy].  In the column
    [2 * i = width] the coordinate [y] is a zero, and in the row
    [2 * j = height] the coordinate [z] is a zero. *)
Theorem lateral_signs (tan_finite : F64.t -> F64.t) (cfg : Config)
  (st : Ros2RangeFinder) (w : World) (raw : list byte) (now : Z) :
  reachable tan_finite cfg st w ->
  0 < cfg_width cfg < 2 ^ 24 -> 0 < cfg_height cfg < 2 ^ 24 ->
  4 * cfg_width cfg * cfg_height cfg <= len raw ->
  single_range (F64.div F64.one (tan tan_finite (F64.mul F64.half (cfg_fov cfg)))) ->
  let width := cfg_width cfg in
  let height := cfg_height cfg in
  let K := ci_k (mCameraInfoMessage st) in
  let fx := F32.of_f64 (at_k K 0) in
  let fy := F32.of_f64 (at_k K 4) in
  exists st' w',
    publishPointCloud st (Some raw) now w = Some (st', w') /\
    forall i j, 0 <= i < width -> 0 <= j < height ->
      exists x y z,
        load_f32 raw (i + j * width) = Some x /\
        load_f32 (pc_data (mPointCloudMessage st')) (3 * (i + j * width)) = Some x /\
        load_f32 (pc_data (mPointCloudMessage st')) (3 * (i + j * width) + 1) = Some y /\
        load_f32 (pc_data (mPointCloudMessage st')) (3 * (i + j * width) + 2) = Some z /\
        (is_finite (F32.of_bits x) = true ->
         signbit (F32.of_bits y)
         = xorb (xorb (width <=? 2 * i) (signbit (F32.of_bits x))) (signbit fx) /\
         signbit (F32.of_bits z)
         = xorb (xorb (height <=? 2 * j) (signbit (F32.of_bits x))) (signbit fy) /\
         (2 * i = width -> is_zero (F32.of_bits y) = true) /\
         (2 * j = height -> is_zero (F32.of_bits z) = true)).
Proof.
  intros Hr Hw Hh Hraw Hs width height K fx fy.
  apply reachable_consistent in Hr.
  destruct (published_point tan_finite cfg st w raw now Hr Hraw) as (st' & w' & Hp & Hpix).
  exists st', w'. split; [exact Hp |].
  destruct Hr as (_ & _ & _ & _ & _ & _ & Hci & _).
  subst K fx fy. rewrite Hci. cbn [init_cameraInfo ci_k at_k nth].
  intros i j Hi Hj.
  destruct (Hpix i j Hi Hj) as (x & y & z & Hx & H0 & H1 & H2 & Hy & Hz).
  exists x, y, z. do 4 (split; [assumption |]).
  intros Hfin. rewrite Hy, Hz.
  assert (Hfx : exists s m e,
            F32.of_f64 (focalLength tan_finite (cfg_width cfg) (cfg_fov cfg))
            = S754_finite s m e).
  { apply focal_class; [unfold Int.INT_MAX; lia | exact Hs]. }
  assert (Hfy : exists s m e,
            F32.of_f64 (focalLength tan_finite (cfg_height cfg) (cfg_fov cfg))
            = S754_finite s m e).
  { apply focal_class; [unfold Int.INT_MAX; lia | exact Hs]. }
  split; [| split; [| split]].
  - apply lateral_sign; [unfold width in *; lia | assumption | assumption | exact Hfx].
  - apply lateral_sign; [unfold height in *; lia | assumption | assumption | exact Hfy].
  - intros Hc. apply lateral_centre; try assumption. unfold width in *; lia.
  - intros Hc. apply lateral_centre; try assumption. unfold height in *; lia.
Qed.

Lemma lateral_signs_witness :
  exists st w st' w' y0 y1,
    reachable tan_one (sample_cfg true fov_half_pi) st w /\
    publishPointCloud st (Some sample_raw) 7 w = Some (st', w') /\
    load_f32 (pc_data (mPointCloudMessage st')) 1 = Some y0 /\
    load_f32 (pc_data (mPointCloudMessage st')) 4 = Some y1 /\
    signbit (F32.of_bits y0) = false /\ signbit (F32.of_bits y1) = true.
Proof.
  destruct (init tan_one (sample_cfg true fov_half_pi) power_on) as [[st w] |] eqn:E;
    [| vm_compute in E; discriminate].
  pose proof (reach_init _ _ _ _ E) as Hr.
  destruct (lateral_signs tan_one (sample_cfg true fov_half_pi) st w
              sample_raw 7 Hr ltac:(cbn; lia) ltac:(cbn; lia) ltac:(discriminate)
              ltac:(vm_compute; split; [reflexivity | split; discriminate]))
    as (st' & w' & Hp & Hpix).
  destruct (Hpix 0 0 ltac:(cbn; lia) ltac:(cbn; lia))
    as (x0 & y0 & z0 & Hx0 & _ & Hy0 & _ & Hs0).
  destruct (Hpix 1 0 ltac:(cbn; lia) ltac:(cbn; lia))
    as (x1 & y1 & z1 & Hx1 & _ & Hy1 & _ & Hs1).
  exists st, w, st', w', y0, y1. split; [exact Hr |]. split; [exact Hp |].
  split; [exact Hy0 |]. split; [exact Hy1 |].
  vm_compute in Hx0. injection Hx0 as <-. vm_compute in Hx1. injection Hx1 as <-.
  rewrite (proj1 (Hs0 eq_refl)), (proj1 (Hs1 eq_refl)).
  apply init_Some in E as (Hc & _). destruct Hc as (_ & _ & _ & _ & _ & _ & -> & _).
  split; vm_compute; reflexivity.
Defined.
